(** * Omni-Code-Visualizer: the audio layer

    A shallow embedding of the audio code of the repository and the
    properties its specification states about it:

    - [AudioUtils]  : services/audioUtils.ts  (PCM codec, playback buffer builder)
    - [LiveTutor]   : components/LiveTutor.tsx (gapless scheduler, barge-in,
                      session lifecycle)
    - [TtsService]  : services/ttsService.ts  (cancellable narration)

    Conventions.  A JavaScript number that holds a time, a duration or an
    audio sample is an exact rational ([Q]); every operation the code
    applies to such a number in the properties below (comparison, one
    addition, a product of a 24-bit by a 15-bit significand, a division by
    a power of two) is modelled without rounding.  A counter is a [nat].
    A function that can throw returns a [result]; a handler that mutates
    the component's refs runs in a state monad in which a thrown exception
    keeps the mutations made before it, as in JavaScript. *)

From Stdlib Require Import ZArith QArith Qround Qminmax Qabs Lia Lqa.
From Stdlib Require Import List String Ascii DecimalString.
From Stdlib.Strings Require Import Byte.
From stdpp Require Import base option gmap sets list strings.
Import ListNotations.

(** ** Exceptions of the platform *)

Inductive JsError : Type :=
| RangeError            (* typed-array constructor on a misaligned buffer *)
| NotSupportedError     (* Web Audio: argument outside its nominal range *)
| InvalidStateError     (* Web Audio: stop() on a node never started *)
| InvalidCharacterError (* atob on a string that is not base64 *)
| TypeError             (* method call on null *)
| NetworkError.         (* a rejected request *)

Inductive result (A : Type) : Type :=
| Ok (a : A)
| Throw (e : JsError).
Arguments Ok {A} a.
Arguments Throw {A} e.

Definition bind_result {A B} (r : result A) (k : A -> result B) : result B :=
  match r with
  | Ok a => k a
  | Throw e => Throw e
  end.

Definition is_ok {A} (r : result A) : bool :=
  match r with Ok _ => true | Throw _ => false end.

#[global] Instance result_ret : MRet result := fun A a => Ok a.
#[global] Instance result_bind : MBind result := fun A B k r => bind_result r k.

(** The platform object [AudioContext], reduced to its clock. *)
Record AudioContext : Type := { currentTime : Q }.

(** ** services/audioUtils.ts *)
Module AudioUtils.

Local Open Scope Z_scope.

(** *** Typed arrays *)

(** A [Uint8Array] is a view on an [ArrayBuffer]. *)
Record Uint8Array : Type := {
  buffer : list byte;
  byteOffset : nat;
  byteLength : nat
}.

(** [new Uint8Array(len)] filled index by index: the array owns its buffer. *)
Definition Uint8Array_of_bytes (bs : list byte) : Uint8Array :=
  {| buffer := bs; byteOffset := 0%nat; byteLength := List.length bs |}.

Definition byte_val (b : byte) : Z := Z.of_N (Byte.to_N b).

Definition byte_of_Z (z : Z) : byte :=
  match Byte.of_N (Z.to_N (z mod 256)) with
  | Some b => b
  | None => x00
  end.

(** Two's complement reading of a 16-bit word. *)
Definition signed16 (w : Z) : Z :=
  let m := w mod 65536 in
  if 32768 <=? m then m - 65536 else m.

(** The elements of an [Int16Array] laid over a buffer (little endian). *)
Fixpoint int16_view (bs : list byte) : list Z :=
  match bs with
  | b0 :: b1 :: rest => signed16 (byte_val b0 + 256 * byte_val b1) :: int16_view rest
  | _ => []
  end.

(** [new Int16Array(buf)]: a [RangeError] unless the byte length of the
    buffer is a multiple of 2. *)
Definition new_Int16Array (buf : list byte) : result (list Z) :=
  if Nat.even (List.length buf) then Ok (int16_view buf) else Throw RangeError.

(** The bytes of the buffer of an [Int16Array]: [new Uint8Array(int16.buffer)]. *)
Definition int16_bytes (xs : list Z) : list byte :=
  flat_map (fun v => [byte_of_Z v; byte_of_Z (v / 256)]) xs.

(** Storing a number in an [Int16Array]: ECMAScript [ToInt16], truncation
    toward zero then wrap-around modulo 2^16. *)
Definition ToInt16 (x : Q) : Z :=
  signed16 (Z.quot (Qnum x) (Z.pos (Qden x))).

(** *** float32ToInt16 *)

Definition encode_sample (x : Q) : Z :=
  let s := Qmax (-1) (Qmin 1 x) in
  ToInt16 (match s ?= 0 with
           | Lt => s * 32768
           | _ => s * 32767
           end)%Q.

Definition float32ToInt16 (float32 : list Q) : list Z :=
  map encode_sample float32.

(** *** base64Decode *)

(** Value of a character of the base64 alphabet. *)
Definition b64_value (c : ascii) : option Z :=
  let n := Z.of_nat (nat_of_ascii c) in
  if (65 <=? n) && (n <=? 90) then Some (n - 65)
  else if (97 <=? n) && (n <=? 122) then Some (n - 71)
  else if (48 <=? n) && (n <=? 57) then Some (n + 4)
  else if n =? 43 then Some 62
  else if n =? 47 then Some 63
  else None.

Definition is_ascii_whitespace (c : ascii) : bool :=
  let n := nat_of_ascii c in
  (n =? 9)%nat || (n =? 10)%nat || (n =? 12)%nat || (n =? 13)%nat || (n =? 32)%nat.

Definition is_pad (c : ascii) : bool := (nat_of_ascii c =? 61)%nat.

(** Strip at most two [=] at the end of a string whose length is a
    multiple of 4. *)
Definition strip_padding (cs : list ascii) : list ascii :=
  if (List.length cs mod 4 =? 0)%nat then
    match rev cs with
    | p1 :: p2 :: r => if is_pad p1 then (if is_pad p2 then rev r else rev (p2 :: r)) else cs
    | _ => cs
    end
  else cs.

Fixpoint b64_groups (vs : list Z) : list byte :=
  match vs with
  | a :: b :: c :: d :: rest =>
      let n := a * 262144 + b * 4096 + c * 64 + d in
      byte_of_Z (n / 65536) :: byte_of_Z (n / 256) :: byte_of_Z n :: b64_groups rest
  | [a; b; c] =>
      let n := a * 4096 + b * 64 + c in
      [byte_of_Z (n / 1024); byte_of_Z (n / 4)]
  | [a; b] => [byte_of_Z ((a * 64 + b) / 16)]
  | _ => []
  end.

(** [atob]: the forgiving base64 decoding of the HTML standard. *)
Definition atob (s : string) : result (list byte) :=
  let cs := strip_padding (List.filter (fun c => negb (is_ascii_whitespace c))
                                       (list_ascii_of_string s)) in
  if (List.length cs mod 4 =? 1)%nat then Throw InvalidCharacterError
  else match mapM b64_value cs with
       | Some vs => Ok (b64_groups vs)
       | None => Throw InvalidCharacterError
       end.

Definition base64Decode (base64 : string) : result Uint8Array :=
  binaryString ← atob base64;
  Ok (Uint8Array_of_bytes binaryString).

(** *** pcmToAudioBuffer *)

Record AudioBuffer : Type := {
  numberOfChannels : nat;
  frames : nat;                 (* AudioBuffer.length *)
  sampleRate : Q;
  channelData : list (list Q)   (* getChannelData(c), one list per channel *)
}.

Definition duration (b : AudioBuffer) : Q :=
  (inject_Z (Z.of_nat (frames b)) / sampleRate b)%Q.

(** [ctx.createBuffer(numberOfChannels, length, sampleRate)] of the Web
    Audio API.  The length is converted to an unsigned long (truncation).
    The call throws [NotSupportedError] when an argument is outside its
    nominal range: the length must be at least 1, and the channel count
    and the rate must be supported.  Every implementation supports 1 to 32
    channels and 8000 to 96000 Hz; a browser may accept more, and no
    property below depends on what happens outside these ranges. *)
Definition createBuffer (ctx : AudioContext) (channels : nat) (length : Q) (rate : Q)
  : result AudioBuffer :=
  let len := Z.to_nat (Qfloor length) in
  if (channels =? 0)%nat || (32 <? channels)%nat || (len =? 0)%nat
     || negb (Qle_bool 8000 rate) || negb (Qle_bool rate 96000)
  then Throw NotSupportedError
  else Ok {| numberOfChannels := channels;
             frames := len;
             sampleRate := rate;
             channelData := replicate channels (replicate len 0%Q) |}.

(** The inner loop over [i < frameCount] for one channel.  A store past
    the end of a typed array is dropped, which is what the list insert
    does.  A load past the end of [dataInt16] would give [undefined],
    but the store that follows it is then past the end of the channel as
    well (lemma [fill_load_in_range]), so it is dropped here too. *)
Definition fill_channel (dataInt16 : list Z) (numChannels channel : nat)
    (iterations : nat) (channelData : list Q) : list Q :=
  fold_left
    (fun cd i =>
       match dataInt16 !! (i * numChannels + channel)%nat with
       | Some v => <[ i := (inject_Z v / 32768)%Q ]> cd
       | None => cd
       end)
    (seq 0 iterations) channelData.

Definition pcmToAudioBuffer (data : Uint8Array) (ctx : AudioContext)
    (sampleRate : Q) (numChannels : nat) : result AudioBuffer :=
  dataInt16 ← new_Int16Array (buffer data);
  let frameCount : Q :=
     (inject_Z (Z.of_nat (List.length dataInt16)) / inject_Z (Z.of_nat numChannels))%Q in
  buffer ← createBuffer ctx numChannels frameCount sampleRate;
  let iterations := Z.to_nat (Qceiling frameCount) in
   Ok {| numberOfChannels := numberOfChannels buffer;
         frames := frames buffer;
         sampleRate := AudioUtils.sampleRate buffer;
         channelData :=
           imap (fun channel cd => fill_channel dataInt16 numChannels channel iterations cd)
                (channelData buffer) |}.

(** The channel counts and sample rates a browser accepts are its own;
    the standard fixes only what every browser accepts.  On any browser
    [createBuffer] throws [NotSupportedError] for zero channels, for a
    length of zero, and for a channel count or a rate it does not
    support, and otherwise returns a buffer of silence. *)
Record Platform : Type := {
  supports_channels : nat -> bool;
  supports_rate : Q -> bool
}.

Definition createBuffer_on (platform : Platform) (ctx : AudioContext) (channels : nat)
    (length : Q) (rate : Q) : result AudioBuffer :=
  let len := Z.to_nat (Qfloor length) in
  if (channels =? 0)%nat || negb (supports_channels platform channels)
     || (len =? 0)%nat || negb (supports_rate platform rate)
  then Throw NotSupportedError
  else Ok {| numberOfChannels := channels;
             frames := len;
             sampleRate := rate;
             channelData := replicate channels (replicate len 0%Q) |}.

(** [pcmToAudioBuffer] on a given browser. *)
Definition pcmToAudioBuffer_on (platform : Platform) (data : Uint8Array) (ctx : AudioContext)
    (sampleRate : Q) (numChannels : nat) : result AudioBuffer :=
  dataInt16 ← new_Int16Array (buffer data);
  let frameCount : Q :=
     (inject_Z (Z.of_nat (List.length dataInt16)) / inject_Z (Z.of_nat numChannels))%Q in
  buffer ← createBuffer_on platform ctx numChannels frameCount sampleRate;
  let iterations := Z.to_nat (Qceiling frameCount) in
   Ok {| numberOfChannels := numberOfChannels buffer;
         frames := frames buffer;
         sampleRate := AudioUtils.sampleRate buffer;
         channelData :=
           imap (fun channel cd => fill_channel dataInt16 numChannels channel iterations cd)
                (channelData buffer) |}.

(** The browser that accepts exactly what every browser must: the one
    [createBuffer] and [pcmToAudioBuffer] above are written for. *)
Definition nominal_platform : Platform :=
  {| supports_channels := fun channels => (channels <=? 32)%nat;
     supports_rate := fun rate => Qle_bool 8000 rate && Qle_bool rate 96000 |}.


(** [base64Decode] then [pcmToAudioBuffer] at 24 kHz mono, as both
    players decode a payload. *)
Definition decode_audio (base64 : string) (ctx : AudioContext) : result AudioBuffer :=
  audioData ← base64Decode base64;
  pcmToAudioBuffer audioData ctx 24000 1.

(** Reading a sample back: the division of the decoder. *)
Definition decode_sample (v : Z) : Q := (inject_Z v / 32768)%Q.

(** *** base64Encode *)

(** The character of a 6-bit value in the base64 alphabet. *)
Definition b64_char (v : Z) : ascii :=
  ascii_of_nat (Z.to_nat (if v <? 26 then v + 65
                          else if v <? 52 then v + 71
                          else if v <? 62 then v - 4
                          else if v =? 62 then 43
                          else 47)).

(** The 6-bit values of a byte sequence, three bytes to four values; one
    or two bytes left over give two or three values. *)
Fixpoint b64_sextets (bs : list byte) : list Z :=
  match bs with
  | b0 :: b1 :: b2 :: rest =>
      let n := byte_val b0 * 65536 + byte_val b1 * 256 + byte_val b2 in
      n / 262144 :: (n / 4096) mod 64 :: (n / 64) mod 64 :: n mod 64 :: b64_sextets rest
  | [b0; b1] =>
      let n := byte_val b0 * 1024 + byte_val b1 * 4 in
      [n / 4096; (n / 64) mod 64; n mod 64]
  | [b0] =>
      let n := byte_val b0 * 16 in
      [n / 64; n mod 64]
  | [] => []
  end.

Fixpoint b64_padding (bs : list byte) : list ascii :=
  match bs with
  | _ :: _ :: _ :: rest => b64_padding rest
  | [_; _] => ["="%char]
  | [_] => ["="%char; "="%char]
  | [] => []
  end.

(** [btoa] on a binary string, every character of which is a byte. *)
Definition btoa (binary : list byte) : string :=
  string_of_list_ascii (map b64_char (b64_sextets binary) ++ b64_padding binary).

(** The elements [bytes[0]] to [bytes[byteLength - 1]] of a view. *)
Definition elements_of (bytes : Uint8Array) : list byte :=
  take (byteLength bytes) (drop (byteOffset bytes) (buffer bytes)).

Definition base64Encode (bytes : Uint8Array) : string :=
  btoa (elements_of bytes).

(** *** createAudioBlob *)

Record Blob : Type := {
  data : string;
  mimeType : string
}.

Definition createAudioBlob (inputData : list Q) : Blob :=
  let int16 := float32ToInt16 inputData in
  let uint8 := Uint8Array_of_bytes (int16_bytes int16) in
  {| data := base64Encode uint8;
     mimeType := "audio/pcm;rate=16000" |}.

End AudioUtils.

(** ** The Web Audio objects both players use *)

(** An [AudioBufferSourceNode]: its buffer, the time given to [start] once
    it was called, and whether [stop] was called. *)
Record SourceNode : Type := {
  node_buffer : AudioUtils.AudioBuffer;
  startedAt : option Q;
  stopped : bool
}.

Definition Qltb (x y : Q) : bool :=
  match (x ?= y)%Q with Lt => true | _ => false end.

Definition truthy (s : option string) : bool :=
  match s with
  | Some EmptyString => false
  | Some _ => true
  | None => false
  end.

(** The audio nodes created so far and the identity of the next one. *)
Record AudioGraph : Type := {
  nodes : gmap nat SourceNode;
  nextNode : nat
}.

Definition empty_graph : AudioGraph := {| nodes := ∅; nextNode := 0 |}.

(** [ctx.createBufferSource()] followed by [source.buffer = audioBuffer] *)
Definition graph_create (audioBuffer : AudioUtils.AudioBuffer) (g : AudioGraph)
  : nat * AudioGraph :=
  let id := nextNode g in
  (id, {| nodes := <[ id := {| node_buffer := audioBuffer;
                               startedAt := None;
                               stopped := false |} ]> (nodes g);
          nextNode := S id |}).

(** [source.start(when)]: throws on a node already started.  The time is
    never negative in this code: it is zero or at least the clock of the
    context. *)
Definition graph_start (source : nat) (time : Q) (g : AudioGraph)
  : result unit * AudioGraph :=
  match nodes g !! source with
  | Some n =>
      match startedAt n with
      | None =>
          (Ok tt, {| nodes := <[ source := {| node_buffer := node_buffer n;
                                              startedAt := Some time;
                                              stopped := stopped n |} ]> (nodes g);
                     nextNode := nextNode g |})
      | Some _ => (Throw InvalidStateError, g)
      end
  | None => (Throw TypeError, g)
  end.

(** [source.stop()]: throws on a node never started. *)
Definition graph_stop (source : nat) (g : AudioGraph) : result unit * AudioGraph :=
  match nodes g !! source with
  | Some n =>
      match startedAt n with
      | Some _ =>
          (Ok tt, {| nodes := <[ source := {| node_buffer := node_buffer n;
                                              startedAt := startedAt n;
                                              stopped := true |} ]> (nodes g);
                     nextNode := nextNode g |})
      | None => (Throw InvalidStateError, g)
      end
  | None => (Throw TypeError, g)
  end.

Definition is_some {A} (o : option A) : bool :=
  match o with Some _ => true | None => false end.

(** A node on which [start], respectively [stop], has been called. *)
Definition started_in (g : AudioGraph) (s : nat) : Prop :=
  exists n, nodes g !! s = Some n /\ is_some (startedAt n) = true.

Definition stopped_in (g : AudioGraph) (s : nat) : Prop :=
  exists n, nodes g !! s = Some n /\ stopped n = true.

(** A node that was started and on which [stop] was never called. *)
Definition playing_in (g : AudioGraph) (s : nat) : Prop :=
  exists n, nodes g !! s = Some n /\ is_some (startedAt n) = true /\ stopped n = false.

(** ** Handlers: state and exceptions *)

Section Handlers.
Context {S : Type}.

Definition Eff (A : Type) : Type := S -> result A * S.

Definition eff_ret {A} (a : A) : Eff A := fun st => (Ok a, st).

Definition eff_bind {A B} (m : Eff A) (k : A -> Eff B) : Eff B := fun st =>
  match m st with
  | (Ok a, st') => k a st'
  | (Throw e, st') => (Throw e, st')
  end.

Definition get {A} (proj : S -> A) : Eff A := fun st => (Ok (proj st), st).
Definition modify (f : S -> S) : Eff unit := fun st => (Ok tt, f st).
Definition throw {A} (e : JsError) : Eff A := fun st => (Throw e, st).
Definition lift {A} (r : result A) : Eff A := fun st => (r, st).

Definition try_catch {A} (body : Eff A) (handler : JsError -> Eff A) : Eff A := fun st =>
  match body st with
  | (Ok a, st') => (Ok a, st')
  | (Throw e, st') => handler e st'
  end.

Definition when (b : bool) (body : Eff unit) : Eff unit :=
  if b then body else eff_ret tt.

(** [ref.current.f(...)]: reading a property of [null] throws. *)
Definition deref {A} (o : option A) : Eff A :=
  match o with
  | Some a => eff_ret a
  | None => throw TypeError
  end.

Fixpoint forEach {A} (l : list A) (f : A -> Eff unit) : Eff unit :=
  match l with
  | [] => eff_ret tt
  | x :: rest => eff_bind (f x) (fun _ => forEach rest f)
  end.

(** An operation of the audio graph, on the graph a state holds. *)
Definition on_graph {A} (proj : S -> AudioGraph) (put : AudioGraph -> S -> S)
    (op : AudioGraph -> result A * AudioGraph) : Eff A := fun st =>
  let (r, g) := op (proj st) in (r, put g st).
End Handlers.
Arguments Eff : clear implicits.

#[global] Instance Eff_ret {S} : MRet (Eff S) := fun A a => eff_ret a.
#[global] Instance Eff_bind {S} : MBind (Eff S) := fun A B k m => eff_bind m k.

(** ** components/LiveTutor.tsx *)
Module LiveTutor.
Import AudioUtils.

Definition MediaStream : Type := nat.
Definition Session : Type := nat.
Record MediaStreamAudioSourceNode : Type := { mediaStream : MediaStream }.
Record ScriptProcessorNode : Type := { bufferSize : nat }.
Record HTMLVideoElement : Type := { srcObject : option MediaStream }.

(** The state of one mounted component, and the part of the platform its
    handlers act on.  The [volume] state only feeds the rendering and is
    left out. *)
Record State : Type := {
  (* useState *)
  isActive : bool;
  isConnecting : bool;
  isScreenSharing : bool;
  isSharingLoading : bool;
  (* useRef *)
  inputContextRef : option AudioContext;
  outputContextRef : option AudioContext;
  inputSourceRef : option MediaStreamAudioSourceNode;
  processorRef : option ScriptProcessorNode;
  nextStartTimeRef : Q;
  activeSourcesRef : gset nat;
  videoRef : option HTMLVideoElement;
  screenStreamRef : option MediaStream;
  screenIntervalRef : option nat;
  sessionRef : option Session;
  (* the platform: the audio graph, the media tracks not yet stopped,
     the intervals not yet cleared *)
  graph : AudioGraph;
  liveTracks : gset MediaStream;
  timers : gset nat
}.

Definition set_isActive (v : bool) (st : State) : State :=
  {| isActive := v;
     isConnecting := isConnecting st;
     isScreenSharing := isScreenSharing st;
     isSharingLoading := isSharingLoading st;
     inputContextRef := inputContextRef st;
     outputContextRef := outputContextRef st;
     inputSourceRef := inputSourceRef st;
     processorRef := processorRef st;
     nextStartTimeRef := nextStartTimeRef st;
     activeSourcesRef := activeSourcesRef st;
     videoRef := videoRef st;
     screenStreamRef := screenStreamRef st;
     screenIntervalRef := screenIntervalRef st;
     sessionRef := sessionRef st;
     graph := graph st;
     liveTracks := liveTracks st;
     timers := timers st |}.

Definition set_isConnecting (v : bool) (st : State) : State :=
  {| isActive := isActive st;
     isConnecting := v;
     isScreenSharing := isScreenSharing st;
     isSharingLoading := isSharingLoading st;
     inputContextRef := inputContextRef st;
     outputContextRef := outputContextRef st;
     inputSourceRef := inputSourceRef st;
     processorRef := processorRef st;
     nextStartTimeRef := nextStartTimeRef st;
     activeSourcesRef := activeSourcesRef st;
     videoRef := videoRef st;
     screenStreamRef := screenStreamRef st;
     screenIntervalRef := screenIntervalRef st;
     sessionRef := sessionRef st;
     graph := graph st;
     liveTracks := liveTracks st;
     timers := timers st |}.

Definition set_isScreenSharing (v : bool) (st : State) : State :=
  {| isActive := isActive st;
     isConnecting := isConnecting st;
     isScreenSharing := v;
     isSharingLoading := isSharingLoading st;
     inputContextRef := inputContextRef st;
     outputContextRef := outputContextRef st;
     inputSourceRef := inputSourceRef st;
     processorRef := processorRef st;
     nextStartTimeRef := nextStartTimeRef st;
     activeSourcesRef := activeSourcesRef st;
     videoRef := videoRef st;
     screenStreamRef := screenStreamRef st;
     screenIntervalRef := screenIntervalRef st;
     sessionRef := sessionRef st;
     graph := graph st;
     liveTracks := liveTracks st;
     timers := timers st |}.

Definition set_isSharingLoading (v : bool) (st : State) : State :=
  {| isActive := isActive st;
     isConnecting := isConnecting st;
     isScreenSharing := isScreenSharing st;
     isSharingLoading := v;
     inputContextRef := inputContextRef st;
     outputContextRef := outputContextRef st;
     inputSourceRef := inputSourceRef st;
     processorRef := processorRef st;
     nextStartTimeRef := nextStartTimeRef st;
     activeSourcesRef := activeSourcesRef st;
     videoRef := videoRef st;
     screenStreamRef := screenStreamRef st;
     screenIntervalRef := screenIntervalRef st;
     sessionRef := sessionRef st;
     graph := graph st;
     liveTracks := liveTracks st;
     timers := timers st |}.

Definition set_inputContextRef (v : option AudioContext) (st : State) : State :=
  {| isActive := isActive st;
     isConnecting := isConnecting st;
     isScreenSharing := isScreenSharing st;
     isSharingLoading := isSharingLoading st;
     inputContextRef := v;
     outputContextRef := outputContextRef st;
     inputSourceRef := inputSourceRef st;
     processorRef := processorRef st;
     nextStartTimeRef := nextStartTimeRef st;
     activeSourcesRef := activeSourcesRef st;
     videoRef := videoRef st;
     screenStreamRef := screenStreamRef st;
     screenIntervalRef := screenIntervalRef st;
     sessionRef := sessionRef st;
     graph := graph st;
     liveTracks := liveTracks st;
     timers := timers st |}.

Definition set_outputContextRef (v : option AudioContext) (st : State) : State :=
  {| isActive := isActive st;
     isConnecting := isConnecting st;
     isScreenSharing := isScreenSharing st;
     isSharingLoading := isSharingLoading st;
     inputContextRef := inputContextRef st;
     outputContextRef := v;
     inputSourceRef := inputSourceRef st;
     processorRef := processorRef st;
     nextStartTimeRef := nextStartTimeRef st;
     activeSourcesRef := activeSourcesRef st;
     videoRef := videoRef st;
     screenStreamRef := screenStreamRef st;
     screenIntervalRef := screenIntervalRef st;
     sessionRef := sessionRef st;
     graph := graph st;
     liveTracks := liveTracks st;
     timers := timers st |}.

Definition set_inputSourceRef (v : option MediaStreamAudioSourceNode) (st : State) : State :=
  {| isActive := isActive st;
     isConnecting := isConnecting st;
     isScreenSharing := isScreenSharing st;
     isSharingLoading := isSharingLoading st;
     inputContextRef := inputContextRef st;
     outputContextRef := outputContextRef st;
     inputSourceRef := v;
     processorRef := processorRef st;
     nextStartTimeRef := nextStartTimeRef st;
     activeSourcesRef := activeSourcesRef st;
     videoRef := videoRef st;
     screenStreamRef := screenStreamRef st;
     screenIntervalRef := screenIntervalRef st;
     sessionRef := sessionRef st;
     graph := graph st;
     liveTracks := liveTracks st;
     timers := timers st |}.

Definition set_processorRef (v : option ScriptProcessorNode) (st : State) : State :=
  {| isActive := isActive st;
     isConnecting := isConnecting st;
     isScreenSharing := isScreenSharing st;
     isSharingLoading := isSharingLoading st;
     inputContextRef := inputContextRef st;
     outputContextRef := outputContextRef st;
     inputSourceRef := inputSourceRef st;
     processorRef := v;
     nextStartTimeRef := nextStartTimeRef st;
     activeSourcesRef := activeSourcesRef st;
     videoRef := videoRef st;
     screenStreamRef := screenStreamRef st;
     screenIntervalRef := screenIntervalRef st;
     sessionRef := sessionRef st;
     graph := graph st;
     liveTracks := liveTracks st;
     timers := timers st |}.

Definition set_nextStartTimeRef (v : Q) (st : State) : State :=
  {| isActive := isActive st;
     isConnecting := isConnecting st;
     isScreenSharing := isScreenSharing st;
     isSharingLoading := isSharingLoading st;
     inputContextRef := inputContextRef st;
     outputContextRef := outputContextRef st;
     inputSourceRef := inputSourceRef st;
     processorRef := processorRef st;
     nextStartTimeRef := v;
     activeSourcesRef := activeSourcesRef st;
     videoRef := videoRef st;
     screenStreamRef := screenStreamRef st;
     screenIntervalRef := screenIntervalRef st;
     sessionRef := sessionRef st;
     graph := graph st;
     liveTracks := liveTracks st;
     timers := timers st |}.

Definition set_activeSourcesRef (v : gset nat) (st : State) : State :=
  {| isActive := isActive st;
     isConnecting := isConnecting st;
     isScreenSharing := isScreenSharing st;
     isSharingLoading := isSharingLoading st;
     inputContextRef := inputContextRef st;
     outputContextRef := outputContextRef st;
     inputSourceRef := inputSourceRef st;
     processorRef := processorRef st;
     nextStartTimeRef := nextStartTimeRef st;
     activeSourcesRef := v;
     videoRef := videoRef st;
     screenStreamRef := screenStreamRef st;
     screenIntervalRef := screenIntervalRef st;
     sessionRef := sessionRef st;
     graph := graph st;
     liveTracks := liveTracks st;
     timers := timers st |}.

Definition set_videoRef (v : option HTMLVideoElement) (st : State) : State :=
  {| isActive := isActive st;
     isConnecting := isConnecting st;
     isScreenSharing := isScreenSharing st;
     isSharingLoading := isSharingLoading st;
     inputContextRef := inputContextRef st;
     outputContextRef := outputContextRef st;
     inputSourceRef := inputSourceRef st;
     processorRef := processorRef st;
     nextStartTimeRef := nextStartTimeRef st;
     activeSourcesRef := activeSourcesRef st;
     videoRef := v;
     screenStreamRef := screenStreamRef st;
     screenIntervalRef := screenIntervalRef st;
     sessionRef := sessionRef st;
     graph := graph st;
     liveTracks := liveTracks st;
     timers := timers st |}.

Definition set_screenStreamRef (v : option MediaStream) (st : State) : State :=
  {| isActive := isActive st;
     isConnecting := isConnecting st;
     isScreenSharing := isScreenSharing st;
     isSharingLoading := isSharingLoading st;
     inputContextRef := inputContextRef st;
     outputContextRef := outputContextRef st;
     inputSourceRef := inputSourceRef st;
     processorRef := processorRef st;
     nextStartTimeRef := nextStartTimeRef st;
     activeSourcesRef := activeSourcesRef st;
     videoRef := videoRef st;
     screenStreamRef := v;
     screenIntervalRef := screenIntervalRef st;
     sessionRef := sessionRef st;
     graph := graph st;
     liveTracks := liveTracks st;
     timers := timers st |}.

Definition set_screenIntervalRef (v : option nat) (st : State) : State :=
  {| isActive := isActive st;
     isConnecting := isConnecting st;
     isScreenSharing := isScreenSharing st;
     isSharingLoading := isSharingLoading st;
     inputContextRef := inputContextRef st;
     outputContextRef := outputContextRef st;
     inputSourceRef := inputSourceRef st;
     processorRef := processorRef st;
     nextStartTimeRef := nextStartTimeRef st;
     activeSourcesRef := activeSourcesRef st;
     videoRef := videoRef st;
     screenStreamRef := screenStreamRef st;
     screenIntervalRef := v;
     sessionRef := sessionRef st;
     graph := graph st;
     liveTracks := liveTracks st;
     timers := timers st |}.

Definition set_sessionRef (v : option Session) (st : State) : State :=
  {| isActive := isActive st;
     isConnecting := isConnecting st;
     isScreenSharing := isScreenSharing st;
     isSharingLoading := isSharingLoading st;
     inputContextRef := inputContextRef st;
     outputContextRef := outputContextRef st;
     inputSourceRef := inputSourceRef st;
     processorRef := processorRef st;
     nextStartTimeRef := nextStartTimeRef st;
     activeSourcesRef := activeSourcesRef st;
     videoRef := videoRef st;
     screenStreamRef := screenStreamRef st;
     screenIntervalRef := screenIntervalRef st;
     sessionRef := v;
     graph := graph st;
     liveTracks := liveTracks st;
     timers := timers st |}.

Definition set_graph (v : AudioGraph) (st : State) : State :=
  {| isActive := isActive st;
     isConnecting := isConnecting st;
     isScreenSharing := isScreenSharing st;
     isSharingLoading := isSharingLoading st;
     inputContextRef := inputContextRef st;
     outputContextRef := outputContextRef st;
     inputSourceRef := inputSourceRef st;
     processorRef := processorRef st;
     nextStartTimeRef := nextStartTimeRef st;
     activeSourcesRef := activeSourcesRef st;
     videoRef := videoRef st;
     screenStreamRef := screenStreamRef st;
     screenIntervalRef := screenIntervalRef st;
     sessionRef := sessionRef st;
     graph := v;
     liveTracks := liveTracks st;
     timers := timers st |}.

Definition set_liveTracks (v : gset MediaStream) (st : State) : State :=
  {| isActive := isActive st;
     isConnecting := isConnecting st;
     isScreenSharing := isScreenSharing st;
     isSharingLoading := isSharingLoading st;
     inputContextRef := inputContextRef st;
     outputContextRef := outputContextRef st;
     inputSourceRef := inputSourceRef st;
     processorRef := processorRef st;
     nextStartTimeRef := nextStartTimeRef st;
     activeSourcesRef := activeSourcesRef st;
     videoRef := videoRef st;
     screenStreamRef := screenStreamRef st;
     screenIntervalRef := screenIntervalRef st;
     sessionRef := sessionRef st;
     graph := graph st;
     liveTracks := v;
     timers := timers st |}.

Definition set_timers (v : gset nat) (st : State) : State :=
  {| isActive := isActive st;
     isConnecting := isConnecting st;
     isScreenSharing := isScreenSharing st;
     isSharingLoading := isSharingLoading st;
     inputContextRef := inputContextRef st;
     outputContextRef := outputContextRef st;
     inputSourceRef := inputSourceRef st;
     processorRef := processorRef st;
     nextStartTimeRef := nextStartTimeRef st;
     activeSourcesRef := activeSourcesRef st;
     videoRef := videoRef st;
     screenStreamRef := screenStreamRef st;
     screenIntervalRef := screenIntervalRef st;
     sessionRef := sessionRef st;
     graph := graph st;
     liveTracks := liveTracks st;
     timers := v |}.

Definition initial : State :=
  {| isActive := false; isConnecting := false;
     isScreenSharing := false; isSharingLoading := false;
     inputContextRef := None; outputContextRef := None;
     inputSourceRef := None; processorRef := None;
     nextStartTimeRef := 0%Q; activeSourcesRef := ∅;
     videoRef := Some {| srcObject := None |};
     screenStreamRef := None; screenIntervalRef := None; sessionRef := None;
     graph := empty_graph; liveTracks := ∅; timers := ∅ |}.

Definition M : Type -> Type := Eff State.

(** *** Platform calls *)

(** [clearInterval(id)] *)
Definition clearInterval (id : nat) : M unit :=
  modify (fun st => set_timers (timers st ∖ {[ id ]}) st).

(** [stream.getTracks().forEach(track => track.stop())] *)
Definition stopTracks (stream : MediaStream) : M unit :=
  modify (fun st => set_liveTracks (liveTracks st ∖ {[ stream ]}) st).

(** [ctx.close()] returns a promise and does not throw. *)
Definition close (ctx : AudioContext) : M unit := mret tt.

(** [node.disconnect()] *)
Definition disconnect {A} (node : A) : M unit := mret tt.

Definition createBufferSource (audioBuffer : AudioBuffer) : M nat :=
  on_graph graph set_graph (fun g => let (id, g') := graph_create audioBuffer g in (Ok id, g')).

Definition source_start (source : nat) (time : Q) : M unit :=
  on_graph graph set_graph (graph_start source time).

Definition source_stop (source : nat) : M unit :=
  on_graph graph set_graph (graph_stop source).

(** [if (ref.current) { dispose(ref.current); ref.current = null; }], the
    guard every teardown step is written with. *)
Definition release {A} (ref : State -> option A) (clear : State -> State)
    (dispose : A -> M unit) : M unit :=
  current ← get ref;
  when (is_some current)
    (x ← deref current;
     dispose x ;;
     modify clear).

(** *** stopScreenShare *)

Definition stopScreenShare : M unit :=
  release screenIntervalRef (set_screenIntervalRef None) clearInterval ;;
  release screenStreamRef (set_screenStreamRef None) stopTracks ;;
  video ← get videoRef;
  when (is_some video)
    (_ ← deref video;
     modify (set_videoRef (Some {| srcObject := None |}))) ;;
  modify (set_isScreenSharing false) ;;
  modify (set_isSharingLoading false).

(** *** stopSession *)

Definition stopSession : M unit :=
  stopScreenShare ;;
  (* 1. Stop Audio Contexts *)
  release inputContextRef (set_inputContextRef None) close ;;
  release outputContextRef (set_outputContextRef None) close ;;
  (* 2. Stop Processing *)
  release processorRef (set_processorRef None) disconnect ;;
  release inputSourceRef (set_inputSourceRef None) disconnect ;;
  (* 3. Stop all playing audio *)
  active ← get activeSourcesRef;
  forEach (elements active)
    (fun source => try_catch (source_stop source) (fun _ => mret tt)) ;;
  modify (set_activeSourcesRef ∅) ;;
  (* 4. reset state *)
  modify (set_isActive false) ;;
  modify (set_isConnecting false) ;;
  modify (set_sessionRef None).

(** Every handle the component holds is null. *)
Definition handles_released (st : State) : Prop :=
  inputContextRef st = None /\ outputContextRef st = None /\
  processorRef st = None /\ inputSourceRef st = None /\
  screenStreamRef st = None /\ screenIntervalRef st = None /\
  sessionRef st = None.

(** *** startSession *)

(** Up to [await navigator.mediaDevices.getUserMedia]: the result says
    whether the function goes on. *)
Definition startSession_begin (apiKey : bool) : M bool :=
  if negb apiKey then mret false
  else modify (set_isConnecting true) ;; mret true.

(** The microphone stream the platform hands over when [getUserMedia]
    resolves: its track is live from then on. *)
Definition getUserMedia_settled (got : result MediaStream) : M unit :=
  match got with
  | Ok stream => modify (fun st => set_liveTracks ({[ stream ]} ∪ liveTracks st) st)
  | Throw _ => mret tt
  end.

(** From the resumption after [await] to the end of the function.  The
    two contexts and the session promise are what the constructors and
    [ai.live.connect] return. *)
Definition startSession_resume (got : result MediaStream)
    (newInput newOutput : result AudioContext) (sessionPromise : Session) : M unit :=
  try_catch
    (stream ← lift got;
     inputCtx ← lift newInput;
     modify (set_inputContextRef (Some inputCtx)) ;;
     outputCtx ← lift newOutput;
     modify (set_outputContextRef (Some outputCtx)) ;;
     modify (set_nextStartTimeRef (currentTime outputCtx)) ;;
     modify (set_inputSourceRef (Some {| mediaStream := stream |})) ;;
     modify (set_processorRef (Some {| bufferSize := 4096 |})) ;;
     modify (set_sessionRef (Some sessionPromise)))
    (fun _ => stopSession).

(** *** The callbacks of the live session *)

Definition onopen : M unit :=
  modify (set_isActive true) ;;
  modify (set_isConnecting false).

(** What [onmessage] reads of a [LiveServerMessage]:
    [serverContent?.modelTurn?.parts?.[0]?.inlineData?.data] and
    [serverContent?.interrupted]. *)
Record LiveServerMessage : Type := {
  inlineData : option string;
  interrupted : bool
}.

(** The first block of [onmessage], [// Handle Audio Output]: the schedule
    call of the gapless scheduler. *)
Definition schedule_playback (message : LiveServerMessage) : M unit :=
  let base64Audio := inlineData message in
  output ← get outputContextRef;
  when (truthy base64Audio && is_some output)
    (ctx ← deref output;
     audioData ← lift (base64Decode (default EmptyString base64Audio));
     audioBuffer ← lift (pcmToAudioBuffer audioData ctx 24000 1);
     (* Schedule playback *)
     source ← createBufferSource audioBuffer;
     let now := currentTime ctx in
     next ← get nextStartTimeRef;
     when (Qltb next now) (modify (set_nextStartTimeRef now)) ;;
     next ← get nextStartTimeRef;
     source_start source next ;;
     next ← get nextStartTimeRef;
     modify (set_nextStartTimeRef (next + duration audioBuffer)%Q) ;;
     active ← get activeSourcesRef;
     modify (set_activeSourcesRef ({[ source ]} ∪ active))).

(** The second block, [// Handle Interruption]. *)
Definition handle_interruption (message : LiveServerMessage) : M unit :=
  when (interrupted message)
    (active ← get activeSourcesRef;
     forEach (elements active) source_stop ;;
     modify (set_activeSourcesRef ∅) ;;
     output ← get outputContextRef;
     when (is_some output)
       (ctx ← deref output;
        modify (set_nextStartTimeRef (currentTime ctx)))).

Definition onmessage (message : LiveServerMessage) : M unit :=
  schedule_playback message ;;
  handle_interruption message.

(** [source.onended = () => activeSourcesRef.current.delete(source)] *)
Definition onended (source : nat) : M unit :=
  active ← get activeSourcesRef;
  modify (set_activeSourcesRef (active ∖ {[ source ]})).

Definition onclose : M unit := stopSession.
Definition onerror : M unit := stopSession.

(** *** startScreenShare *)

Definition startScreenShare_begin (supported : bool) : M bool :=
  active ← get isActive;
  if negb active then mret false
  else if negb supported then mret false
  else modify (set_isSharingLoading true) ;; mret true.

Definition getDisplayMedia_settled (got : result MediaStream) : M unit :=
  getUserMedia_settled got.

Definition startScreenShare_resume (got : result MediaStream) (timer : nat) : M unit :=
  try_catch
    (stream ← lift got;
     modify (set_screenStreamRef (Some stream)) ;;
     video ← get videoRef;
     when (is_some video)
       (_ ← deref video;
        modify (set_videoRef (Some {| srcObject := Some stream |}))) ;;
     modify (set_isScreenSharing true) ;;
     modify (fun st => set_timers ({[ timer ]} ∪ timers st) st) ;;
     modify (set_screenIntervalRef (Some timer)))
    (fun _ => stopScreenShare) ;;
  modify (set_isSharingLoading false).

(** The output and input clocks advance by [n/d] seconds. *)
Definition advance (dt : Q) (ctx : AudioContext) : AudioContext :=
  {| currentTime := (currentTime ctx + dt)%Q |}.

Definition tick (n : N) (d : positive) : M unit :=
  let dt := (Z.of_N n # d)%Q in
  modify (fun st =>
    set_inputContextRef (advance dt <$> inputContextRef st)
      (set_outputContextRef (advance dt <$> outputContextRef st) st)).

(** *** The event loop *)

Inductive Event : Type :=
| EvStartSession (apiKey : bool)
| EvUserMedia (got : result MediaStream)
    (newInput newOutput : result AudioContext) (sessionPromise : Session)
| EvStopSession                     (* the button, or the unmount *)
| EvOpen
| EvMessage (message : LiveServerMessage)
| EvClose
| EvError
| EvEnded (source : nat)
| EvStartScreenShare (supported : bool)
| EvDisplayMedia (got : result MediaStream) (timer : nat)
| EvStopScreenShare                 (* the button, or the shared track ending *)
| EvTick (n : N) (d : positive).

Definition handle (e : Event) : M unit :=
  match e with
  | EvStartSession apiKey => _ ← startSession_begin apiKey; mret tt
  | EvUserMedia got newInput newOutput sessionPromise =>
      getUserMedia_settled got ;;
      startSession_resume got newInput newOutput sessionPromise
  | EvStopSession => stopSession
  | EvOpen => onopen
  | EvMessage message => onmessage message
  | EvClose => onclose
  | EvError => onerror
  | EvEnded source => onended source
  | EvStartScreenShare supported => _ ← startScreenShare_begin supported; mret tt
  | EvDisplayMedia got timer =>
      getDisplayMedia_settled got ;;
      startScreenShare_resume got timer
  | EvStopScreenShare => stopScreenShare
  | EvTick n d => tick n d
  end.

(** One turn of the event loop; an exception that escapes a handler
    leaves the refs as the handler had them. *)
Definition step (st : State) (e : Event) : State := snd (handle e st).

Definition run (es : list Event) (st : State) : State := fold_left step es st.

Definition reachable (st : State) : Prop := exists es, st = run es initial.

(** The playback handles of the gapless scheduler are the nodes of the
    active set; every one of them has been started. *)
Definition active_started (st : State) : Prop :=
  forall s, s ∈ activeSourcesRef st -> started_in (graph st) s.



(** An event that is no schedule call, no interruption and no session
    start or stop. *)
Definition quiet (e : Event) : bool :=
  match e with
  | EvOpen | EvEnded _ | EvTick _ _ => true
  | EvMessage m => negb (truthy (inlineData m)) && negb (interrupted m)
  | _ => false
  end.

(** *** Scenarios *)

(** A session started on fresh contexts, microphone stream 7, and open. *)
Definition scenario_ctx : AudioContext := {| currentTime := 0 |}.

Definition scenario_started : list Event :=
  [EvStartSession true;
   EvUserMedia (Ok 7) (Ok scenario_ctx) (Ok scenario_ctx) 1;
   EvOpen].

(** An audio message of three frames, and its decoding. *)
Definition scenario_chunk : LiveServerMessage :=
  {| inlineData := Some "AAD/fwCA"%string; interrupted := false |}.

Definition scenario_data : Uint8Array :=
  Uint8Array_of_bytes [x00; x00; xff; x7f; x00; x80].

Definition scenario_buffer : AudioBuffer :=
  {| numberOfChannels := 1;
     frames := 3;
     sampleRate := 24000;
     channelData := [[0 # 32768; 32767 # 32768; -32768 # 32768]%Q] |}.


(** *** toggleSession *)

(** The button: [if (isActive || isConnecting) stopSession() else
    startSession()], the latter up to its [await]. *)
Definition toggleSession (apiKey : bool) : M bool :=
  active ← get isActive;
  connecting ← get isConnecting;
  if active || connecting then stopSession ;; mret false
  else startSession_begin apiKey.

End LiveTutor.

(** ** services/ttsService.ts *)
Module TtsService.
Import AudioUtils.

(** The three module variables, the audio graph of the lazily created
    context, and the synthesis requests sent so far (playback id, text). *)
Record State : Type := {
  audioContext : option AudioContext;
  currentSource : option nat;
  currentPlaybackId : nat;
  graph : AudioGraph;
  requests : list (nat * string)
}.

Definition set_audioContext (v : option AudioContext) (st : State) : State :=
  {| audioContext := v;
     currentSource := currentSource st;
     currentPlaybackId := currentPlaybackId st;
     graph := graph st;
     requests := requests st |}.

Definition set_currentSource (v : option nat) (st : State) : State :=
  {| audioContext := audioContext st;
     currentSource := v;
     currentPlaybackId := currentPlaybackId st;
     graph := graph st;
     requests := requests st |}.

Definition set_currentPlaybackId (v : nat) (st : State) : State :=
  {| audioContext := audioContext st;
     currentSource := currentSource st;
     currentPlaybackId := v;
     graph := graph st;
     requests := requests st |}.

Definition set_graph (v : AudioGraph) (st : State) : State :=
  {| audioContext := audioContext st;
     currentSource := currentSource st;
     currentPlaybackId := currentPlaybackId st;
     graph := v;
     requests := requests st |}.

Definition set_requests (v : list (nat * string)) (st : State) : State :=
  {| audioContext := audioContext st;
     currentSource := currentSource st;
     currentPlaybackId := currentPlaybackId st;
     graph := graph st;
     requests := v |}.

Definition initial : State :=
  {| audioContext := None; currentSource := None; currentPlaybackId := 0;
     graph := empty_graph; requests := [] |}.

Definition M : Type -> Type := Eff State.

Definition createBufferSource (audioBuffer : AudioBuffer) : M nat :=
  on_graph graph set_graph (fun g => let (id, g') := graph_create audioBuffer g in (Ok id, g')).

Definition source_start (source : nat) (time : Q) : M unit :=
  on_graph graph set_graph (graph_start source time).

Definition source_stop (source : nat) : M unit :=
  on_graph graph set_graph (graph_stop source).

Definition disconnect (source : nat) : M unit := mret tt.

(** utils/apiKey.ts: the stored key if there is one, else the key of the
    environment, else [undefined]. *)
Definition getApiKey (stored env : option string) : option string :=
  if truthy stored then stored
  else if truthy env then env
  else None.

(** [getAudioContext]: the context is created on first use; [fresh] is
    what the constructor returns. *)
Definition getAudioContext (fresh : result AudioContext) : M AudioContext :=
  ctx ← get audioContext;
  when (negb (is_some ctx))
    (c ← lift fresh;
     modify (set_audioContext (Some c))) ;;
  ctx ← get audioContext;
  deref ctx.

(** *** stopTTS *)
Definition stopTTS : M unit :=
  id ← get currentPlaybackId;
  modify (set_currentPlaybackId (S id)) ;;
  cur ← get currentSource;
  when (is_some cur)
    (try_catch
       (source ← deref cur;
        source_stop source ;;
        disconnect source)
       (fun _ => mret tt) ;;
     modify (set_currentSource None)).

(** *** playTTS *)

(** How far a call of [playTTS] has come: its promise is resolved, or it
    waits for the synthesis response, or it waits for its source to end. *)
Inductive Progress : Type :=
| Resolved (completed : bool)
| Awaiting (myPlaybackId : nat)
| Playing (myPlaybackId : nat) (source : nat).

(** Up to [await ai.models.generateContent]. *)
Definition playTTS_begin (stored env : option string) (text : string) : M Progress :=
  let apiKey := getApiKey stored env in
  if negb (truthy apiKey) then mret (Resolved true)
  else if negb (truthy (Some text)) then mret (Resolved true)
  else
    (* 1. Setup new playback ID *)
    id ← get currentPlaybackId;
    modify (set_currentPlaybackId (S id)) ;;
    myPlaybackId ← get currentPlaybackId;
    (* Stop any physically playing audio immediately *)
    cur ← get currentSource;
    when (is_some cur)
      (try_catch (source ← deref cur; source_stop source) (fun _ => mret tt) ;;
       modify (set_currentSource None)) ;;
    (* 2. Async Network Request *)
    sent ← get requests;
    modify (set_requests (sent ++ [(myPlaybackId, text)])) ;;
    mret (Awaiting myPlaybackId).

(** [// 3. Audio Decoding]: the context, the bytes, the buffer. *)
Definition decode_response (fresh : result AudioContext) (base64Audio : option string)
  : M AudioBuffer :=
  ctx ← getAudioContext fresh;
  audioData ← lift (base64Decode (default EmptyString base64Audio));
  lift (pcmToAudioBuffer audioData ctx 24000 1).

(** The executor of [new Promise]: the source is created, made the current
    one and started; the promise stays pending until [onended]. *)
Definition start_playback (myPlaybackId : nat) (audioBuffer : AudioBuffer) : M Progress :=
  source ← createBufferSource audioBuffer;
  modify (set_currentSource (Some source)) ;;
  source_start source 0 ;;
  mret (Playing myPlaybackId source).

(** From the resumption after [await] on.  [settled] is the settled
    response promise, reduced to
    [candidates?.[0]?.content?.parts?.[0]?.inlineData?.data]; a rejection
    is a [Throw].  The body of [try] either returns or reaches the
    [new Promise], whose executor runs outside of what [catch] covers. *)
Definition playTTS_resume (myPlaybackId : nat) (settled : result (option string))
    (fresh : result AudioContext) : M Progress :=
  r ← try_catch
        (base64Audio ← lift settled;
         (* CHECK: Has a new request started while we were fetching? *)
         current ← get currentPlaybackId;
         if negb (myPlaybackId =? current) then mret (inl (Resolved false))
         else if negb (truthy base64Audio) then mret (inl (Resolved true))
         else
           audioBuffer ← decode_response fresh base64Audio;
           (* CHECK: Has a new request started while we were decoding? *)
           current ← get currentPlaybackId;
           if negb (myPlaybackId =? current) then mret (inl (Resolved false))
           else mret (inr audioBuffer))
        (fun _ =>
           current ← get currentPlaybackId;
           if myPlaybackId =? current then mret (inl (Resolved true))
           else mret (inl (Resolved false)));
  match r with
  | inl progress => mret progress
  | inr audioBuffer => start_playback myPlaybackId audioBuffer
  end.

(** [source.onended]: the value the promise resolves to. *)
Definition onended (myPlaybackId : nat) : M Progress :=
  current ← get currentPlaybackId;
  if current =? myPlaybackId then
    modify (set_currentSource None) ;;
    mret (Resolved true)
  else mret (Resolved false).

(** *** The event loop *)

Inductive Event : Type :=
| EvPlay (stored env : option string) (text : string)
| EvStop
| EvResponse (myPlaybackId : nat) (settled : result (option string))
    (fresh : result AudioContext)
| EvEnded (myPlaybackId : nat).

Definition handle (e : Event) : M (option Progress) :=
  match e with
  | EvPlay stored env text => p ← playTTS_begin stored env text; mret (Some p)
  | EvStop => stopTTS ;; mret None
  | EvResponse myPlaybackId settled fresh =>
      p ← playTTS_resume myPlaybackId settled fresh; mret (Some p)
  | EvEnded myPlaybackId => p ← onended myPlaybackId; mret (Some p)
  end.

Definition step (st : State) (e : Event) : State := snd (handle e st).

Definition run (es : list Event) (st : State) : State := fold_left step es st.

(** An event that issues no request and no stop command, and that is not
    a continuation of the request [my]. *)
Definition quiet (my : nat) (e : Event) : bool :=
  match e with
  | EvPlay stored env text =>
      negb (truthy (getApiKey stored env)) || negb (truthy (Some text))
  | EvStop => false
  | EvResponse id _ _ => negb (id =? my)
  | EvEnded id => negb (id =? my)
  end.

(** *** Scenario *)

Definition scenario_key : option string := Some "key"%string.

(** A synthesis response of two frames. *)
Definition scenario_audio : string := "AAD/fw=="%string.

Definition reachable (st : State) : Prop := exists es, st = run es initial.

End TtsService.

(** ** utils/apiKey.ts *)
Module ApiKey.

Definition STORAGE_KEY : string := "omni_code_gemini_key".

(** [getApiKey] on the local storage of the page and the key of the
    environment ([None] when [process] or the variable is missing):
    [TtsService.getApiKey] on what [localStorage.getItem] returns. *)
Definition getApiKey (localStorage : gmap string string) (env : option string)
  : option string :=
  TtsService.getApiKey (localStorage !! STORAGE_KEY) env.

Definition hasApiKey (localStorage : gmap string string) (env : option string) : bool :=
  truthy (getApiKey localStorage env).

Definition setStoredApiKey (key : string) (localStorage : gmap string string)
  : gmap string string :=
  <[ STORAGE_KEY := key ]> localStorage.

Definition removeStoredApiKey (localStorage : gmap string string) : gmap string string :=
  delete STORAGE_KEY localStorage.

End ApiKey.

(** ** App.tsx: the step controls and the playback loop *)
Module App.

(** A step of the trace, reduced to what the playback reads. *)
Record TraceStep : Type := {
  line : Z;
  explanation : option string
}.

(** The values a run of the playback effect has captured. *)
Record State : Type := {
  trace : option (list TraceStep);
  currentStepIndex : Z;
  isPlaying : bool;
  breakpoints : list Z;
  playbackTrigger : nat
}.

Definition set_currentStepIndex (v : Z) (st : State) : State :=
  {| trace := trace st;
     currentStepIndex := v;
     isPlaying := isPlaying st;
     breakpoints := breakpoints st;
     playbackTrigger := playbackTrigger st |}.

Definition set_isPlaying (v : bool) (st : State) : State :=
  {| trace := trace st;
     currentStepIndex := currentStepIndex st;
     isPlaying := v;
     breakpoints := breakpoints st;
     playbackTrigger := playbackTrigger st |}.

Definition set_breakpoints (v : list Z) (st : State) : State :=
  {| trace := trace st;
     currentStepIndex := currentStepIndex st;
     isPlaying := isPlaying st;
     breakpoints := v;
     playbackTrigger := playbackTrigger st |}.

Definition set_playbackTrigger (v : nat) (st : State) : State :=
  {| trace := trace st;
     currentStepIndex := currentStepIndex st;
     isPlaying := isPlaying st;
     breakpoints := breakpoints st;
     playbackTrigger := v |}.

(** [array.includes(x)] on numbers *)
Definition includes (l : list Z) (x : Z) : bool := existsb (Z.eqb x) l.

(** [array[i]]: [undefined] outside of the array. *)
Definition at_index {A} (l : list A) (i : Z) : option A :=
  if (i <? 0)%Z then None else l !! Z.to_nat i.

(** [handleToggleBreakpoint] *)
Definition handleToggleBreakpoint (line : Z) (st : State) : State :=
  let prev := breakpoints st in
  set_breakpoints
    (if includes prev line
     then List.filter (fun l => negb (l =? line)%Z) prev
     else prev ++ [line])
    st.

(** The index [onStepForward] and [onStepBack] set:
    [Math.min((trace?.steps.length || 1) - 1, prev + 1)] and
    [Math.max(0, prev - 1)]. *)
Definition steps_length (st : State) : Z :=
  match trace st with
  | Some steps => Z.of_nat (List.length steps)
  | None => 0
  end.

Definition onStepForward (st : State) : State :=
  let len := if (steps_length st =? 0)%Z then 1%Z else steps_length st in
  set_currentStepIndex (Z.min (len - 1) (currentStepIndex st + 1)) st.

Definition onStepBack (st : State) : State :=
  set_currentStepIndex (Z.max 0 (currentStepIndex st - 1)) st.

(** [handleStop] and [handlePause], without their call of [stopTTS]. *)
Definition handleStop (st : State) : State :=
  set_currentStepIndex 0 (set_isPlaying false st).

Definition handlePause (st : State) : State := set_isPlaying false st.

(** The callback of the timer of the standard mode.  Reading [.line] of a
    step that is not there throws. *)
Definition standard_tick (st : State) : result State :=
  match trace st with
  | None => Ok (set_isPlaying false st)
  | Some steps =>
      if (Z.of_nat (List.length steps) - 1 <=? currentStepIndex st)%Z
      then Ok (set_isPlaying false st)
      else
        let nextIndex := (currentStepIndex st + 1)%Z in
        match at_index steps nextIndex with
        | None => Throw TypeError
        | Some nextStep =>
            if includes (breakpoints st) (line nextStep)
            then Ok (set_isPlaying false (set_currentStepIndex nextIndex st))
            else Ok (set_playbackTrigger (S (playbackTrigger st))
                       (set_currentStepIndex nextIndex st))
        end
  end.

(** [`Executing Line ${line}`] *)
Definition executing_line (n : Z) : string :=
  String.append "Executing Line " (DecimalString.NilZero.string_of_int (Z.to_int n)).

(** [run] of the narrator mode up to [await playTTS(text)]: the new state
    and, when the narration is reached, its text. *)
Definition narrator_run (st : State) : result (State * option string) :=
  match trace st with
  | None => Ok (set_isPlaying false st, None)
  | Some steps =>
      if (Z.of_nat (List.length steps) - 1 <=? currentStepIndex st)%Z
      then Ok (set_isPlaying false st, None)
      else
        let nextIndex := (currentStepIndex st + 1)%Z in
        match at_index steps nextIndex with
        | None => Throw TypeError
        | Some nextStep =>
            if includes (breakpoints st) (line nextStep)
            then Ok (set_isPlaying false (set_currentStepIndex nextIndex st), None)
            else
              let text :=
                if truthy (explanation nextStep)
                then default EmptyString (explanation nextStep)
                else executing_line (line nextStep) in
              Ok (set_currentStepIndex nextIndex st, Some text)
        end
  end.

(** After [await playTTS(text)] and the gap of one second: the next round
    is triggered when the narration completed and the playback is still
    on. *)
Definition narrator_done (completed : bool) (st : State) : State :=
  if completed && isPlaying st
  then set_playbackTrigger (S (playbackTrigger st)) st
  else st.

(** The standard mode left to itself: a tick after every trigger, as long
    as the playback is on. *)
Fixpoint play (rounds : nat) (st : State) : result State :=
  match rounds with
  | O => Ok st
  | S rounds' =>
      if isPlaying st
      then st' ← standard_tick st; play rounds' st'
      else Ok st
  end.

End App.

(** * Properties *)

(** ** The PCM codec and the playback buffer builder *)
Section AudioUtilsFacts.
Import AudioUtils.
Local Open Scope Z_scope.

Lemma byte_val_of_Z (z : Z) : byte_val (byte_of_Z z) = z mod 256.
Proof.
  unfold byte_val, byte_of_Z.
  assert (Hr : 0 <= z mod 256 < 256) by (apply Z.mod_pos_bound; lia).
  destruct (Byte.of_N (Z.to_N (z mod 256))) as [b|] eqn:E.
  - apply Byte.to_of_N in E. rewrite E. lia.
  - apply Byte.of_N_None_iff in E. lia.
Qed.

Lemma signed16_id (v : Z) : -32768 <= v <= 32767 -> signed16 v = v.
Proof.
  intros Hv. unfold signed16.
  destruct (Z_lt_le_dec v 0) as [Hneg|Hpos].
  - replace (v mod 65536) with (v + 65536).
    + destruct (32768 <=? v + 65536) eqn:E; [lia | apply Z.leb_gt in E; lia].
    + apply Z.mod_unique with (q := -1); lia.
  - rewrite Z.mod_small by lia.
    destruct (32768 <=? v) eqn:E; [apply Z.leb_le in E; lia | reflexivity].
Qed.

Lemma int16_word_roundtrip (v : Z) :
  -32768 <= v <= 32767 ->
  signed16 (byte_val (byte_of_Z v) + 256 * byte_val (byte_of_Z (v / 256))) = v.
Proof.
  intros Hv. rewrite !byte_val_of_Z.
  unfold signed16.
  assert (Hw : (v mod 256 + 256 * ((v / 256) mod 256)) mod 65536 = v mod 65536).
  { pose proof (Z.div_mod v 256 ltac:(lia)) as H1.
    pose proof (Z.div_mod (v / 256) 256 ltac:(lia)) as H2.
    pose proof (Z.mod_pos_bound v 256 ltac:(lia)) as B1.
    pose proof (Z.mod_pos_bound (v / 256) 256 ltac:(lia)) as B2.
    rewrite Z.mod_small by lia.
    apply Z.mod_unique with (q := v / 256 / 256); lia. }
  rewrite Hw. apply signed16_id. exact Hv.
Qed.

(** The bytes of an [Int16Array] read back through an [Int16Array] view. *)
Lemma int16_view_bytes (xs : list Z) :
  Forall (fun v => -32768 <= v <= 32767) xs ->
  int16_view (int16_bytes xs) = xs.
Proof.
  induction 1 as [|v xs Hv _ IH]; [reflexivity|].
  cbn [int16_bytes flat_map app int16_view].
  fold (int16_bytes xs). rewrite IH, int16_word_roundtrip by exact Hv. reflexivity.
Qed.

Lemma int16_bytes_length (xs : list Z) :
  List.length (int16_bytes xs) = (2 * List.length xs)%nat.
Proof.
  induction xs as [|v xs IH]; [reflexivity|].
  cbn [int16_bytes flat_map app List.length]. fold (int16_bytes xs). lia.
Qed.

Lemma int16_view_length (bs : list byte) :
  List.length (int16_view bs) = (List.length bs / 2)%nat.
Proof.
  assert (H : forall n (l : list byte), (List.length l < n)%nat ->
            List.length (int16_view l) = (List.length l / 2)%nat).
  { induction n as [|n IH]; intros l Hl; [lia|].
    destruct l as [|b0 [|b1 rest]]; try reflexivity.
    cbn [int16_view List.length]. rewrite IH by (cbn [List.length] in Hl; lia).
    change (Datatypes.S (Datatypes.S (List.length rest))) with (2 + List.length rest)%nat.
    replace (2 + List.length rest)%nat with (List.length rest + 1 * 2)%nat by lia.
    rewrite Nat.div_add by lia. lia. }
  apply (H (Datatypes.S (List.length bs))). lia.
Qed.

(** An array built by [base64Decode] owns its whole buffer. *)
Lemma base64Decode_owns_buffer (base64 : string) (data : Uint8Array) :
  base64Decode base64 = Ok data ->
  byteOffset data = 0%nat /\ byteLength data = List.length (buffer data).
Proof.
  unfold base64Decode. destruct (atob base64) as [bs|e]; cbn; [|discriminate].
  intros [= <-]. split; reflexivity.
Qed.

(** *** Quantization *)

Lemma quot_nonneg (q : Q) :
  (0 <= q)%Q ->
  (inject_Z (Qnum q ÷ Z.pos (Qden q)) <= q)%Q /\
  (q < inject_Z (Qnum q ÷ Z.pos (Qden q)) + 1)%Q.
Proof.
  destruct q as [n d]. unfold Qle, Qlt. cbn [Qnum Qden inject_Z Qplus].
  intros Hq. rewrite Z.mul_1_r in Hq.
  pose proof (Z.quot_rem' n (Z.pos d)) as E.
  pose proof (Z.rem_bound_pos n (Z.pos d) ltac:(lia) ltac:(lia)) as B.
  split; nia.
Qed.

Lemma quot_nonpos (q : Q) :
  (q <= 0)%Q ->
  (q <= inject_Z (Qnum q ÷ Z.pos (Qden q)))%Q /\
  (inject_Z (Qnum q ÷ Z.pos (Qden q)) - 1 < q)%Q.
Proof.
  destruct q as [n d]. unfold Qle, Qlt, Qminus. cbn [Qnum Qden inject_Z Qplus Qopp].
  intros Hq. rewrite Z.mul_1_r in Hq.
  pose proof (Z.quot_rem' n (Z.pos d)) as E.
  pose proof (Z.rem_bound_pos_neg n (Z.pos d) ltac:(lia) ltac:(lia)) as B.
  split; nia.
Qed.

Lemma inject_Z_le_inv (a b : Z) : (inject_Z a <= inject_Z b)%Q -> a <= b.
Proof. intros H. rewrite Zle_Qle. exact H. Qed.

Lemma inject_Z_lt_inv (a b : Z) : (inject_Z a < inject_Z b)%Q -> a < b.
Proof. intros H. rewrite Zlt_Qlt. exact H. Qed.

(** The clamp leaves a sample of [-1, 1] as it is. *)
Lemma clamp_in_range (x : Q) :
  (-1 <= x <= 1)%Q -> (Qmax (-1) (Qmin 1 x) == x)%Q.
Proof.
  intros [Hlo Hhi].
  rewrite (Q.min_r 1 x) by exact Hhi.
  apply Q.max_r. exact Hlo.
Qed.

(** The number stored for a sample below zero, and for one at or above. *)
Lemma encode_sample_neg (x : Q) :
  (-1 <= x < 0)%Q ->
  let v := encode_sample x in
  -32768 <= v <= 0 /\ (x * 32768 <= inject_Z v)%Q /\ (inject_Z v - 1 < x * 32768)%Q.
Proof.
  intros [Hlo Hneg] v. subst v. unfold encode_sample.
  pose proof (clamp_in_range x ltac:(split; lra)) as Ec.
  remember (Qmax (-1) (Qmin 1 x)) as s eqn:Es. clear Es.
  assert (Hs : (s ?= 0)%Q = Lt) by (rewrite <- Qlt_alt; lra).
  rewrite Hs. unfold ToInt16.
  destruct (quot_nonpos (s * 32768)%Q ltac:(lra)) as [H1 H2].
  remember (Qnum (s * 32768)%Q ÷ Z.pos (Qden (s * 32768)%Q)) as t eqn:Et. clear Et.
  assert (Ht : -32768 <= t <= 0).
  { split.
    - apply inject_Z_le_inv. change (inject_Z (-32768)) with (-32768)%Q. lra.
    - assert (t < 1); [|lia]. apply inject_Z_lt_inv. change (inject_Z 1) with 1%Q. lra. }
  rewrite signed16_id by lia.
  repeat split; try lia; lra.
Qed.

Lemma encode_sample_nonneg (x : Q) :
  (0 <= x <= 1)%Q ->
  let v := encode_sample x in
  0 <= v <= 32767 /\ (inject_Z v <= x * 32767)%Q /\ (x * 32767 < inject_Z v + 1)%Q.
Proof.
  intros [Hlo Hhi] v. subst v. unfold encode_sample.
  pose proof (clamp_in_range x ltac:(split; lra)) as Ec.
  remember (Qmax (-1) (Qmin 1 x)) as s eqn:Es. clear Es.
  assert (Hs : (s ?= 0)%Q <> Lt) by (rewrite <- Qlt_alt; lra).
  assert (E : match (s ?= 0)%Q with Lt => (s * 32768)%Q | _ => (s * 32767)%Q end
              = (s * 32767)%Q) by (destruct (s ?= 0)%Q; congruence).
  rewrite E. unfold ToInt16.
  destruct (quot_nonneg (s * 32767)%Q ltac:(lra)) as [H1 H2].
  remember (Qnum (s * 32767)%Q ÷ Z.pos (Qden (s * 32767)%Q)) as t eqn:Et. clear Et.
  assert (Ht : 0 <= t <= 32767).
  { split.
    - assert (-1 < t); [|lia]. apply inject_Z_lt_inv. change (inject_Z (-1)) with (-1)%Q. lra.
    - apply inject_Z_le_inv. change (inject_Z 32767) with 32767%Q. lra. }
  rewrite signed16_id by lia.
  repeat split; try lia; lra.
Qed.

Lemma encode_sample_int16 (x : Q) :
  (-1 <= x <= 1)%Q -> -32768 <= encode_sample x <= 32767.
Proof.
  intros [Hlo Hhi]. destruct (Qlt_le_dec x 0) as [Hn|Hp].
  - pose proof (encode_sample_neg x ltac:(split; lra)) as H. cbv zeta in H. lia.
  - pose proof (encode_sample_nonneg x ltac:(split; lra)) as H. cbv zeta in H. lia.
Qed.

(** One sample through the encoder and the decoder: the result is below
    the sample by less than 2/32768 when the sample is positive, above it
    by less than 1/32768 when it is negative. *)
Lemma sample_roundtrip (x : Q) :
  (-1 <= x <= 1)%Q ->
  (Qabs (decode_sample (encode_sample x) - x) < 2 / 32768)%Q /\
  (x <= 0 -> Qabs (decode_sample (encode_sample x) - x) < 1 / 32768)%Q.
Proof.
  intros [Hlo Hhi]. unfold decode_sample.
  destruct (Qlt_le_dec x 0) as [Hn|Hp].
  - pose proof (encode_sample_neg x ltac:(split; lra)) as (_ & H1 & H2).
    cbv zeta in H1, H2.
    remember (inject_Z (encode_sample x)) as v eqn:Ev. clear Ev.
    assert (Qabs (v / 32768 - x) < 1 / 32768)%Q.
    { apply Qabs_Qlt_condition. unfold Qdiv.
      change (/ 32768)%Q with (1 # 32768)%Q. split; lra. }
    split; [|intros _; assumption].
    eapply Qlt_trans; [eassumption|reflexivity].
  - pose proof (encode_sample_nonneg x ltac:(split; lra)) as (_ & H1 & H2).
    cbv zeta in H1, H2.
    remember (inject_Z (encode_sample x)) as v eqn:Ev. clear Ev.
    split.
    + apply Qabs_Qlt_condition. unfold Qdiv.
      change (/ 32768)%Q with (1 # 32768)%Q. split; lra.
    + intros Hx. assert (E : (x == 0)%Q) by lra.
      apply Qabs_Qlt_condition. unfold Qdiv.
      change (/ 32768)%Q with (1 # 32768)%Q. split; lra.
Qed.

(** *** The playback buffer builder *)

Lemma frameCount_floor (n ch : nat) :
  Z.to_nat (Qfloor (inject_Z (Z.of_nat n) / inject_Z (Z.of_nat ch))) = (n / ch)%nat.
Proof. rewrite <- Zdiv_Qdiv, <- Nat2Z.inj_div. apply Nat2Z.id. Qed.

Lemma frameCount_mono (n : nat) :
  Z.to_nat (Qceiling (inject_Z (Z.of_nat n) / inject_Z (Z.of_nat 1))) = n.
Proof.
  rewrite (Qceiling_comp _ (inject_Z (Z.of_nat n))).
  - rewrite Qceiling_Z. apply Nat2Z.id.
  - change (inject_Z (Z.of_nat 1)) with 1%Q. field.
Qed.

Lemma createBuffer_empty (ctx : AudioContext) (ch : nat) (len rate : Q) :
  Z.to_nat (Qfloor len) = 0%nat ->
  createBuffer ctx ch len rate = Throw NotSupportedError.
Proof.
  intros H. unfold createBuffer. rewrite H. cbn [Nat.eqb].
  rewrite !orb_true_r. reflexivity.
Qed.

Lemma createBuffer_ok (ctx : AudioContext) (ch : nat) (len rate : Q) :
  (1 <= ch <= 32)%nat -> (8000 <= rate <= 96000)%Q ->
  Z.to_nat (Qfloor len) <> 0%nat ->
  createBuffer ctx ch len rate =
    Ok {| numberOfChannels := ch;
          frames := Z.to_nat (Qfloor len);
          sampleRate := rate;
          channelData := replicate ch (replicate (Z.to_nat (Qfloor len)) 0%Q) |}.
Proof.
  intros [Hc1 Hc2] [Hr1 Hr2] Hlen. unfold createBuffer.
  assert (E1 : (ch =? 0)%nat = false) by (apply Nat.eqb_neq; lia).
  assert (E2 : (32 <? ch)%nat = false) by (apply Nat.ltb_ge; lia).
  assert (E3 : (Z.to_nat (Qfloor len) =? 0)%nat = false) by (apply Nat.eqb_neq; lia).
  assert (E4 : Qle_bool 8000 rate = true) by (apply Qle_bool_iff; exact Hr1).
  assert (E5 : Qle_bool rate 96000 = true) by (apply Qle_bool_iff; exact Hr2).
  rewrite E1, E2, E3, E4, E5. reflexivity.
Qed.

Lemma fill_channel_length (xs : list Z) (ch c k : nat) (cd : list Q) :
  List.length (fill_channel xs ch c k cd) = List.length cd.
Proof.
  unfold fill_channel. generalize (seq 0 k) as idxs. intros idxs. revert cd.
  induction idxs as [|i idxs IH]; intros cd; [reflexivity|].
  cbn [fold_left]. rewrite IH.
  destruct (xs !! (i * ch + c)%nat); [apply length_insert | reflexivity].
Qed.

(** A load past the end of the samples goes with a store past the end of
    the channel. *)
Lemma fill_load_in_range (xs : list Z) (ch c i : nat) (v : Q) (cd : list Q) :
  (c < ch)%nat -> List.length cd = (List.length xs / ch)%nat ->
  xs !! (i * ch + c)%nat = None ->
  <[ i := v ]> cd = cd.
Proof.
  intros Hc Hlen Hnone. apply list_insert_ge.
  apply lookup_ge_None in Hnone. rewrite Hlen.
  assert (List.length xs / ch < Datatypes.S i)%nat; [|lia].
  apply Nat.Div0.div_lt_upper_bound. nia.
Qed.

Lemma half_nonzero (n : nat) :
  Nat.even n = true -> n <> 0%nat -> (n / 2 <> 0)%nat.
Proof.
  intros He Hn. destruct n as [|[|m]]; [congruence | discriminate |].
  replace (Datatypes.S (Datatypes.S m)) with (m + 1 * 2)%nat by lia.
  rewrite Nat.div_add by lia. lia.
Qed.

Lemma fill_channel_mono_prefix (xs : list Z) (k : nat) :
  (k <= List.length xs)%nat ->
  fill_channel xs 1 0 k (replicate (List.length xs) 0%Q) =
    map decode_sample (take k xs) ++ replicate (List.length xs - k) 0%Q.
Proof.
  induction k as [|k IH]; intros Hk.
  - cbn. rewrite Nat.sub_0_r. reflexivity.
  - unfold fill_channel in *. rewrite seq_S, fold_left_app. cbn [fold_left Nat.add].
    rewrite IH by lia.
    replace (k * 1 + 0)%nat with k by lia.
    destruct (lookup_lt_is_Some_2 xs k ltac:(lia)) as [v Hv]. rewrite Hv.
    rewrite (take_S_r _ _ _ Hv), map_app. cbn [map].
    assert (Hl : List.length (map decode_sample (take k xs)) = k)
      by (rewrite length_map, length_take; lia).
    rewrite insert_app_r_alt by lia. rewrite Hl, Nat.sub_diag.
    replace (List.length xs - k)%nat with (Datatypes.S (List.length xs - Datatypes.S k)) by lia.
    cbn. rewrite <- app_assoc. reflexivity.
Qed.

Lemma fill_channel_mono (xs : list Z) :
  fill_channel xs 1 0 (List.length xs) (replicate (List.length xs) 0%Q) = map decode_sample xs.
Proof.
  rewrite fill_channel_mono_prefix by lia.
  rewrite firstn_all, Nat.sub_diag. apply app_nil_r.
Qed.

(** The one-channel call every caller makes, on a buffer of even and
    non-zero byte length: the samples of the view, divided by 32768. *)
Lemma pcmToAudioBuffer_mono (data : Uint8Array) (ctx : AudioContext) (rate : Q) :
  Nat.even (List.length (buffer data)) = true ->
  List.length (buffer data) <> 0%nat ->
  (8000 <= rate <= 96000)%Q ->
  pcmToAudioBuffer data ctx rate 1 =
    Ok {| numberOfChannels := 1;
          frames := (List.length (buffer data) / 2)%nat;
          sampleRate := rate;
          channelData := [map decode_sample (int16_view (buffer data))] |}.
Proof.
  intros Heven Hne Hrate. unfold pcmToAudioBuffer, new_Int16Array.
  rewrite Heven. cbn [mbind result_bind bind_result].
  assert (Hn : (List.length (int16_view (buffer data)) <> 0)%nat).
  { rewrite int16_view_length. apply half_nonzero; assumption. }
  rewrite createBuffer_ok; [| lia | exact Hrate | rewrite frameCount_floor, Nat.div_1_r; exact Hn].
  cbn [mbind result_bind bind_result numberOfChannels frames AudioUtils.sampleRate channelData].
  rewrite frameCount_floor, Nat.div_1_r, frameCount_mono.
  cbn [replicate imap]. rewrite fill_channel_mono, int16_view_length. reflexivity.
Qed.

(** C7 (as amended).  The builder reads the whole [ArrayBuffer] under its
    argument.  When the byte length of that buffer is odd, it fails with
    the [RangeError] of the [Int16Array] constructor.  When it is even,
    with 1 to 32 channels and a supported rate, it fails with
    [NotSupportedError] if the frame count [byteLength / 2 / channels]
    (integer division) is zero, as for an empty input, and otherwise
    returns a buffer of that many frames on each channel. *)
Theorem pcmToAudioBuffer_byte_length (data : Uint8Array) (ctx : AudioContext)
    (rate : Q) (ch : nat) :
  (Nat.even (List.length (buffer data)) = false ->
   pcmToAudioBuffer data ctx rate ch = Throw RangeError) /\
  (Nat.even (List.length (buffer data)) = true ->
   (1 <= ch <= 32)%nat -> (8000 <= rate <= 96000)%Q ->
   let n := (List.length (buffer data) / 2 / ch)%nat in
   (n = 0%nat -> pcmToAudioBuffer data ctx rate ch = Throw NotSupportedError) /\
   (n <> 0%nat ->
    exists b, pcmToAudioBuffer data ctx rate ch = Ok b /\
              frames b = n /\ numberOfChannels b = ch /\
              List.length (channelData b) = ch /\
              Forall (fun c => List.length c = n) (channelData b))).
Proof.
  split.
  - intros Hodd. unfold pcmToAudioBuffer, new_Int16Array. rewrite Hodd. reflexivity.
  - intros Heven Hch Hrate n. unfold pcmToAudioBuffer, new_Int16Array.
    rewrite Heven. cbn [mbind result_bind bind_result].
    assert (Hfl : Z.to_nat (Qfloor (inject_Z (Z.of_nat (List.length (int16_view (buffer data))))
                                   / inject_Z (Z.of_nat ch))) = n).
    { rewrite frameCount_floor, int16_view_length. reflexivity. }
    split; intros Hn.
    + rewrite createBuffer_empty by lia. reflexivity.
    + rewrite createBuffer_ok by (try assumption; lia).
      cbn [mbind result_bind bind_result numberOfChannels frames AudioUtils.sampleRate channelData].
      eexists. split; [reflexivity|].
      cbn [numberOfChannels frames channelData]. rewrite Hfl.
      repeat split.
      * rewrite length_imap. apply length_replicate.
      * apply list.Forall_forall. intros c Hc.
        apply elem_of_lookup_imap in Hc as (i & cd & -> & Hcd).
        rewrite fill_channel_length.
        apply lookup_replicate_1 in Hcd as [-> _]. apply length_replicate.
Qed.

Lemma createBuffer_inv (ctx : AudioContext) (ch : nat) (len rate : Q) (b : AudioBuffer) :
  createBuffer ctx ch len rate = Ok b ->
  frames b <> 0%nat /\ (8000 <= AudioUtils.sampleRate b)%Q.
Proof.
  unfold createBuffer.
  destruct (Z.to_nat (Qfloor len)) as [|k] eqn:Ek.
  - cbn [Nat.eqb]. rewrite !orb_true_r. discriminate.
  - destruct (Qle_bool 8000 rate) eqn:E4.
    + destruct (_ || _ || _ || _ || _)%bool; [discriminate|].
      intros [= <-]. cbn. split; [lia | apply Qle_bool_iff; exact E4].
    + cbn [negb]. rewrite orb_true_r. cbn [orb]. discriminate.
Qed.

(** A buffer the builder returns lasts a positive time. *)
Lemma pcmToAudioBuffer_duration (data : Uint8Array) (ctx : AudioContext)
    (rate : Q) (ch : nat) (b : AudioBuffer) :
  pcmToAudioBuffer data ctx rate ch = Ok b -> (0 < duration b)%Q.
Proof.
  unfold pcmToAudioBuffer.
  destruct (new_Int16Array (buffer data)) as [xs|e]; cbn [mbind result_bind bind_result];
    [|discriminate].
  destruct (createBuffer ctx ch _ rate) as [b0|e] eqn:E; cbn [mbind result_bind bind_result];
    [|discriminate].
  apply createBuffer_inv in E as [Hf Hr].
  intros [= <-]. unfold duration. cbn [frames AudioUtils.sampleRate].
  apply Qlt_shift_div_l; [lra|].
  rewrite Qmult_0_l. change 0%Q with (inject_Z 0). rewrite <- Zlt_Qlt. lia.
Qed.

Lemma pcmToAudioBuffer_byte_length_witness :
  pcmToAudioBuffer (Uint8Array_of_bytes [x01; x00; xff]) {| currentTime := 0 |} 24000 1
    = Throw RangeError /\
  pcmToAudioBuffer (Uint8Array_of_bytes []) {| currentTime := 0 |} 24000 1
    = Throw NotSupportedError /\
  exists b,
    pcmToAudioBuffer (Uint8Array_of_bytes [x01; x00; xff; x7f]) {| currentTime := 0 |} 24000 1
      = Ok b /\
    frames b = 2%nat /\ numberOfChannels b = 1%nat /\
    List.length (channelData b) = 1%nat /\
    Forall (fun c => List.length c = 2%nat) (channelData b).
Proof.
  split; [|split].
  - apply (proj1 (pcmToAudioBuffer_byte_length
                    (Uint8Array_of_bytes [x01; x00; xff]) {| currentTime := 0 |} 24000 1)).
    reflexivity.
  - apply (proj2 (pcmToAudioBuffer_byte_length
                    (Uint8Array_of_bytes []) {| currentTime := 0 |} 24000 1)).
    + reflexivity.
    + lia.
    + split; unfold Qle; simpl; lia.
    + reflexivity.
  - apply (proj2 (pcmToAudioBuffer_byte_length
                    (Uint8Array_of_bytes [x01; x00; xff; x7f]) {| currentTime := 0 |} 24000 1)).
    + reflexivity.
    + lia.
    + split; unfold Qle; simpl; lia.
    + discriminate.
Defined.

(** C7, as stated, fails twice.  An empty input has a byte length that is
    a multiple of 2 and the builder fails on it; an array of one byte laid
    over a buffer of two has an odd byte length and the builder accepts
    it. *)
Lemma pcmToAudioBuffer_as_stated_fails :
  let ctx := {| currentTime := 0 |} in
  let empty := Uint8Array_of_bytes [] in
  let view := {| buffer := [x01; x00]; byteOffset := 0; byteLength := 1 |} in
  (Nat.even (byteLength empty) = true /\
   pcmToAudioBuffer empty ctx 24000 1 = Throw NotSupportedError) /\
  (Nat.even (byteLength view) = false /\
   exists b, pcmToAudioBuffer view ctx 24000 1 = Ok b /\ frames b = 1%nat).
Proof.
  cbv zeta. repeat split.
  eexists. split; [vm_compute; reflexivity | reflexivity].
Qed.

Lemma float32ToInt16_range (samples : list Q) :
  Forall (fun x => (-1 <= x <= 1)%Q) samples ->
  Forall (fun v => -32768 <= v <= 32767) (float32ToInt16 samples).
Proof.
  induction 1 as [|x xs Hx _ IH]; constructor; [apply encode_sample_int16; exact Hx | exact IH].
Qed.

(** C8 (as amended).  Samples of [-1, 1], encoded by [float32ToInt16],
    laid out as bytes and decoded by [pcmToAudioBuffer]: the builder
    succeeds and each decoded sample is within less than 2/32768 of the
    original, and within less than 1/32768 when the original is not
    positive. *)
Theorem pcm_roundtrip_error (samples : list Q) (ctx : AudioContext) :
  samples <> [] ->
  Forall (fun x => (-1 <= x <= 1)%Q) samples ->
  exists decoded,
    pcmToAudioBuffer (Uint8Array_of_bytes (int16_bytes (float32ToInt16 samples))) ctx 24000 1
      = Ok {| numberOfChannels := 1;
              frames := List.length samples;
              sampleRate := 24000;
              channelData := [decoded] |} /\
    Forall2 (fun x y => (Qabs (y - x) < 2 / 32768)%Q /\
                        ((x <= 0)%Q -> (Qabs (y - x) < 1 / 32768)%Q))
            samples decoded.
Proof.
  intros Hne Hrange.
  exists (map decode_sample (float32ToInt16 samples)). split.
  - rewrite pcmToAudioBuffer_mono; cbn [buffer Uint8Array_of_bytes].
    + rewrite int16_view_bytes by (apply float32ToInt16_range; exact Hrange).
      rewrite int16_bytes_length. unfold float32ToInt16 at 1. rewrite length_map.
      replace (2 * List.length samples)%nat with (List.length samples * 2)%nat by lia.
      rewrite Nat.div_mul by lia. reflexivity.
    + rewrite int16_bytes_length. apply Nat.even_spec. eexists. reflexivity.
    + rewrite int16_bytes_length. unfold float32ToInt16. rewrite length_map.
      destruct samples; [congruence | cbn [List.length]; lia].
    + split; unfold Qle; simpl; lia.
  - clear Hne. induction Hrange as [|x xs Hx _ IH]; cbn [float32ToInt16 map]; constructor.
    + apply sample_roundtrip. exact Hx.
    + exact IH.
Qed.

Lemma pcm_roundtrip_error_witness :
  exists decoded,
    pcmToAudioBuffer
      (Uint8Array_of_bytes (int16_bytes (float32ToInt16 [ (65535 # 65536)%Q; (-1 # 3)%Q ])))
      {| currentTime := 0 |} 24000 1
      = Ok {| numberOfChannels := 1;
              frames := 2;
              sampleRate := 24000;
              channelData := [decoded] |} /\
    Forall2 (fun x y => (Qabs (y - x) < 2 / 32768)%Q /\
                        ((x <= 0)%Q -> (Qabs (y - x) < 1 / 32768)%Q))
            [ (65535 # 65536)%Q; (-1 # 3)%Q ] decoded.
Proof.
  apply (pcm_roundtrip_error [ (65535 # 65536)%Q; (-1 # 3)%Q ] {| currentTime := 0 |}).
  - discriminate.
  - repeat constructor; unfold Qle; simpl; lia.
Defined.

(** C8, as stated, fails: 65535/65536 lies in [-1, 1] and is a value of a
    [Float32Array]; it encodes to 32766 and decodes to 32766/32768, which
    is 1.5/32768 away. *)
Lemma pcm_roundtrip_as_stated_fails :
  let x := (65535 # 65536)%Q in
  (-1 <= x <= 1)%Q /\
  encode_sample x = 32766 /\
  ~ (Qabs (decode_sample (encode_sample x) - x) <= 1 / 32768)%Q.
Proof.
  cbv zeta. split; [|split].
  - split; unfold Qle; simpl; lia.
  - vm_compute. reflexivity.
  - intros H. apply H. vm_compute. reflexivity.
Qed.

End AudioUtilsFacts.

(** ** Handlers and the audio graph *)

Ltac eff_unfold :=
  repeat progress
    (unfold mbind, mret, Eff_bind, Eff_ret, eff_bind, eff_ret,
            get, modify, lift, throw, when, deref, try_catch, on_graph in *).

Lemma bind_ok {S A B} (m : Eff S A) (k : A -> Eff S B) (st st' : S) (a : A) :
  m st = (Ok a, st') -> (m ≫= k) st = k a st'.
Proof. intros H. unfold mbind, Eff_bind, eff_bind. rewrite H. reflexivity. Qed.

Lemma graph_stop_started (g : AudioGraph) (s : nat) :
  started_in g s ->
  exists g', graph_stop s g = (Ok tt, g') /\
             stopped_in g' s /\
             (forall s', started_in g s' -> started_in g' s') /\
             (forall s', stopped_in g s' -> stopped_in g' s').
Proof.
  intros (n & Hn & Hs). unfold graph_stop. rewrite Hn.
  destruct (startedAt n) as [t|] eqn:Et; [|discriminate].
  eexists. split; [reflexivity|]. unfold started_in, stopped_in. cbn [nodes].
  repeat split.
  - eexists. rewrite lookup_insert_eq. split; reflexivity.
  - intros s' (n' & Hn' & Hs').
    destruct (decide (s = s')) as [<-|Hne].
    + eexists. rewrite lookup_insert_eq. split; reflexivity.
    + exists n'. rewrite lookup_insert_ne by exact Hne. split; assumption.
  - intros s' (n' & Hn' & Hs').
    destruct (decide (s = s')) as [<-|Hne].
    + eexists. rewrite lookup_insert_eq. split; reflexivity.
    + exists n'. rewrite lookup_insert_ne by exact Hne. split; assumption.
Qed.

(** ** The live tutor: scheduler, barge-in, session lifecycle *)
Section LiveTutorFacts.
Import AudioUtils LiveTutor.

Lemma set_graph_same (st : State) : set_graph (graph st) st = st.
Proof. destruct st; reflexivity. Qed.

(** Stopping every node of a list, each stop under its own [try]: nothing
    escapes, and only the audio graph changes. *)
Lemma forEach_guarded_stop (l : list nat) (st : State) :
  exists g,
    forEach l (fun source => try_catch (source_stop source) (fun _ => mret tt)) st
      = (Ok tt, set_graph g st).
Proof.
  revert st. induction l as [|s l IH]; intros st.
  - exists (graph st). cbn. rewrite set_graph_same. reflexivity.
  - cbn [forEach]. unfold eff_bind at 1.
    assert (Hs : exists g, try_catch (source_stop s) (fun _ => mret tt) st
                           = (Ok tt, set_graph g st)).
    { unfold try_catch, source_stop, on_graph, graph_stop.
      destruct (nodes (graph st) !! s) as [n|]; [destruct (startedAt n)|];
        eexists; cbn; try reflexivity; rewrite set_graph_same; reflexivity. }
    destruct Hs as [g Hs]. rewrite Hs.
    destruct (IH (set_graph g st)) as [g' Hg']. rewrite Hg'.
    exists g'. reflexivity.
Qed.

Lemma release_noop {A} (ref : State -> option A) (clear : State -> State)
    (dispose : A -> M unit) (st : State) :
  (forall x s, dispose x s = (Ok tt, s)) ->
  (ref st = None -> clear st = st) ->
  release ref clear dispose st = (Ok tt, clear st).
Proof.
  intros Hd Hnone. unfold release. eff_unfold.
  destruct (ref st) eqn:E; cbn; [rewrite Hd; reflexivity|].
  rewrite Hnone; reflexivity.
Qed.

Ltac case_refs st :=
  destruct st as [? ? ? ? inC outC inS proc next act video scrS scrI sess g live tms];
  cbn [isActive isConnecting isScreenSharing isSharingLoading inputContextRef
       outputContextRef inputSourceRef processorRef nextStartTimeRef activeSourcesRef
       videoRef screenStreamRef screenIntervalRef sessionRef graph liveTracks timers] in *.

(** [stopScreenShare] does not throw; it clears the two screen refs,
    stops the shared track and the sampling timer, and touches nothing of
    the audio side. *)
Lemma stopScreenShare_ok (st : State) :
  exists st1,
    stopScreenShare st = (Ok tt, st1) /\
    screenStreamRef st1 = None /\ screenIntervalRef st1 = None /\
    isScreenSharing st1 = false /\
    (forall s, screenStreamRef st = Some s -> s ∉ liveTracks st1) /\
    (forall t, screenIntervalRef st = Some t -> t ∉ timers st1) /\
    liveTracks st1 ⊆ liveTracks st /\
    (forall s, screenStreamRef st <> Some s -> s ∈ liveTracks st -> s ∈ liveTracks st1) /\
    isActive st1 = isActive st /\ isConnecting st1 = isConnecting st /\
    inputContextRef st1 = inputContextRef st /\
    outputContextRef st1 = outputContextRef st /\
    inputSourceRef st1 = inputSourceRef st /\
    processorRef st1 = processorRef st /\
    nextStartTimeRef st1 = nextStartTimeRef st /\
    activeSourcesRef st1 = activeSourcesRef st /\
    sessionRef st1 = sessionRef st /\
    graph st1 = graph st.
Proof.
  case_refs st.
  destruct scrI, scrS, video; eexists; (split; [reflexivity|]); cbn;
    repeat split; try congruence; intros;
    rewrite ?elem_of_subseteq, ?elem_of_difference, ?elem_of_singleton;
    try (intros ? H'; apply elem_of_difference in H'; apply H');
    intuition congruence.
Qed.

Ltac same_state st := destruct st; cbn; intros ->; reflexivity.

(** [stopSession] does not throw, whatever the refs hold; afterwards every
    handle is null, nothing is scheduled, and the session is idle.  It
    leaves [nextStartTimeRef] and the media tracks other than the shared
    screen as they were. *)
Lemma stopSession_ok (st : State) :
  exists st',
    stopSession st = (Ok tt, st') /\
    handles_released st' /\
    activeSourcesRef st' = ∅ /\
    isActive st' = false /\ isConnecting st' = false /\
    isScreenSharing st' = false /\
    nextStartTimeRef st' = nextStartTimeRef st /\
    (forall s, screenStreamRef st <> Some s -> s ∈ liveTracks st -> s ∈ liveTracks st').
Proof.
  destruct (stopScreenShare_ok st)
    as (st1 & H1 & Hs & Hi & Hsh & _ & _ & _ & Hlive & _ & _ & _ & _ & _ & _ & Hnext & Hact & _ & _).
  unfold stopSession.
  rewrite (bind_ok _ _ _ _ _ H1).
  erewrite bind_ok; [| apply release_noop; [reflexivity | same_state st1]].
  erewrite bind_ok; [| apply release_noop; [reflexivity | same_state st1]].
  erewrite bind_ok; [| apply release_noop; [reflexivity | same_state st1]].
  erewrite bind_ok; [| apply release_noop; [reflexivity | same_state st1]].
  erewrite bind_ok; [| reflexivity].
  match goal with
  | |- context [forEach ?l ?f] =>
      match goal with
      | |- exists st', (_ ≫= _) ?s = _ /\ _ => destruct (forEach_guarded_stop l s) as [g Hg]
      end
  end.
  erewrite bind_ok; [| exact Hg].
  eexists. split; [reflexivity|].
  unfold handles_released. cbn. repeat split; assumption.
Qed.

(** C6.  [stopSession] called from any state of the refs, and called
    again right after, throws neither time; after each call the audio
    contexts, the processor, the input source, the screen stream, the
    screen timer and the session reference are null.  In particular so
    when it is called while [startSession] still awaits the microphone. *)
Theorem stopSession_twice (st : State) :
  exists st1 st2,
    stopSession st = (Ok tt, st1) /\ handles_released st1 /\
    stopSession st1 = (Ok tt, st2) /\ handles_released st2 /\
    (exists st0, stopSession (run [EvStartSession true] initial) = (Ok tt, st0) /\
                 handles_released st0).
Proof.
  destruct (stopSession_ok st) as (st1 & H1 & R1 & _).
  destruct (stopSession_ok st1) as (st2 & H2 & R2 & _).
  destruct (stopSession_ok (run [EvStartSession true] initial)) as (st0 & H0 & R0 & _).
  exists st1, st2. repeat split; try assumption; try apply R1; try apply R2.
  exists st0. split; assumption.
Qed.

(** *** The schedule call *)

Lemma Qmax_code (next now : Q) :
  Qmax next now = if Qltb next now then now else next.
Proof. unfold Qmax, GenericMinMax.gmax, Qltb. destruct (next ?= now)%Q; reflexivity. Qed.

(** The schedule call on a message that carries a decodable audio payload,
    on a component that has an output context. *)
Lemma schedule_playback_ok (st : State) (ctx : AudioContext) (message : LiveServerMessage)
    (data : Uint8Array) (audioBuffer : AudioBuffer) :
  outputContextRef st = Some ctx ->
  truthy (inlineData message) = true ->
  base64Decode (default EmptyString (inlineData message)) = Ok data ->
  pcmToAudioBuffer data ctx 24000 1 = Ok audioBuffer ->
  let start := Qmax (nextStartTimeRef st) (currentTime ctx) in
  let source := nextNode (graph st) in
  exists st',
    schedule_playback message st = (Ok tt, st') /\
    nodes (graph st') !! source =
      Some {| node_buffer := audioBuffer; startedAt := Some start; stopped := false |} /\
    (forall s, s <> source -> nodes (graph st') !! s = nodes (graph st) !! s) /\
    nextNode (graph st') = Datatypes.S source /\
    activeSourcesRef st' = {[ source ]} ∪ activeSourcesRef st /\
    nextStartTimeRef st' = (start + duration audioBuffer)%Q /\
    outputContextRef st' = Some ctx.
Proof.
  intros Hout Htruthy Hdata Hbuf start source.
  unfold schedule_playback. eff_unfold. rewrite Hout, Htruthy. cbn [andb is_some].
  rewrite Hdata. cbv beta iota. rewrite Hbuf. cbv beta iota.
  unfold createBufferSource, source_start. eff_unfold.
  cbn. subst start source. rewrite Qmax_code.
  destruct (Qltb (nextStartTimeRef st) (currentTime ctx)); cbn;
    unfold graph_start; cbn; rewrite lookup_insert_eq; cbn;
    (eexists; split; [reflexivity|]); cbn;
    (repeat split; try assumption; try reflexivity);
    try (apply lookup_insert_eq);
    intros s Hs; rewrite !lookup_insert_ne by congruence; reflexivity.
Qed.

(** In every other case the schedule call leaves the state as it is: no
    payload, no output context, or a payload that does not decode (the
    exception then escapes before anything was written). *)
Lemma schedule_playback_skip (st : State) (message : LiveServerMessage) :
  (truthy (inlineData message) = false \/ outputContextRef st = None \/
   (exists ctx, outputContextRef st = Some ctx /\
      is_ok (data ← base64Decode (default EmptyString (inlineData message));
             pcmToAudioBuffer data ctx 24000 1) = false)) ->
  exists r, schedule_playback message st = (r, st) /\
            (is_ok r = false ->
             exists ctx, truthy (inlineData message) = true /\
                         outputContextRef st = Some ctx).
Proof.
  intros H. unfold schedule_playback. eff_unfold.
  destruct (truthy (inlineData message)) eqn:Et;
    destruct (outputContextRef st) as [ctx|] eqn:Eo; cbn [andb is_some];
    try (eexists; split; [reflexivity | cbn; discriminate]).
  destruct H as [H | [H | (ctx' & Hc & H)]]; try discriminate.
  injection Hc as <-.
  destruct (base64Decode (default EmptyString (inlineData message))) as [data|e]; cbn in H |- *.
  - destruct (pcmToAudioBuffer data ctx 24000 1); [discriminate|].
    eexists; split; [reflexivity | intros _; eauto].
  - eexists; split; [reflexivity | intros _; eauto].
Qed.

(** *** The interruption *)

(** Stopping every node of a list of started nodes, with no [try] around
    the stops: nothing is thrown and every node of the list is stopped. *)
Lemma forEach_stop_started (l : list nat) (st : State) :
  (forall s, s ∈ l -> started_in (graph st) s) ->
  exists g,
    forEach l source_stop st = (Ok tt, set_graph g st) /\
    (forall s, s ∈ l -> stopped_in g s) /\
    (forall s, stopped_in (graph st) s -> stopped_in g s).
Proof.
  revert st. induction l as [|s l IH]; intros st Hl.
  - exists (graph st). cbn. rewrite set_graph_same.
    split; [reflexivity|]. split; [intros s Hs; inversion Hs | auto].
  - destruct (graph_stop_started (graph st) s) as (g1 & Hg1 & Hst1 & Hkeep & Hkeep').
    { apply Hl. left. }
    destruct (IH (set_graph g1 st)) as (g & Hg & Hall & Hold).
    { intros s' Hs'. cbn. apply Hkeep, Hl. right. exact Hs'. }
    exists g. cbn [forEach]. unfold eff_bind at 1.
    unfold source_stop at 1, on_graph. rewrite Hg1, Hg.
    split; [reflexivity|]. split.
    + intros s' Hs'. apply elem_of_cons in Hs' as [->|Hs']; [|auto].
      apply Hold. cbn. exact Hst1.
    + intros s' Hs'. apply Hold. cbn. apply Hkeep'. exact Hs'.
Qed.

Lemma handle_interruption_ok (st : State) (message : LiveServerMessage) :
  active_started st ->
  interrupted message = true ->
  exists st',
    handle_interruption message st = (Ok tt, st') /\
    activeSourcesRef st' = ∅ /\
    (forall s, s ∈ activeSourcesRef st -> stopped_in (graph st') s) /\
    (forall ctx, outputContextRef st = Some ctx -> nextStartTimeRef st' = currentTime ctx) /\
    (outputContextRef st = None -> nextStartTimeRef st' = nextStartTimeRef st) /\
    outputContextRef st' = outputContextRef st.
Proof.
  intros Hinv Hint. unfold handle_interruption. rewrite Hint. unfold when at 1.
  erewrite bind_ok; [| reflexivity].
  destruct (forEach_stop_started (elements (activeSourcesRef st)) st) as (g & Hg & Hall & _).
  { intros s Hs. apply elem_of_elements in Hs. apply Hinv. exact Hs. }
  erewrite bind_ok; [| exact Hg].
  eff_unfold. cbn.
  destruct (outputContextRef st) as [ctx|] eqn:Eo; cbn;
    (eexists; split; [reflexivity|]); cbn; rewrite ?Eo;
    (repeat split; try reflexivity; try congruence);
    intros s Hs; apply Hall, elem_of_elements; exact Hs.
Qed.

Lemma handle_interruption_skip (st : State) (message : LiveServerMessage) :
  interrupted message = false ->
  handle_interruption message st = (Ok tt, st).
Proof. intros H. unfold handle_interruption. rewrite H. reflexivity. Qed.

(** *** What each event does to the scheduler *)

Ltac use_stopSession :=
  match goal with
  | |- context [stopSession ?X] =>
      let st' := fresh "st'" in
      let H := fresh "Hstop" in
      let Hact := fresh "Hact" in
      let Hnext := fresh "Hnext" in
      destruct (stopSession_ok X) as (st' & H & _ & Hact & _ & _ & _ & Hnext & _);
      rewrite H
  end.

(** The resumption of [startSession]: either every constructor returned
    and the scheduler is set to the clock of the new output context, or
    the teardown ran. *)
Lemma step_userMedia (st : State) (got : result MediaStream)
    (newInput newOutput : result AudioContext) (sess : Session) :
  let st' := step st (EvUserMedia got newInput newOutput sess) in
  (exists stream inputCtx outputCtx,
      got = Ok stream /\ newInput = Ok inputCtx /\ newOutput = Ok outputCtx /\
      activeSourcesRef st' = activeSourcesRef st /\ graph st' = graph st /\
      outputContextRef st' = Some outputCtx /\
      nextStartTimeRef st' = currentTime outputCtx) \/
  (activeSourcesRef st' = ∅ /\ nextStartTimeRef st' = nextStartTimeRef st).
Proof.
  unfold step, handle, getUserMedia_settled, startSession_resume.
  destruct got as [stream|e1]; [destruct newInput as [ic|e2]; [destruct newOutput as [oc|e3]|]|].
  - left. exists stream, ic, oc. cbn. repeat split; reflexivity.
  - right. eff_unfold. cbn. use_stopSession. cbn. split; assumption.
  - right. eff_unfold. cbn. use_stopSession. cbn. split; assumption.
  - right. eff_unfold. cbn. use_stopSession. cbn. split; assumption.
Qed.

(** The schedule call either schedules or leaves the state alone. *)
Lemma schedule_playback_cases (st : State) (message : LiveServerMessage) :
  (exists ctx data audioBuffer st',
      outputContextRef st = Some ctx /\
      truthy (inlineData message) = true /\
      base64Decode (default EmptyString (inlineData message)) = Ok data /\
      pcmToAudioBuffer data ctx 24000 1 = Ok audioBuffer /\
      schedule_playback message st = (Ok tt, st') /\
      nodes (graph st') !! nextNode (graph st) =
        Some {| node_buffer := audioBuffer;
                startedAt := Some (Qmax (nextStartTimeRef st) (currentTime ctx));
                stopped := false |} /\
      (forall s, s <> nextNode (graph st) -> nodes (graph st') !! s = nodes (graph st) !! s) /\
      activeSourcesRef st' = {[ nextNode (graph st) ]} ∪ activeSourcesRef st /\
      nextStartTimeRef st' =
        (Qmax (nextStartTimeRef st) (currentTime ctx) + duration audioBuffer)%Q /\
      outputContextRef st' = Some ctx) \/
  (exists r, schedule_playback message st = (r, st)).
Proof.
  destruct (truthy (inlineData message)) eqn:Et.
  2:{ right. destruct (schedule_playback_skip st message) as (r & Hr & _); eauto. }
  destruct (outputContextRef st) as [ctx|] eqn:Eo.
  2:{ right. destruct (schedule_playback_skip st message) as (r & Hr & _); eauto. }
  destruct (base64Decode (default EmptyString (inlineData message))) as [data|e] eqn:Ed.
  2:{ right. destruct (schedule_playback_skip st message) as (r & Hr & _); eauto.
      right. right. exists ctx. rewrite Ed. split; [exact Eo | reflexivity]. }
  destruct (pcmToAudioBuffer data ctx 24000 1) as [buf|e] eqn:Eb.
  2:{ right. destruct (schedule_playback_skip st message) as (r & Hr & _); eauto.
      right. right. exists ctx. rewrite Ed. cbn. rewrite Eb. split; [exact Eo | reflexivity]. }
  left.
  destruct (schedule_playback_ok st ctx message data buf Eo Et Ed Eb)
    as (st' & H & Hnode & Hother & _ & Hact & Hnext & Hout).
  exists ctx, data, buf, st'. repeat split; assumption.
Qed.

(** The events that neither schedule, interrupt, end a node nor tear the
    session down leave the scheduler as it is. *)
Lemma step_frame (st : State) (e : Event) :
  match e with
  | EvStartSession _ | EvOpen | EvStartScreenShare _ | EvDisplayMedia _ _
  | EvStopScreenShare | EvTick _ _ => True
  | _ => False
  end ->
  activeSourcesRef (step st e) = activeSourcesRef st /\
  graph (step st e) = graph st /\
  nextStartTimeRef (step st e) = nextStartTimeRef st.
Proof.
  destruct e as [k| | | | | | | |sup|got timer| |n d]; try contradiction; intros _;
    unfold step, handle.
  - destruct k; cbn; repeat split; reflexivity.
  - cbn. repeat split; reflexivity.
  - unfold startScreenShare_begin. eff_unfold.
    destruct (isActive st), sup; cbn; repeat split; reflexivity.
  - unfold getDisplayMedia_settled, getUserMedia_settled, startScreenShare_resume.
    destruct got as [stream|err]; eff_unfold.
    + destruct (videoRef st) eqn:Ev; cbn; rewrite Ev; cbn; repeat split; reflexivity.
    + cbn.
      match goal with
      | |- context [stopScreenShare ?X] =>
          destruct (stopScreenShare_ok X)
            as (st1 & H1 & _ & _ & _ & _ & _ & _ & _ & _ & _ & _ & _ & _ & _ & Hn & Ha & _ & Hg);
          rewrite H1
      end.
      cbn. repeat split; assumption.
  - destruct (stopScreenShare_ok st)
      as (st1 & H1 & _ & _ & _ & _ & _ & _ & _ & _ & _ & _ & _ & _ & _ & Hn & Ha & _ & Hg).
    rewrite H1. cbn. repeat split; assumption.
  - cbn. repeat split; reflexivity.
Qed.

Lemma step_stop (st : State) (e : Event) :
  match e with
  | EvStopSession | EvClose | EvError => True
  | _ => False
  end ->
  activeSourcesRef (step st e) = ∅ /\
  nextStartTimeRef (step st e) = nextStartTimeRef st.
Proof.
  destruct e; try contradiction; intros _; unfold step, handle, onclose, onerror;
    use_stopSession; cbn; split; assumption.
Qed.

Lemma step_ended (st : State) (s : nat) :
  activeSourcesRef (step st (EvEnded s)) = activeSourcesRef st ∖ {[ s ]} /\
  graph (step st (EvEnded s)) = graph st /\
  nextStartTimeRef (step st (EvEnded s)) = nextStartTimeRef st.
Proof. cbn. repeat split; reflexivity. Qed.

(** *** Every playback handle of the active set has been started *)

Lemma onmessage_blocks (st : State) (message : LiveServerMessage) :
  onmessage message st =
    match schedule_playback message st with
    | (Ok _, st1) => handle_interruption message st1
    | (Throw e, st1) => (Throw e, st1)
    end.
Proof. reflexivity. Qed.





Lemma run_snoc (es : list Event) (e : Event) (st : State) :
  run (es ++ [e]) st = step (run es st) e.
Proof. unfold run. rewrite fold_left_app. reflexivity. Qed.



(** *** Gapless scheduling *)

Lemma quiet_step (st : State) (e : Event) :
  quiet e = true -> nextStartTimeRef (step st e) = nextStartTimeRef st.
Proof.
  destruct e as [| | | |m| | |s| | | |n d]; try discriminate; intros Hq.
  - apply (step_frame st EvOpen I).
  - cbn [quiet] in Hq. apply andb_prop in Hq as [Ht Hi].
    apply negb_true_iff in Ht, Hi.
    unfold step, handle. rewrite onmessage_blocks.
    destruct (schedule_playback_skip st m) as (r & Hr & _); [left; exact Ht|].
    rewrite Hr. destruct r; [|reflexivity].
    rewrite handle_interruption_skip by exact Hi. reflexivity.
  - apply (step_ended st s).
  - apply (step_frame st (EvTick n d) I).
Qed.

Lemma quiet_run (es : list Event) (st : State) :
  forallb quiet es = true -> nextStartTimeRef (run es st) = nextStartTimeRef st.
Proof.
  induction es as [|e es IH] using rev_ind; intros Hq; [reflexivity|].
  rewrite forallb_app in Hq. apply andb_prop in Hq as [Hes He].
  cbn in He. rewrite andb_true_r in He.
  rewrite run_snoc, quiet_step by exact He. apply IH. exact Hes.
Qed.

(** C1.  A schedule call with a decoded buffer starts the buffer at
    [max(nextStart, now)] and sets [nextStart] to that start plus the
    duration of the buffer.  Hence a buffer that arrives after [nextStart]
    has passed starts at the clock of the output context; and the buffer of
    the next schedule call, when it arrives before the end of this one and
    nothing but quiet events came in between, starts exactly at this start
    plus this duration. *)
Theorem schedule_gapless (st : State) (ctx : AudioContext) (message : LiveServerMessage)
    (data : Uint8Array) (audioBuffer : AudioBuffer) :
  outputContextRef st = Some ctx ->
  truthy (inlineData message) = true ->
  base64Decode (default EmptyString (inlineData message)) = Ok data ->
  pcmToAudioBuffer data ctx 24000 1 = Ok audioBuffer ->
  let start := Qmax (nextStartTimeRef st) (currentTime ctx) in
  exists st',
    schedule_playback message st = (Ok tt, st') /\
    (interrupted message = false -> onmessage message st = (Ok tt, st')) /\
    nodes (graph st') !! nextNode (graph st) =
      Some {| node_buffer := audioBuffer; startedAt := Some start; stopped := false |} /\
    nextNode (graph st) ∈ activeSourcesRef st' /\
    nextStartTimeRef st' = (start + duration audioBuffer)%Q /\
    ((nextStartTimeRef st < currentTime ctx)%Q -> start = currentTime ctx) /\
    (forall es ctx2 message2 data2 audioBuffer2,
        forallb quiet es = true ->
        outputContextRef (run es st') = Some ctx2 ->
        truthy (inlineData message2) = true ->
        base64Decode (default EmptyString (inlineData message2)) = Ok data2 ->
        pcmToAudioBuffer data2 ctx2 24000 1 = Ok audioBuffer2 ->
        (currentTime ctx2 <= start + duration audioBuffer)%Q ->
        exists st'',
          schedule_playback message2 (run es st') = (Ok tt, st'') /\
          nodes (graph st'') !! nextNode (graph (run es st')) =
            Some {| node_buffer := audioBuffer2;
                    startedAt := Some (start + duration audioBuffer)%Q;
                    stopped := false |}).
Proof.
  intros Hout Ht Hd Hb start.
  destruct (schedule_playback_ok st ctx message data audioBuffer Hout Ht Hd Hb)
    as (st' & H & Hnode & _ & _ & Hact & Hnext & _).
  exists st'. split; [exact H|]. split; [|split; [exact Hnode|split; [|split; [exact Hnext|split]]]].
  - intros Hi. rewrite onmessage_blocks, H. apply handle_interruption_skip. exact Hi.
  - rewrite Hact. apply elem_of_union_l, elem_of_singleton. reflexivity.
  - intros Hlate. subst start. rewrite Qmax_code. unfold Qltb.
    change ((nextStartTimeRef st ?= currentTime ctx)%Q = Lt) in Hlate.
    rewrite Hlate. reflexivity.
  - intros es ctx2 message2 data2 buf2 Hq Hout2 Ht2 Hd2 Hb2 Harrive.
    destruct (schedule_playback_ok (run es st') ctx2 message2 data2 buf2 Hout2 Ht2 Hd2 Hb2)
      as (st'' & H2 & Hnode2 & _).
    exists st''. split; [exact H2|].
    rewrite Hnode2. rewrite (quiet_run es st' Hq), Hnext.
    subst start. set (next := (Qmax _ _ + _)%Q) in *.
    rewrite Qmax_code. unfold Qltb.
    destruct (next ?= currentTime ctx2)%Q eqn:Ec; try reflexivity.
    change (next < currentTime ctx2)%Q in Ec.
    exfalso. apply (Qlt_irrefl next). eapply Qlt_le_trans; eassumption.
Qed.




(** *** Monotonicity of [nextStartTimeRef] *)



(** *** Scenarios *)

Lemma schedule_gapless_witness :
  exists st',
    schedule_playback scenario_chunk (run scenario_started initial) = (Ok tt, st') /\
    nextStartTimeRef st' = (Qmax 0 0 + duration scenario_buffer)%Q.
Proof.
  destruct (schedule_gapless (run scenario_started initial) scenario_ctx
              scenario_chunk scenario_data scenario_buffer)
    as (st' & H & _ & _ & _ & Hn & _).
  - reflexivity.
  - reflexivity.
  - vm_compute. reflexivity.
  - vm_compute. reflexivity.
  - exists st'. split; [exact H | exact Hn].
Defined.



(** Three chunks of three frames delivered with no interruption and faster
    than they play: they are started at t0, t0 + d and t0 + 2d. *)
Example three_chunks_back_to_back :
  let d := duration scenario_buffer in
  let st := run (scenario_started
                 ++ [EvMessage scenario_chunk; EvMessage scenario_chunk;
                     EvMessage scenario_chunk]) initial in
  (startedAt <$> nodes (graph st) !! 0) = Some (Some (Qmax 0 0)) /\
  (startedAt <$> nodes (graph st) !! 1) = Some (Some (Qmax 0 0 + d)%Q) /\
  (startedAt <$> nodes (graph st) !! 2) = Some (Some (Qmax 0 0 + d + d)%Q) /\
  elements (activeSourcesRef st) = [2; 1; 0].
Proof. cbv zeta. repeat split; vm_compute; reflexivity. Qed.


(** *** The microphone *)

(** No teardown stops a media track other than the shared screen. *)
Lemma teardown_keeps_tracks (st : State) (e : Event) (mic : MediaStream) :
  match e with
  | EvStopSession | EvClose | EvError => True
  | _ => False
  end ->
  screenStreamRef st <> Some mic ->
  mic ∈ liveTracks st ->
  mic ∈ liveTracks (step st e).
Proof.
  intros He Hscreen Hlive.
  destruct e; try contradiction; unfold step, handle, onclose, onerror;
    destruct (stopSession_ok st) as (st' & H & _ & _ & _ & _ & _ & _ & Hkeep);
    rewrite H; cbn [snd]; apply Hkeep; assumption.
Qed.

(** C9 fails on the code.  The microphone stream 7 is acquired when the
    session starts; after the stop button, after a remote close and after
    a session error, every handle is null and the session is idle, and the
    track of stream 7 is still live.  (Before [onopen] the capture nodes
    are already set up while the session is connecting.) *)
Theorem microphone_survives_teardown :
  let st := run scenario_started initial in
  let torn_down (e : Event) :=
    handles_released (step st e) /\
    isActive (step st e) = false /\
    isConnecting (step st e) = false /\
    elements (liveTracks (step st e)) = [7] in
  let connecting := run [EvStartSession true;
                         EvUserMedia (Ok 7) (Ok scenario_ctx) (Ok scenario_ctx) 1] initial in
  elements (liveTracks st) = [7] /\
  torn_down EvStopSession /\ torn_down EvClose /\ torn_down EvError /\
  isActive connecting = false /\ is_some (processorRef connecting) = true.
Proof.
  cbv zeta. unfold handles_released. repeat split; vm_compute; reflexivity.
Qed.

End LiveTutorFacts.

(** ** The narration sequencer *)
Section TtsServiceFacts.
Import AudioUtils TtsService.

Lemma tts_set_graph_same (st : State) : set_graph (graph st) st = st.
Proof. destruct st; reflexivity. Qed.

(** The context handed to the builder does not matter. *)
Lemma decode_audio_ctx (base64 : string) (c1 c2 : AudioContext) :
  decode_audio base64 c1 = decode_audio base64 c2.
Proof. reflexivity. Qed.

(** *** The first segment of [playTTS] *)

Lemma playTTS_begin_skip (st : State) (stored env : option string) (text : string) :
  truthy (getApiKey stored env) = false \/ text = EmptyString ->
  playTTS_begin stored env text st = (Ok (Resolved true), st).
Proof.
  intros H. unfold playTTS_begin.
  destruct (truthy (getApiKey stored env)); cbn [negb]; [|reflexivity].
  destruct H as [H | ->]; [discriminate | reflexivity].
Qed.

Lemma playTTS_begin_issue (st : State) (stored env : option string) (text : string) :
  truthy (getApiKey stored env) = true -> text <> EmptyString ->
  exists st',
    playTTS_begin stored env text st = (Ok (Awaiting (S (currentPlaybackId st))), st') /\
    currentPlaybackId st' = S (currentPlaybackId st) /\
    currentSource st' = None /\
    audioContext st' = audioContext st /\
    requests st' = requests st ++ [(S (currentPlaybackId st), text)] /\
    (forall s, currentSource st = Some s -> started_in (graph st) s ->
               stopped_in (graph st') s) /\
    (currentSource st = None -> graph st' = graph st).
Proof.
  intros Hkey Htext. unfold playTTS_begin. rewrite Hkey.
  assert (Ht : truthy (Some text) = true) by (destruct text; [congruence | reflexivity]).
  rewrite Ht. cbn [negb]. eff_unfold. cbn.
  destruct (currentSource st) as [s|] eqn:Es; cbn.
  - unfold source_stop. eff_unfold. cbn.
    destruct (graph_stop s (graph st)) as [r g] eqn:Eg.
    destruct r as [[]|e]; cbn;
      (eexists; split; [reflexivity|]); cbn; repeat split; try discriminate.
    + intros s' [= <-] Hs.
      destruct (graph_stop_started (graph st) s Hs) as (g' & Hg' & Hst & _).
      assert (g' = g) by congruence. subst g'. exact Hst.
    + intros s' [= <-] Hs.
      destruct (graph_stop_started (graph st) s Hs) as (g' & Hg' & Hst & _).
      congruence.
  - eexists; split; [reflexivity|]. cbn. repeat split; intros; (discriminate || assumption || reflexivity).
Qed.

(** *** The continuation of [playTTS] after the response *)

(** A request whose token is no longer the current one resolves false,
    whatever its response is, and changes nothing. *)
Lemma playTTS_resume_stale (st : State) (my : nat) (settled : result (option string))
    (fresh : result AudioContext) :
  my <> currentPlaybackId st ->
  playTTS_resume my settled fresh st = (Ok (Resolved false), st).
Proof.
  intros Hne. apply Nat.eqb_neq in Hne.
  unfold playTTS_resume. eff_unfold.
  destruct settled as [b|e]; cbn; rewrite Hne; reflexivity.
Qed.

(** Decoding writes at most the lazily created context.  It fails when
    the context cannot be created or the payload does not decode. *)
Lemma decode_response_cases (st : State) (fresh : result AudioContext)
    (base64Audio : option string) (ctx0 : AudioContext) :
  exists r st1,
    decode_response fresh base64Audio st = (r, st1) /\
    currentPlaybackId st1 = currentPlaybackId st /\
    currentSource st1 = currentSource st /\
    graph st1 = graph st /\
    requests st1 = requests st /\
    match r with
    | Ok audioBuffer =>
        decode_audio (default EmptyString base64Audio) ctx0 = Ok audioBuffer
    | Throw _ =>
        is_ok (decode_audio (default EmptyString base64Audio) ctx0) = false \/
        (audioContext st = None /\ is_ok fresh = false)
    end.
Proof.
  unfold decode_response, getAudioContext. eff_unfold.
  assert (Hd : forall c, decode_audio (default EmptyString base64Audio) ctx0
                         = (audioData ← base64Decode (default EmptyString base64Audio);
                            pcmToAudioBuffer audioData c 24000 1)) by reflexivity.
  destruct (audioContext st) as [c|] eqn:Ec; cbn.
  - rewrite Ec. cbn. rewrite (Hd c).
    destruct (base64Decode (default EmptyString base64Audio)) as [data|e]; cbn.
    + destruct (pcmToAudioBuffer data c 24000 1) as [buf|e]; cbn;
        do 2 eexists; (split; [reflexivity|]); repeat split; auto.
    + do 2 eexists; (split; [reflexivity|]); repeat split; auto.
  - destruct fresh as [c|e]; cbn.
    + rewrite (Hd c).
      destruct (base64Decode (default EmptyString base64Audio)) as [data|e]; cbn.
      * destruct (pcmToAudioBuffer data c 24000 1) as [buf|e]; cbn;
          do 2 eexists; (split; [reflexivity|]); repeat split; auto.
      * do 2 eexists; (split; [reflexivity|]); repeat split; auto.
    + do 2 eexists; (split; [reflexivity|]); repeat split; auto.
Qed.

Lemma start_playback_ok (st : State) (my : nat) (audioBuffer : AudioBuffer) :
  exists st',
    start_playback my audioBuffer st = (Ok (Playing my (nextNode (graph st))), st') /\
    currentPlaybackId st' = currentPlaybackId st /\
    currentSource st' = Some (nextNode (graph st)) /\
    requests st' = requests st /\
    nodes (graph st') !! nextNode (graph st) =
      Some {| node_buffer := audioBuffer; startedAt := Some 0%Q; stopped := false |}.
Proof.
  unfold start_playback, createBufferSource, source_start, graph_create. eff_unfold. cbn.
  unfold graph_start. cbn. rewrite lookup_insert_eq. cbn.
  eexists. split; [reflexivity|]. cbn. rewrite lookup_insert_eq.
  repeat split; reflexivity.
Qed.

(** The continuation of the current request, by what decoding gives. *)
Lemma playTTS_resume_current (st : State) (my : nat) (base64Audio : option string)
    (fresh : result AudioContext) :
  my = currentPlaybackId st ->
  truthy base64Audio = true ->
  playTTS_resume my (Ok base64Audio) fresh st =
    match decode_response fresh base64Audio st with
    | (Ok audioBuffer, st1) => start_playback my audioBuffer st1
    | (Throw _, st1) => (Ok (Resolved true), st1)
    end.
Proof.
  intros -> Ht.
  destruct (decode_response_cases st fresh base64Audio {| currentTime := 0 |})
    as (r & st1 & Hr & Hid & _).
  unfold playTTS_resume. eff_unfold. cbn.
  rewrite Nat.eqb_refl, Ht. cbn. rewrite Hr.
  destruct r as [buf|e]; rewrite Hid, Nat.eqb_refl; reflexivity.
Qed.

(** The current request on a failure: a rejected response, a context that
    cannot be created, a payload that does not decode. *)
Lemma playTTS_resume_failure (st : State) (my : nat) (settled : result (option string))
    (fresh : result AudioContext) (ctx0 : AudioContext) :
  my = currentPlaybackId st ->
  (match settled with
   | Throw _ => True
   | Ok base64Audio =>
       truthy base64Audio = true /\
       (is_ok (decode_audio (default EmptyString base64Audio) ctx0) = false \/
        (audioContext st = None /\ is_ok fresh = false))
   end) ->
  exists st',
    playTTS_resume my settled fresh st = (Ok (Resolved true), st') /\
    currentPlaybackId st' = currentPlaybackId st /\
    currentSource st' = currentSource st /\
    graph st' = graph st.
Proof.
  intros Hmy H. destruct settled as [b|e].
  - destruct H as [Ht H]. rewrite playTTS_resume_current by assumption.
    destruct (decode_response_cases st fresh b ctx0) as (r & st1 & Hr & Hid & Hsrc & Hg & _ & Hres).
    rewrite Hr. destruct r as [buf|e].
    + exfalso. destruct H as [H|[Hc Hf]].
      * rewrite Hres in H. discriminate.
      * unfold decode_response, getAudioContext in Hr. eff_unfold.
        rewrite Hc in Hr. cbn in Hr. destruct fresh; [discriminate|]. cbn in Hr. discriminate.
    + exists st1. repeat split; assumption.
  - subst my. unfold playTTS_resume. eff_unfold. cbn. rewrite Nat.eqb_refl.
    exists st. repeat split; reflexivity.
Qed.

(** The current request on an empty response: nothing to play. *)
Lemma playTTS_resume_empty (st : State) (my : nat) (base64Audio : option string)
    (fresh : result AudioContext) :
  my = currentPlaybackId st ->
  truthy base64Audio = false ->
  playTTS_resume my (Ok base64Audio) fresh st = (Ok (Resolved true), st).
Proof.
  intros -> Ht. unfold playTTS_resume. eff_unfold. cbn.
  rewrite Nat.eqb_refl, Ht. reflexivity.
Qed.

(** The current request on a response that decodes: its source is created,
    made the current source and started. *)
Lemma playTTS_resume_plays (st : State) (my : nat) (base64 : string)
    (fresh : result AudioContext) (ctx0 : AudioContext) (audioBuffer : AudioBuffer) :
  my = currentPlaybackId st ->
  truthy (Some base64) = true ->
  decode_audio base64 ctx0 = Ok audioBuffer ->
  (audioContext st = None -> is_ok fresh = true) ->
  exists st',
    playTTS_resume my (Ok (Some base64)) fresh st
      = (Ok (Playing my (nextNode (graph st))), st') /\
    currentPlaybackId st' = currentPlaybackId st /\
    currentSource st' = Some (nextNode (graph st)) /\
    nodes (graph st') !! nextNode (graph st) =
      Some {| node_buffer := audioBuffer; startedAt := Some 0%Q; stopped := false |}.
Proof.
  intros Hmy Ht Hd Hf. rewrite playTTS_resume_current by assumption.
  destruct (decode_response_cases st fresh (Some base64) ctx0)
    as (r & st1 & Hr & Hid & Hsrc & Hg & _ & Hres).
  rewrite Hr. destruct r as [buf|e].
  - change (decode_audio base64 ctx0 = Ok buf) in Hres.
    rewrite Hd in Hres. injection Hres as <-.
    destruct (start_playback_ok st1 my audioBuffer) as (st' & H & Hid' & Hsrc' & _ & Hnode).
    rewrite Hg in *. exists st'. repeat split; congruence.
  - exfalso. destruct Hres as [H|[Hc Hfr]].
    + change (is_ok (decode_audio base64 ctx0) = false) in H.
      rewrite Hd in H. discriminate.
    + rewrite (Hf Hc) in Hfr. discriminate.
Qed.

(** *** The token *)

Lemma onended_spec (st : State) (my : nat) :
  onended my st =
    if currentPlaybackId st =? my
    then (Ok (Resolved true), set_currentSource None st)
    else (Ok (Resolved false), st).
Proof.
  unfold onended. eff_unfold. destruct (currentPlaybackId st =? my); reflexivity.
Qed.

Lemma playTTS_resume_token (st : State) (my : nat) (settled : result (option string))
    (fresh : result AudioContext) :
  currentPlaybackId (snd (playTTS_resume my settled fresh st)) = currentPlaybackId st.
Proof.
  destruct (decide (my = currentPlaybackId st)) as [Hmy|Hne].
  2:{ rewrite playTTS_resume_stale by exact Hne. reflexivity. }
  destruct settled as [b|e].
  - destruct (truthy b) eqn:Ht.
    + rewrite playTTS_resume_current by assumption.
      destruct (decode_response_cases st fresh b {| currentTime := 0 |})
        as (r & st1 & Hr & Hid & _).
      rewrite Hr. destruct r as [buf|e]; [|exact Hid].
      destruct (start_playback_ok st1 my buf) as (st' & H & Hid' & _).
      rewrite H. cbn [snd]. congruence.
    + rewrite playTTS_resume_empty by assumption. reflexivity.
  - destruct (playTTS_resume_failure st my (Throw e) fresh {| currentTime := 0 |} Hmy I)
      as (st' & H & Hid & _).
    rewrite H. exact Hid.
Qed.

Lemma stopTTS_token (st : State) :
  currentPlaybackId (snd (stopTTS st)) = S (currentPlaybackId st).
Proof.
  unfold stopTTS, source_stop, disconnect. eff_unfold. cbn.
  destruct (currentSource st) as [s|]; cbn; [|reflexivity].
  destruct (graph_stop s (graph st)) as [[[]|e] g]; reflexivity.
Qed.

(** The token never decreases. *)
Lemma token_step (st : State) (e : Event) :
  currentPlaybackId st <= currentPlaybackId (step st e).
Proof.
  destruct e as [stored env text| |my settled fresh|my]; unfold step, handle.
  - unfold mbind, Eff_bind, eff_bind.
    destruct (truthy (getApiKey stored env)) eqn:Hk.
    + destruct (decide (text = EmptyString)) as [Ht|Ht].
      * rewrite playTTS_begin_skip by (right; exact Ht). cbn. lia.
      * destruct (playTTS_begin_issue st stored env text Hk Ht) as (st' & H & Hid & _).
        rewrite H. cbn. lia.
    + rewrite playTTS_begin_skip by (left; exact Hk). cbn. lia.
  - unfold mbind, Eff_bind, eff_bind. pose proof (stopTTS_token st) as H.
    destruct (stopTTS st) as [[[]|e] st']; cbn in *; lia.
  - unfold mbind, Eff_bind, eff_bind.
    pose proof (playTTS_resume_token st my settled fresh) as H.
    destruct (playTTS_resume my settled fresh st) as [[p|e] st']; cbn in *; lia.
  - unfold mbind, Eff_bind, eff_bind. rewrite onended_spec.
    destruct (currentPlaybackId st =? my); cbn; lia.
Qed.

Lemma token_run (es : list Event) (st : State) :
  currentPlaybackId st <= currentPlaybackId (run es st).
Proof.
  revert st. induction es as [|e es IH]; intros st; [cbn; lia|].
  cbn [run fold_left]. etransitivity; [apply (token_step st e) | apply IH].
Qed.

(** A quiet event changes nothing for the request that holds the token. *)
Lemma tts_quiet_step (st : State) (e : Event) :
  quiet (currentPlaybackId st) e = true -> step st e = st.
Proof.
  destruct e as [stored env text| |my settled fresh|my]; cbn [quiet]; intros Hq;
    unfold step, handle, mbind, Eff_bind, eff_bind.
  - rewrite playTTS_begin_skip; [reflexivity|].
    apply orb_prop in Hq as [Hq|Hq]; apply negb_true_iff in Hq; [left; exact Hq|].
    right. destruct text; [reflexivity | discriminate].
  - discriminate.
  - apply negb_true_iff, Nat.eqb_neq in Hq.
    rewrite playTTS_resume_stale by exact Hq. reflexivity.
  - apply negb_true_iff in Hq. rewrite onended_spec, Nat.eqb_sym, Hq. reflexivity.
Qed.

Lemma tts_quiet_run (es : list Event) (st : State) :
  forallb (quiet (currentPlaybackId st)) es = true -> run es st = st.
Proof.
  induction es as [|e es IH]; intros Hq; [reflexivity|].
  cbn [forallb] in Hq. apply andb_prop in Hq as [He Hes].
  cbn [run fold_left]. rewrite tts_quiet_step by exact He. apply IH. exact Hes.
Qed.

(** *** The narration properties *)

(** C2.  Two requests are issued one after the other, the second before
    the response of the first arrives.  The first gets token N and the
    second N+1; the first resolves false whenever and with whatever
    response it resumes; the second, when its response decodes and nothing
    but quiet events happen, starts playing and resolves true when its
    source ends.  In general a request that resolves true at its
    resumption, or that plays and resolves true when its source ends,
    holds the current token at its resumption, at the end of the playback
    and at every point in between. *)
Theorem narration_single_flight (st : State) (storedA envA storedB envB : option string)
    (textA textB : string) :
  truthy (getApiKey storedA envA) = true -> textA <> EmptyString ->
  truthy (getApiKey storedB envB) = true -> textB <> EmptyString ->
  let N := S (currentPlaybackId st) in
  exists st1 st2,
    playTTS_begin storedA envA textA st = (Ok (Awaiting N), st1) /\
    playTTS_begin storedB envB textB st1 = (Ok (Awaiting (S N)), st2) /\
    (forall es settled fresh,
        playTTS_resume N settled fresh (run es st2) = (Ok (Resolved false), run es st2)) /\
    (forall es1 es2 base64 fresh ctx0 audioBuffer,
        forallb (quiet (S N)) es1 = true -> forallb (quiet (S N)) es2 = true ->
        truthy (Some base64) = true ->
        decode_audio base64 ctx0 = Ok audioBuffer ->
        is_ok fresh = true ->
        exists source st3,
          playTTS_resume (S N) (Ok (Some base64)) fresh (run es1 st2)
            = (Ok (Playing (S N) source), st3) /\
          fst (onended (S N) (run es2 st3)) = Ok (Resolved true)) /\
    (forall st0 my settled fresh st',
        playTTS_resume my settled fresh st0 = (Ok (Resolved true), st') ->
        my = currentPlaybackId st0) /\
    (forall st0 my settled fresh source st' es,
        playTTS_resume my settled fresh st0 = (Ok (Playing my source), st') ->
        fst (onended my (run es st')) = Ok (Resolved true) ->
        my = currentPlaybackId st0 /\
        forall es1 es2, es = es1 ++ es2 -> currentPlaybackId (run es1 st') = my).
Proof.
  intros HkA HtA HkB HtB N.
  destruct (playTTS_begin_issue st storedA envA textA HkA HtA) as (st1 & H1 & Hid1 & _).
  destruct (playTTS_begin_issue st1 storedB envB textB HkB HtB) as (st2 & H2 & Hid2 & _).
  rewrite Hid1 in H2, Hid2. fold N in H1, H2, Hid2.
  exists st1, st2. split; [exact H1|]. split; [exact H2|].
  assert (Hstale : forall st0 my settled fresh p st',
            playTTS_resume my settled fresh st0 = (Ok p, st') ->
            p <> Resolved false -> my = currentPlaybackId st0).
  { intros st0 my settled fresh p st' H Hp.
    destruct (decide (my = currentPlaybackId st0)) as [Hmy|Hne]; [exact Hmy|].
    rewrite playTTS_resume_stale in H by exact Hne. congruence. }
  split; [|split; [|split]].
  - intros es settled fresh. apply playTTS_resume_stale.
    pose proof (token_run es st2). lia.
  - intros es1 es2 base64 fresh ctx0 buf Hq1 Hq2 Ht Hd Hf.
    rewrite <- Hid2 in Hq1. rewrite (tts_quiet_run es1 st2 Hq1).
    destruct (playTTS_resume_plays st2 (S N) base64 fresh ctx0 buf)
      as (st3 & H3 & Hid3 & _); auto.
    exists (nextNode (graph st2)), st3. split; [exact H3|].
    rewrite <- Hid2, <- Hid3 in Hq2. rewrite (tts_quiet_run es2 st3 Hq2).
    rewrite onended_spec, Hid3, Hid2, Nat.eqb_refl. reflexivity.
  - intros st0 my settled fresh st' H. eapply Hstale; [exact H | discriminate].
  - intros st0 my settled fresh source st' es H Hend.
    assert (Hmy : my = currentPlaybackId st0) by (eapply Hstale; [exact H | discriminate]).
    split; [exact Hmy|].
    assert (Hid' : currentPlaybackId st' = my).
    { pose proof (playTTS_resume_token st0 my settled fresh) as Ht.
      rewrite H in Ht. cbn [snd] in Ht. congruence. }
    assert (Hfin : currentPlaybackId (run es st') = my).
    { rewrite onended_spec in Hend.
      destruct (currentPlaybackId (run es st') =? my) eqn:E; [|discriminate].
      apply Nat.eqb_eq in E. exact E. }
    intros es1 es2 ->.
    pose proof (token_run es1 st') as Hlo.
    pose proof (token_run es2 (run es1 st')) as Hhi.
    unfold run in Hfin. rewrite fold_left_app in Hfin. fold (run es1 st') in Hfin.
    fold (run es2 (run es1 st')) in Hfin. lia.
Qed.

Lemma narration_single_flight_witness :
  exists st1 st2,
    playTTS_begin scenario_key None "hello" initial = (Ok (Awaiting 1), st1) /\
    playTTS_begin scenario_key None "world" st1 = (Ok (Awaiting 2), st2) /\
    playTTS_resume 1 (Ok (Some scenario_audio)) (Ok {| currentTime := 0 |}) st2
      = (Ok (Resolved false), st2) /\
    exists source st3,
      playTTS_resume 2 (Ok (Some scenario_audio)) (Ok {| currentTime := 0 |}) st2
        = (Ok (Playing 2 source), st3) /\
      fst (onended 2 st3) = Ok (Resolved true).
Proof.
  destruct (narration_single_flight initial scenario_key None scenario_key None
              "hello" "world")
    as (st1 & st2 & H1 & H2 & Hfirst & Hsecond & _).
  - reflexivity.
  - discriminate.
  - reflexivity.
  - discriminate.
  - exists st1, st2. split; [exact H1|]. split; [exact H2|]. split.
    + exact (Hfirst [] (Ok (Some scenario_audio)) (Ok {| currentTime := 0 |})).
    + apply (Hsecond [] [] scenario_audio (Ok {| currentTime := 0 |}) {| currentTime := 0 |}
               {| numberOfChannels := 1; frames := 2; sampleRate := 24000;
                  channelData := [[0 # 32768; 32767 # 32768]%Q] |}).
      * reflexivity.
      * reflexivity.
      * reflexivity.
      * vm_compute. reflexivity.
      * reflexivity.
Defined.

(** C5.  When the synthesis request is rejected, or the response carries a
    payload that cannot be decoded (or no audio context can be created for
    it), the call does not throw: it resolves true if its token is still
    the current one and false if it is not. *)
Theorem narration_fails_open (st : State) (my : nat) (settled : result (option string))
    (fresh : result AudioContext) (ctx0 : AudioContext) :
  (match settled with
   | Throw _ => True
   | Ok base64Audio =>
       truthy base64Audio = true /\
       (is_ok (decode_audio (default EmptyString base64Audio) ctx0) = false \/
        (audioContext st = None /\ is_ok fresh = false))
   end) ->
  exists st',
    playTTS_resume my settled fresh st
      = (Ok (Resolved (my =? currentPlaybackId st)), st') /\
    currentPlaybackId st' = currentPlaybackId st /\
    currentSource st' = currentSource st.
Proof.
  intros H. destruct (decide (my = currentPlaybackId st)) as [Hmy|Hne].
  - destruct (playTTS_resume_failure st my settled fresh ctx0 Hmy H) as (st' & H' & Hid & Hsrc & _).
    exists st'. rewrite H', Hmy, Nat.eqb_refl. repeat split; assumption.
  - exists st. rewrite playTTS_resume_stale by exact Hne.
    apply Nat.eqb_neq in Hne. rewrite Hne. repeat split; reflexivity.
Qed.

Lemma narration_fails_open_witness :
  let st := run [EvPlay scenario_key None "hello"] initial in
  (exists st', playTTS_resume 1 (Throw NetworkError) (Ok {| currentTime := 0 |}) st
               = (Ok (Resolved true), st')) /\
  (exists st', playTTS_resume 1 (Ok (Some "AA=="%string)) (Ok {| currentTime := 0 |}) st
               = (Ok (Resolved true), st')) /\
  (exists st', playTTS_resume 1 (Throw NetworkError) (Ok {| currentTime := 0 |})
                 (step st EvStop)
               = (Ok (Resolved false), st')).
Proof.
  cbv zeta. split; [|split].
  - destruct (narration_fails_open (run [EvPlay scenario_key None "hello"] initial) 1
                (Throw NetworkError) (Ok {| currentTime := 0 |}) {| currentTime := 0 |} I)
      as (st' & H & _).
    exists st'. exact H.
  - destruct (narration_fails_open (run [EvPlay scenario_key None "hello"] initial) 1
                (Ok (Some "AA=="%string)) (Ok {| currentTime := 0 |}) {| currentTime := 0 |})
      as (st' & H & _).
    + split; [reflexivity | left; vm_compute; reflexivity].
    + exists st'. exact H.
  - destruct (narration_fails_open (step (run [EvPlay scenario_key None "hello"] initial) EvStop)
                1 (Throw NetworkError) (Ok {| currentTime := 0 |}) {| currentTime := 0 |} I)
      as (st' & H & _).
    exists st'. exact H.
Defined.

(** C10.  Called with an empty text, or when no API key is available,
    [playTTS] resolves true at once and leaves the whole state as it is:
    the token, the current source and its node, and the list of requests
    sent.  Called with a key and a non-empty text it takes the next token,
    stops the current source if there is one, clears it, and sends the
    request. *)
Theorem playTTS_guard (st : State) (stored env : option string) (text : string) :
  (truthy (getApiKey stored env) = false \/ text = EmptyString ->
   playTTS_begin stored env text st = (Ok (Resolved true), st)) /\
  (truthy (getApiKey stored env) = true -> text <> EmptyString ->
   exists st',
     playTTS_begin stored env text st = (Ok (Awaiting (S (currentPlaybackId st))), st') /\
     currentPlaybackId st' = S (currentPlaybackId st) /\
     currentSource st' = None /\
     requests st' = requests st ++ [(S (currentPlaybackId st), text)] /\
     (forall s, currentSource st = Some s -> started_in (graph st) s ->
                stopped_in (graph st') s)).
Proof.
  split.
  - apply playTTS_begin_skip.
  - intros Hk Ht.
    destruct (playTTS_begin_issue st stored env text Hk Ht)
      as (st' & H & Hid & Hsrc & _ & Hreq & Hstop & _).
    exists st'. repeat split; assumption.
Qed.

Lemma playTTS_guard_witness :
  let st := run [EvPlay scenario_key None "hello";
                 EvResponse 1 (Ok (Some scenario_audio)) (Ok {| currentTime := 0 |})] initial in
  currentSource st = Some 0 /\
  playTTS_begin scenario_key None EmptyString st = (Ok (Resolved true), st) /\
  playTTS_begin None None "again" st = (Ok (Resolved true), st) /\
  exists st',
    playTTS_begin scenario_key None "again" st = (Ok (Awaiting 2), st') /\
    currentSource st' = None /\
    stopped_in (graph st') 0.
Proof.
  cbv zeta. split; [reflexivity|]. split; [|split].
  - apply (proj1 (playTTS_guard _ scenario_key None EmptyString)). right. reflexivity.
  - apply (proj1 (playTTS_guard _ None None "again")). left. reflexivity.
  - destruct (proj2 (playTTS_guard
                       (run [EvPlay scenario_key None "hello";
                             EvResponse 1 (Ok (Some scenario_audio)) (Ok {| currentTime := 0 |})]
                            initial)
                       scenario_key None "again"))
      as (st' & H & _ & Hsrc & _ & Hstop).
    + reflexivity.
    + discriminate.
    + exists st'. split; [exact H|]. split; [exact Hsrc|].
      apply Hstop; [reflexivity|].
      eexists. split; [vm_compute; reflexivity | reflexivity].
Defined.

End TtsServiceFacts.


(** * Further properties of the code *)

(** ** The text-safe transport encoding *)
Section Base64Facts.
Import AudioUtils.
Local Open Scope Z_scope.

Lemma list_ind3 {A} (P : list A -> Prop) :
  P [] -> (forall a, P [a]) -> (forall a b, P [a; b]) ->
  (forall a b c l, P l -> P (a :: b :: c :: l)) ->
  forall l, P l.
Proof.
  intros H0 H1 H2 H3 l.
  assert (H : P l /\ (forall a, P (a :: l)) /\ (forall a b, P (a :: b :: l))).
  { induction l as [|x l (IH0 & IH1 & IH2)]; [auto|].
    split; [apply IH1|]. split; [intros a; apply IH2|].
    intros a b. apply H3. exact IH0. }
  apply H.
Qed.

Lemma byte_val_range (b : byte) : 0 <= byte_val b < 256.
Proof.
  unfold byte_val. pose proof (Byte.to_N_bounded b). lia.
Qed.

Lemma byte_of_Z_val (z : Z) (b : byte) : z mod 256 = byte_val b -> byte_of_Z z = b.
Proof.
  intros H. unfold byte_of_Z. rewrite H. unfold byte_val.
  rewrite N2Z.id, Byte.of_to_N. reflexivity.
Qed.

Lemma b64_char_facts (v : Z) :
  0 <= v < 64 ->
  b64_value (b64_char v) = Some v /\
  is_ascii_whitespace (b64_char v) = false /\
  is_pad (b64_char v) = false.
Proof.
  intros Hv.
  assert (H : forallb (fun k =>
                let w := Z.of_nat k in
                match b64_value (b64_char w) with
                | Some u => (u =? w)
                | None => false
                end
                && negb (is_ascii_whitespace (b64_char w))
                && negb (is_pad (b64_char w))) (seq 0 64) = true)
    by (vm_compute; reflexivity).
  rewrite forallb_forall in H. specialize (H (Z.to_nat v)).
  rewrite Z2Nat.id in H by lia. cbv zeta in H.
  assert (Hin : In (Z.to_nat v) (seq 0 64)) by (apply in_seq; lia).
  specialize (H Hin).
  apply andb_prop in H as [H Hp]. apply andb_prop in H as [Hval Hws].
  apply negb_true_iff in Hp, Hws.
  destruct (b64_value (b64_char v)) as [u|]; [|discriminate].
  apply Z.eqb_eq in Hval. subst u. auto.
Qed.

Lemma b64_sextets_range (bs : list byte) :
  Forall (fun v => 0 <= v < 64) (b64_sextets bs).
Proof.
  induction bs as [|a|a b|a b c l IH] using list_ind3; cbn [b64_sextets].
  - constructor.
  - pose proof (byte_val_range a).
    repeat constructor; Z.div_mod_to_equations; lia.
  - pose proof (byte_val_range a). pose proof (byte_val_range b).
    repeat constructor; Z.div_mod_to_equations; lia.
  - pose proof (byte_val_range a). pose proof (byte_val_range b).
    pose proof (byte_val_range c).
    repeat (constructor; [Z.div_mod_to_equations; lia|]). exact IH.
Qed.

(** Grouping the 6-bit values of a byte sequence gives the bytes back. *)
Lemma b64_groups_sextets (bs : list byte) : b64_groups (b64_sextets bs) = bs.
Proof.
  induction bs as [|a|a b|a b c l IH] using list_ind3; cbn [b64_sextets b64_groups].
  - reflexivity.
  - pose proof (byte_val_range a). f_equal.
    apply byte_of_Z_val. Z.div_mod_to_equations; lia.
  - pose proof (byte_val_range a). pose proof (byte_val_range b).
    f_equal; [|f_equal]; apply byte_of_Z_val; Z.div_mod_to_equations; lia.
  - pose proof (byte_val_range a). pose proof (byte_val_range b).
    pose proof (byte_val_range c). rewrite IH.
    f_equal; [|f_equal; [|f_equal]]; apply byte_of_Z_val; Z.div_mod_to_equations; lia.
Qed.

Lemma b64_shape (bs : list byte) :
  (b64_padding bs = [] /\ (List.length (b64_sextets bs) mod 4 = 0)%nat) \/
  (b64_padding bs = ["="%char] /\ (List.length (b64_sextets bs) mod 4 = 3)%nat) \/
  (b64_padding bs = ["="%char; "="%char] /\ (List.length (b64_sextets bs) mod 4 = 2)%nat).
Proof.
  induction bs as [|a|a b|a b c l IH] using list_ind3; cbn [b64_sextets b64_padding].
  - left. split; reflexivity.
  - right. right. split; reflexivity.
  - right. left. split; reflexivity.
  - cbn [List.length].
    replace (Datatypes.S (Datatypes.S (Datatypes.S (Datatypes.S (List.length (b64_sextets l))))))
      with (List.length (b64_sextets l) + 1 * 4)%nat by lia.
    rewrite Nat.Div0.mod_add. exact IH.
Qed.

Lemma filter_all {A} (f : A -> bool) (l : list A) :
  Forall (fun x => f x = true) l -> List.filter f l = l.
Proof.
  induction 1 as [|x l Hx _ IH]; [reflexivity|].
  cbn [List.filter]. rewrite Hx, IH. reflexivity.
Qed.

Lemma mapM_b64_value (vs : list Z) :
  Forall (fun v => 0 <= v < 64) vs ->
  mapM b64_value (map b64_char vs) = Some vs.
Proof.
  induction 1 as [|v vs Hv _ IH]; [reflexivity|].
  cbn [map mapM]. destruct (b64_char_facts v Hv) as (E & _).
  rewrite E. cbn. rewrite IH. reflexivity.
Qed.

(** The padding of an encoded text is what [atob] strips. *)
Lemma strip_padding_encoded (bs : list byte) :
  strip_padding (map b64_char (b64_sextets bs) ++ b64_padding bs)
  = map b64_char (b64_sextets bs).
Proof.
  pose proof (b64_sextets_range bs) as Hr.
  assert (Hpad : forall c, In c (map b64_char (b64_sextets bs)) -> is_pad c = false).
  { intros c Hc. apply in_map_iff in Hc as (v & <- & Hv).
    rewrite List.Forall_forall in Hr. apply (b64_char_facts v (Hr v Hv)). }
  set (enc := map b64_char (b64_sextets bs)) in *.
  assert (Hlen : List.length enc = List.length (b64_sextets bs)) by apply length_map.
  unfold strip_padding.
  destruct (b64_shape bs) as [[-> Hm]|[[-> Hm]|[-> Hm]]]; rewrite <- Hlen in Hm.
  - rewrite app_nil_r, Hm. cbn [Nat.eqb].
    destruct (rev enc) as [|p1 [|p2 r]] eqn:E; try reflexivity.
    rewrite (Hpad p1); [reflexivity|].
    apply in_rev. rewrite E. left. reflexivity.
  - rewrite length_app. cbn [List.length].
    replace ((List.length enc + 1) mod 4)%nat with 0%nat
      by (rewrite Nat.Div0.add_mod, Hm; reflexivity).
    cbn [Nat.eqb]. rewrite rev_app_distr. cbn [rev app].
    destruct (rev enc) as [|p2 r] eqn:E.
    + apply (f_equal (@List.length ascii)) in E. rewrite length_rev in E.
      rewrite E in Hm. discriminate.
    + change (is_pad "="%char) with true. cbv match.
      rewrite (Hpad p2); [|apply in_rev; rewrite E; left; reflexivity].
      cbv match. change (rev (p2 :: r) = enc). rewrite <- E. apply rev_involutive.
  - rewrite length_app. cbn [List.length].
    replace ((List.length enc + 2) mod 4)%nat with 0%nat
      by (rewrite Nat.Div0.add_mod, Hm; reflexivity).
    cbn [Nat.eqb]. rewrite rev_app_distr. cbn [rev app].
    change (is_pad "="%char) with true. cbv match.
    apply rev_involutive.
Qed.

Lemma atob_btoa (bs : list byte) : atob (btoa bs) = Ok bs.
Proof.
  unfold atob, btoa. rewrite list_ascii_of_string_of_list_ascii.
  pose proof (b64_sextets_range bs) as Hr.
  rewrite filter_all.
  2:{ apply Forall_app. split.
      - apply List.Forall_forall. intros c Hc. apply in_map_iff in Hc as (v & <- & Hv).
        rewrite List.Forall_forall in Hr.
        destruct (b64_char_facts v (Hr v Hv)) as (_ & -> & _). reflexivity.
      - destruct (b64_shape bs) as [[-> _]|[[-> _]|[-> _]]]; repeat constructor. }
  rewrite strip_padding_encoded, length_map.
  assert (Hm : (List.length (b64_sextets bs) mod 4 =? 1)%nat = false).
  { destruct (b64_shape bs) as [[_ ->]|[[_ ->]|[_ ->]]]; reflexivity. }
  rewrite Hm, (mapM_b64_value _ Hr), b64_groups_sextets. reflexivity.
Qed.

(** X1.  What [base64Encode] writes, [base64Decode] reads back: for every
    byte array, also one that is a view on a part of a larger buffer, the
    decoded array holds the elements of the view and owns its buffer. *)
Theorem base64_roundtrip (bytes : Uint8Array) :
  base64Decode (base64Encode bytes) = Ok (Uint8Array_of_bytes (elements_of bytes)).
Proof.
  unfold base64Decode, base64Encode. rewrite atob_btoa. reflexivity.
Qed.

End Base64Facts.

(** ** More on the PCM codec and the buffer builder *)
Section CodecFacts.
Import AudioUtils.
Local Open Scope Z_scope.

Lemma clamp_bounds (x : Q) :
  let y := Qmax (-1) (Qmin 1 x) in
  (-1 <= y <= 1)%Q /\
  ((-1 <= x <= 1)%Q -> (y == x)%Q) /\
  ((1 <= x)%Q -> (y == 1)%Q) /\
  ((x <= -1)%Q -> (y == -1)%Q).
Proof.
  cbv zeta.
  pose proof (Q.le_max_l (-1) (Qmin 1 x)) as H1.
  pose proof (Q.le_min_l 1 x) as H2.
  assert (H3 : (Qmax (-1) (Qmin 1 x) <= 1)%Q).
  { apply Q.max_lub; [discriminate | exact H2]. }
  repeat split; try assumption.
  - intros [Hlo Hhi]. apply clamp_in_range. split; assumption.
  - intros Hx. rewrite (Q.min_l 1 x) by exact Hx. apply Q.max_r. discriminate.
  - intros Hx. apply Q.max_l. apply Qle_trans with x; [apply Q.le_min_r | exact Hx].
Qed.

(** The number stored for any sample, by the sign of the clamped sample. *)
Lemma encode_sample_general (x : Q) :
  let y := Qmax (-1) (Qmin 1 x) in
  let v := encode_sample x in
  ((y < 0)%Q ->
   -32768 <= v <= 0 /\ (y * 32768 <= inject_Z v)%Q /\ (inject_Z v - 1 < y * 32768)%Q) /\
  ((0 <= y)%Q ->
   0 <= v <= 32767 /\ (inject_Z v <= y * 32767)%Q /\ (y * 32767 < inject_Z v + 1)%Q).
Proof.
  cbv zeta. destruct (clamp_bounds x) as ([Hlo Hhi] & _). cbv zeta in Hlo, Hhi.
  unfold encode_sample.
  remember (Qmax (-1) (Qmin 1 x)) as y eqn:Ey. clear Ey.
  split; intros Hy.
  - assert (Hs : (y ?= 0)%Q = Lt) by exact Hy.
    rewrite Hs. unfold ToInt16.
    destruct (quot_nonpos (y * 32768)%Q ltac:(lra)) as [H1 H2].
    remember (Qnum (y * 32768)%Q ÷ Z.pos (Qden (y * 32768)%Q)) as t eqn:Et. clear Et.
    assert (Ht : -32768 <= t <= 0).
    { split.
      - apply inject_Z_le_inv. change (inject_Z (-32768)) with (-32768)%Q. lra.
      - assert (t < 1); [|lia]. apply inject_Z_lt_inv. change (inject_Z 1) with 1%Q. lra. }
    rewrite signed16_id by lia. repeat split; try lia; lra.
  - assert (E : match (y ?= 0)%Q with Lt => (y * 32768)%Q | _ => (y * 32767)%Q end
                = (y * 32767)%Q).
    { destruct (y ?= 0)%Q eqn:Ec; try reflexivity.
      change (y < 0)%Q in Ec. lra. }
    rewrite E. unfold ToInt16.
    destruct (quot_nonneg (y * 32767)%Q ltac:(lra)) as [H1 H2].
    remember (Qnum (y * 32767)%Q ÷ Z.pos (Qden (y * 32767)%Q)) as t eqn:Et. clear Et.
    assert (Ht : 0 <= t <= 32767).
    { split.
      - assert (-1 < t); [|lia]. apply inject_Z_lt_inv. change (inject_Z (-1)) with (-1)%Q. lra.
      - apply inject_Z_le_inv. change (inject_Z 32767) with 32767%Q. lra. }
    rewrite signed16_id by lia. repeat split; try lia; lra.
Qed.

(** X2.  [float32ToInt16] never leaves the 16-bit range, whatever the
    sample: a sample of 1 or more is stored as 32767, a sample of -1 or
    less as -32768, and zero as zero.  The array keeps its length. *)
Theorem float32ToInt16_saturates (float32 : list Q) :
  List.length (float32ToInt16 float32) = List.length float32 /\
  Forall (fun v => -32768 <= v <= 32767) (float32ToInt16 float32) /\
  (forall x, (1 <= x)%Q -> encode_sample x = 32767) /\
  (forall x, (x <= -1)%Q -> encode_sample x = -32768) /\
  (forall x, (x == 0)%Q -> encode_sample x = 0).
Proof.
  assert (Hrange : forall x, -32768 <= encode_sample x <= 32767).
  { intros x. destruct (encode_sample_general x) as [Hn Hp]. cbv zeta in Hn, Hp.
    destruct (Qlt_le_dec (Qmax (-1) (Qmin 1 x)) 0) as [H|H].
    - specialize (Hn H). lia.
    - specialize (Hp H). lia. }
  split; [apply length_map|]. split; [|split; [|split]].
  - unfold float32ToInt16. apply List.Forall_forall. intros v Hv.
    apply in_map_iff in Hv as (x & <- & _). apply Hrange.
  - intros x Hx. destruct (clamp_bounds x) as (_ & _ & Hy & _). specialize (Hy Hx).
    destruct (encode_sample_general x) as [_ Hp]. cbv zeta in Hy, Hp.
    remember (Qmax (-1) (Qmin 1 x)) as y eqn:Ey. clear Ey.
    destruct (Hp ltac:(lra)) as (Hv & H1 & H2).
    remember (encode_sample x) as v eqn:Ev. clear Ev.
    assert (32766 < v); [|lia].
    apply inject_Z_lt_inv. change (inject_Z 32766) with 32766%Q. lra.
  - intros x Hx. destruct (clamp_bounds x) as (_ & _ & _ & Hy). specialize (Hy Hx).
    destruct (encode_sample_general x) as [Hn _]. cbv zeta in Hy, Hn.
    remember (Qmax (-1) (Qmin 1 x)) as y eqn:Ey. clear Ey.
    destruct (Hn ltac:(lra)) as (Hv & H1 & H2).
    remember (encode_sample x) as v eqn:Ev. clear Ev.
    assert (v < -32767); [|lia].
    apply inject_Z_lt_inv. change (inject_Z (-32767)) with (-32767)%Q. lra.
  - intros x Hx. destruct (clamp_bounds x) as (_ & Hy & _ & _).
    specialize (Hy ltac:(lra)).
    destruct (encode_sample_general x) as [_ Hp]. cbv zeta in Hy, Hp.
    remember (Qmax (-1) (Qmin 1 x)) as y eqn:Ey. clear Ey.
    destruct (Hp ltac:(lra)) as (Hv & H1 & H2).
    remember (encode_sample x) as v eqn:Ev. clear Ev.
    assert (v < 1); [|lia].
    apply inject_Z_lt_inv. change (inject_Z 1) with 1%Q. lra.
Qed.

Lemma float32ToInt16_saturates_witness :
  encode_sample (7 # 2) = 32767 /\ encode_sample (-(5 # 1)) = -32768.
Proof.
  destruct (float32ToInt16_saturates []) as (_ & _ & Hhi & Hlo & _).
  split; [apply Hhi | apply Hlo]; unfold Qle; simpl; lia.
Defined.

(** X3.  The encoder keeps the order of the samples: a larger sample is
    never stored as a smaller number. *)
Theorem encode_sample_monotone (x1 x2 : Q) :
  (x1 <= x2)%Q -> encode_sample x1 <= encode_sample x2.
Proof.
  intros Hx.
  assert (Hy : (Qmax (-1) (Qmin 1 x1) <= Qmax (-1) (Qmin 1 x2))%Q).
  { apply Q.max_le_compat_l. apply Q.min_le_compat_l. exact Hx. }
  destruct (encode_sample_general x1) as [Hn1 Hp1].
  destruct (encode_sample_general x2) as [Hn2 Hp2]. cbv zeta in *.
  remember (Qmax (-1) (Qmin 1 x1)) as y1 eqn:E1. clear E1.
  remember (Qmax (-1) (Qmin 1 x2)) as y2 eqn:E2. clear E2.
  remember (encode_sample x1) as v1 eqn:Ev1. clear Ev1.
  remember (encode_sample x2) as v2 eqn:Ev2. clear Ev2.
  destruct (Qlt_le_dec y1 0) as [H1|H1]; destruct (Qlt_le_dec y2 0) as [H2|H2].
  - destruct (Hn1 H1) as (_ & _ & A). destruct (Hn2 H2) as (_ & B & _).
    assert (v1 - 1 < v2); [|lia].
    apply inject_Z_lt_inv. unfold Z.sub. rewrite inject_Z_plus, inject_Z_opp.
    change (inject_Z 1) with 1%Q. lra.
  - destruct (Hn1 H1) as (A & _). destruct (Hp2 H2) as (B & _). lia.
  - lra.
  - destruct (Hp1 H1) as (_ & A & _). destruct (Hp2 H2) as (_ & _ & B).
    assert (v1 < v2 + 1); [|lia].
    apply inject_Z_lt_inv. rewrite inject_Z_plus.
    change (inject_Z 1) with 1%Q. lra.
Qed.

Lemma encode_sample_monotone_witness :
  encode_sample (-(1 # 3)) <= encode_sample (1 # 7).
Proof. apply encode_sample_monotone. unfold Qle; simpl; lia. Defined.

End CodecFacts.

(** ** The microphone payload and the channels of a playback buffer *)
Section WireFacts.
Import AudioUtils.
Local Open Scope Z_scope.

Lemma elements_of_owned (bs : list byte) :
  elements_of (Uint8Array_of_bytes bs) = bs.
Proof.
  unfold elements_of, Uint8Array_of_bytes. cbn [byteLength byteOffset buffer drop].
  apply firstn_all.
Qed.

Lemma base64Decode_of_Encode (bs : list byte) :
  base64Decode (base64Encode (Uint8Array_of_bytes bs)) = Ok (Uint8Array_of_bytes bs).
Proof.
  unfold base64Decode, base64Encode. rewrite atob_btoa, elements_of_owned. reflexivity.
Qed.

Lemma encode_sample_range (x : Q) : -32768 <= encode_sample x <= 32767.
Proof.
  destruct (encode_sample_general x) as [Hn Hp]. cbv zeta in Hn, Hp.
  destruct (Qlt_le_dec (Qmax (-1) (Qmin 1 x)) 0) as [H|H].
  - specialize (Hn H). lia.
  - specialize (Hp H). lia.
Qed.

Lemma float32ToInt16_int16 (float32 : list Q) :
  Forall (fun v => -32768 <= v <= 32767) (float32ToInt16 float32).
Proof.
  unfold float32ToInt16. apply List.Forall_forall. intros v Hv.
  apply in_map_iff in Hv as (x & <- & _). apply encode_sample_range.
Qed.

(** X4.  The payload of the microphone blob is well-formed base64 of two
    bytes per sample: decoding it and laying an [Int16Array] over the
    result gives back, exactly, the numbers [float32ToInt16] computed.
    The blob is tagged as 16 kHz PCM. *)
Theorem createAudioBlob_payload (inputData : list Q) :
  mimeType (createAudioBlob inputData) = "audio/pcm;rate=16000"%string /\
  exists bytes,
    base64Decode (data (createAudioBlob inputData)) = Ok bytes /\
    byteOffset bytes = 0%nat /\
    byteLength bytes = (2 * List.length inputData)%nat /\
    new_Int16Array (buffer bytes) = Ok (float32ToInt16 inputData).
Proof.
  split; [reflexivity|].
  exists (Uint8Array_of_bytes (int16_bytes (float32ToInt16 inputData))).
  unfold createAudioBlob. cbn [data].
  rewrite base64Decode_of_Encode.
  repeat split.
  - cbn [byteLength Uint8Array_of_bytes]. rewrite int16_bytes_length.
    unfold float32ToInt16. rewrite length_map. reflexivity.
  - cbn [buffer Uint8Array_of_bytes]. unfold new_Int16Array.
    rewrite int16_bytes_length.
    replace (Nat.even (2 * List.length (float32ToInt16 inputData))) with true.
    + rewrite int16_view_bytes by apply float32ToInt16_int16. reflexivity.
    + symmetry. apply Nat.even_spec. eexists. reflexivity.
Qed.

(** X5.  A microphone blob fed to the decoder of the players: an empty
    input is refused with [NotSupportedError]; any other input gives a
    one-channel buffer with one frame per sample, each sample being the
    stored number divided by 32768. *)
Theorem createAudioBlob_decode_audio (inputData : list Q) (ctx : AudioContext) :
  decode_audio (data (createAudioBlob inputData)) ctx =
    match inputData with
    | [] => Throw NotSupportedError
    | _ => Ok {| numberOfChannels := 1;
                 frames := List.length inputData;
                 sampleRate := 24000;
                 channelData := [map (fun x => decode_sample (encode_sample x)) inputData] |}
    end.
Proof.
  unfold decode_audio, createAudioBlob. cbn [data].
  rewrite base64Decode_of_Encode.
  cbn [mbind result_bind bind_result].
  destruct inputData as [|x xs]; [reflexivity|].
  set (input := x :: xs).
  rewrite pcmToAudioBuffer_mono; cbn [buffer Uint8Array_of_bytes].
  - rewrite int16_view_bytes by apply float32ToInt16_int16.
    rewrite int16_bytes_length. unfold float32ToInt16. rewrite length_map, map_map.
    replace (2 * List.length input)%nat with (List.length input * 2)%nat by lia.
    rewrite Nat.div_mul by lia. reflexivity.
  - rewrite int16_bytes_length. apply Nat.even_spec. eexists. reflexivity.
  - rewrite int16_bytes_length. unfold float32ToInt16. rewrite length_map.
    subst input. cbn [List.length]. lia.
  - split; unfold Qle; simpl; lia.
Qed.



Lemma int16_word_bytes (b0 b1 : byte) :
  let v := signed16 (byte_val b0 + 256 * byte_val b1) in
  byte_of_Z v = b0 /\ byte_of_Z (v / 256) = b1.
Proof.
  cbv zeta. pose proof (byte_val_range b0) as H0. pose proof (byte_val_range b1) as H1.
  assert (E0 : (signed16 (byte_val b0 + 256 * byte_val b1)) mod 256 = byte_val b0).
  { unfold signed16. rewrite (Z.mod_small (_ + _) 65536) by lia.
    destruct (32768 <=? _); symmetry.
    - apply Z.mod_unique with (q := byte_val b1 - 256); lia.
    - apply Z.mod_unique with (q := byte_val b1); lia. }
  assert (E1 : (signed16 (byte_val b0 + 256 * byte_val b1) / 256) mod 256 = byte_val b1).
  { unfold signed16. rewrite (Z.mod_small (_ + _) 65536) by lia.
    destruct (32768 <=? _); symmetry.
    - replace ((byte_val b0 + 256 * byte_val b1 - 65536) / 256) with (byte_val b1 - 256).
      + apply Z.mod_unique with (q := -1); lia.
      + apply Z.div_unique with (r := byte_val b0); lia.
    - replace ((byte_val b0 + 256 * byte_val b1) / 256) with (byte_val b1).
      + apply Z.mod_unique with (q := 0); lia.
      + apply Z.div_unique with (r := byte_val b0); lia. }
  split; apply byte_of_Z_val; assumption.
Qed.

(** X6.  An [Int16Array] and the bytes of its buffer determine each other:
    numbers of the 16-bit range written as bytes read back unchanged, and
    a byte sequence of even length read as numbers writes back
    unchanged. *)
Theorem int16_bytes_bijection (xs : list Z) (bs : list byte) :
  Forall (fun v => -32768 <= v <= 32767) xs ->
  Nat.even (List.length bs) = true ->
  int16_view (int16_bytes xs) = xs /\ int16_bytes (int16_view bs) = bs.
Proof.
  intros Hxs Hbs. split; [apply int16_view_bytes; exact Hxs|].
  clear xs Hxs.
  assert (H : forall n (l : list byte), (List.length l < n)%nat ->
            Nat.even (List.length l) = true -> int16_bytes (int16_view l) = l).
  { induction n as [|n IH]; intros l Hl He; [lia|].
    destruct l as [|b0 [|b1 rest]]; [reflexivity | discriminate |].
    cbn [int16_view int16_bytes flat_map app]. fold (int16_bytes (int16_view rest)).
    destruct (int16_word_bytes b0 b1) as [E0 E1]. cbv zeta in E0, E1.
    rewrite E0, E1, IH; [reflexivity | cbn [List.length] in Hl; lia | exact He]. }
  apply (H (Datatypes.S (List.length bs))); [lia | exact Hbs].
Qed.

Lemma int16_bytes_bijection_witness :
  int16_view (int16_bytes [-32768; -1; 0; 258; 32767]) = [-32768; -1; 0; 258; 32767] /\
  int16_bytes (int16_view [x00; x80; xff; x7f]) = [x00; x80; xff; x7f].
Proof.
  apply int16_bytes_bijection.
  - repeat constructor; lia.
  - reflexivity.
Defined.



(** What a successful call of the builder tells about its arguments. *)
Lemma pcmToAudioBuffer_inv (data0 : Uint8Array) (ctx : AudioContext) (rate : Q)
    (ch : nat) (b : AudioBuffer) :
  pcmToAudioBuffer data0 ctx rate ch = Ok b ->
  let xs := int16_view (buffer data0) in
  let n := (List.length xs / ch)%nat in
  Nat.even (List.length (buffer data0)) = true /\ ch <> 0%nat /\ n <> 0%nat /\
  numberOfChannels b = ch /\ frames b = n /\ AudioUtils.sampleRate b = rate /\
  exists k, (n <= k)%nat /\
    channelData b = imap (fun c cd => fill_channel xs ch c k cd)
                         (replicate ch (replicate n 0%Q)).
Proof.
  unfold pcmToAudioBuffer, new_Int16Array.
  destruct (Nat.even (List.length (buffer data0))) eqn:He;
    cbn [mbind result_bind bind_result]; [|discriminate].
  unfold createBuffer. rewrite frameCount_floor.
  destruct (_ || _ || _ || _ || _)%bool eqn:Eg;
    cbn [mbind result_bind bind_result]; [discriminate|].
  intros [= <-]. cbn [numberOfChannels frames AudioUtils.sampleRate channelData].
  repeat rewrite orb_false_iff in Eg. destruct Eg as ((((E1 & E2) & E3) & E4) & E5).
  apply Nat.eqb_neq in E1, E3.
  repeat split; try assumption; try reflexivity.
  eexists. split; [|reflexivity].
  rewrite <- (frameCount_floor (List.length (int16_view (buffer data0))) ch).
  pose proof (inject_Z_le_inv _ _ (Qle_floor_ceiling
    (inject_Z (Z.of_nat (List.length (int16_view (buffer data0)))) / inject_Z (Z.of_nat ch)))).
  lia.
Qed.

Lemma fill_channel_lookup (xs : list Z) (ch c k : nat) (cd : list Q) (i : nat) (v : Z) :
  (i < k)%nat -> (i < List.length cd)%nat ->
  xs !! (i * ch + c)%nat = Some v ->
  fill_channel xs ch c k cd !! i = Some (decode_sample v).
Proof.
  intros Hik Hi Hv. induction k as [|k IH]; [lia|].
  unfold fill_channel. rewrite seq_S, fold_left_app. cbn [fold_left Nat.add].
  fold (fill_channel xs ch c k cd).
  pose proof (fill_channel_length xs ch c k cd) as Hlen.
  destruct (decide (i = k)) as [-> | Hne].
  - rewrite Hv. apply list_lookup_insert_eq. lia.
  - assert (Hprev : fill_channel xs ch c k cd !! i = Some (decode_sample v))
      by (apply IH; lia).
    destruct (xs !! (k * ch + c)%nat); [|exact Hprev].
    rewrite list_lookup_insert_ne by congruence. exact Hprev.
Qed.

(** X7.  The builder de-interleaves: in a buffer it returns, sample [i]
    of channel [c] is element [i * numChannels + c] of the 16-bit view of
    the input, divided by 32768. *)
Theorem pcmToAudioBuffer_deinterleaves (data0 : Uint8Array) (ctx : AudioContext)
    (rate : Q) (ch : nat) (b : AudioBuffer) (c i : nat) :
  pcmToAudioBuffer data0 ctx rate ch = Ok b ->
  (c < ch)%nat -> (i < frames b)%nat ->
  exists cd v,
    channelData b !! c = Some cd /\
    int16_view (buffer data0) !! (i * ch + c)%nat = Some v /\
    cd !! i = Some (decode_sample v).
Proof.
  intros Hok Hc Hi.
  destruct (pcmToAudioBuffer_inv _ _ _ _ _ Hok) as (_ & _ & _ & _ & Hf & _ & k & Hk & Hcd).
  cbv zeta in Hf, Hk, Hcd. rewrite Hf in Hi.
  set (xs := int16_view (buffer data0)) in *.
  assert (Hin : (i * ch + c < List.length xs)%nat).
  { pose proof (Nat.Div0.mul_div_le (List.length xs) ch). nia. }
  destruct (lookup_lt_is_Some_2 xs _ Hin) as [v Hv].
  exists (fill_channel xs ch c k (replicate (List.length xs / ch) 0%Q)), v.
  split; [|split].
  - rewrite Hcd, list_lookup_imap, lookup_replicate_2 by exact Hc. reflexivity.
  - exact Hv.
  - apply fill_channel_lookup; [lia | rewrite length_replicate; exact Hi | exact Hv].
Qed.

Lemma pcmToAudioBuffer_deinterleaves_witness :
  exists cd v,
    channelData {| numberOfChannels := 2; frames := 2; sampleRate := 24000;
                   channelData := [[decode_sample 1; decode_sample 3];
                                   [decode_sample 2; decode_sample 4]] |} !! 1%nat = Some cd /\
    int16_view [x01; x00; x02; x00; x03; x00; x04; x00] !! (1 * 2 + 1)%nat = Some v /\
    cd !! 1%nat = Some (decode_sample v).
Proof.
  apply (pcmToAudioBuffer_deinterleaves
           (Uint8Array_of_bytes [x01; x00; x02; x00; x03; x00; x04; x00])
           {| currentTime := 0 |} 24000 2 _ 1%nat 1%nat).
  - reflexivity.
  - lia.
  - simpl. lia.
Defined.

(** [pcmToAudioBuffer] is [pcmToAudioBuffer_on] on the nominal browser. *)
Lemma pcmToAudioBuffer_on_nominal (data0 : Uint8Array) (ctx : AudioContext)
    (rate : Q) (ch : nat) :
  pcmToAudioBuffer_on nominal_platform data0 ctx rate ch = pcmToAudioBuffer data0 ctx rate ch.
Proof.
  unfold pcmToAudioBuffer_on, pcmToAudioBuffer.
  destruct (new_Int16Array (buffer data0)) as [xs|e]; cbn [mbind result_bind bind_result];
    [|reflexivity].
  assert (E : forall len,
             createBuffer_on nominal_platform ctx ch len rate = createBuffer ctx ch len rate).
  { intros len. unfold createBuffer_on, createBuffer, nominal_platform.
    cbn [supports_channels supports_rate].
    rewrite (Nat.ltb_antisym ch 32), negb_andb.
    destruct (ch =? 0)%nat, (ch <=? 32)%nat, (Z.to_nat (Qfloor len) =? 0)%nat,
      (Qle_bool 8000 rate), (Qle_bool rate 96000); reflexivity. }
  rewrite E. reflexivity.
Qed.




End WireFacts.

(** ** The stored API key *)
Section ApiKeyFacts.
Import ApiKey.

Lemma tts_getApiKey_truthy (stored env : option string) :
  truthy (TtsService.getApiKey stored env) = is_some (TtsService.getApiKey stored env).
Proof.
  unfold TtsService.getApiKey.
  destruct (truthy stored) eqn:Es; [rewrite Es; destruct stored; [reflexivity | discriminate]|].
  destruct (truthy env) eqn:Ee; [rewrite Ee; destruct env; [reflexivity | discriminate]|].
  reflexivity.
Qed.

(** X9.  [getApiKey] returns a non-empty key or [undefined], never the
    empty string, so [hasApiKey] says exactly whether a key is returned.
    Once the stored key is removed, the answer is the key of the
    environment when that is a non-empty string, whatever else the storage
    holds, and [undefined] otherwise. *)
Theorem getApiKey_defined_or_absent (localStorage : gmap string string) (env : option string) :
  truthy (getApiKey localStorage env) = is_some (getApiKey localStorage env) /\
  hasApiKey localStorage env = is_some (getApiKey localStorage env) /\
  getApiKey (removeStoredApiKey localStorage) env = (if truthy env then env else None) /\
  hasApiKey (removeStoredApiKey localStorage) env = truthy env.
Proof.
  assert (Hrm : getApiKey (removeStoredApiKey localStorage) env
                = if truthy env then env else None).
  { unfold getApiKey, removeStoredApiKey. rewrite lookup_delete_eq. reflexivity. }
  repeat split.
  - apply tts_getApiKey_truthy.
  - apply tts_getApiKey_truthy.
  - exact Hrm.
  - unfold hasApiKey. rewrite Hrm. destruct (truthy env) eqn:E; [exact E | reflexivity].
Qed.

(** X10.  A key saved by [setStoredApiKey] is the key [getApiKey] returns
    from then on, before any key of the environment and whatever was
    stored before; saving the empty string is the same as removing the
    stored key.  Saving and removing leave every other entry of the
    storage alone. *)
Theorem stored_key_roundtrip (key : string) (localStorage : gmap string string)
    (env : option string) (other : string) :
  getApiKey (setStoredApiKey key localStorage) env =
    match key with
    | EmptyString => getApiKey (removeStoredApiKey localStorage) env
    | _ => Some key
    end /\
  getApiKey (removeStoredApiKey (setStoredApiKey key localStorage)) env =
    getApiKey (removeStoredApiKey localStorage) env /\
  (if decide (other = STORAGE_KEY) then True
   else setStoredApiKey key localStorage !! other = localStorage !! other /\
        removeStoredApiKey localStorage !! other = localStorage !! other).
Proof.
  split; [|split].
  - unfold getApiKey, setStoredApiKey, removeStoredApiKey.
    rewrite lookup_insert_eq, lookup_delete_eq.
    destruct key; reflexivity.
  - unfold getApiKey, setStoredApiKey, removeStoredApiKey.
    rewrite !lookup_delete_eq. reflexivity.
  - destruct (decide (other = STORAGE_KEY)) as [|Hne]; [exact I|].
    unfold setStoredApiKey, removeStoredApiKey.
    rewrite lookup_insert_ne, lookup_delete_ne by congruence. split; reflexivity.
Qed.

End ApiKeyFacts.

(** ** The narration sequencer on every state it reaches *)
Section NarrationFacts.
Import AudioUtils TtsService.

Lemma tts_run_snoc (es : list Event) (e : Event) (st : State) :
  run (es ++ [e]) st = step (run es st) e.
Proof. unfold run. rewrite fold_left_app. reflexivity. Qed.

Lemma graph_stop_playing (g : AudioGraph) (s : nat) :
  playing_in g s ->
  exists g', graph_stop s g = (Ok tt, g') /\ stopped_in g' s.
Proof.
  intros (n & Hn & Hs & _).
  destruct (graph_stop_started g s) as (g' & Hg & Hst & _); [exists n; split; assumption|].
  exists g'. split; assumption.
Qed.

Lemma stopTTS_spec (st : State) :
  exists st',
    stopTTS st = (Ok tt, st') /\
    currentPlaybackId st' = S (currentPlaybackId st) /\
    currentSource st' = None /\
    requests st' = requests st /\
    audioContext st' = audioContext st /\
    (forall s, currentSource st = Some s -> started_in (graph st) s ->
               stopped_in (graph st') s) /\
    (currentSource st = None -> st' = set_currentPlaybackId (S (currentPlaybackId st)) st).
Proof.
  unfold stopTTS, source_stop, disconnect. eff_unfold. cbn.
  destruct (currentSource st) as [s|] eqn:Es; cbn.
  - destruct (graph_stop s (graph st)) as [r g] eqn:Eg.
    destruct r as [[]|e]; cbn;
      (eexists; split; [reflexivity|]); cbn; repeat split; try discriminate.
    + intros s' [= <-] Hs.
      destruct (graph_stop_started (graph st) s Hs) as (g' & Hg' & Hst & _).
      assert (g' = g) by congruence. subst g'. exact Hst.
    + intros s' [= <-] Hs.
      destruct (graph_stop_started (graph st) s Hs) as (g' & Hg' & Hst & _).
      congruence.
  - eexists; split; [reflexivity|]. cbn.
    repeat split; intros; (discriminate || assumption || reflexivity).
Qed.

Lemma decode_response_context (st : State) (fresh : result AudioContext)
    (base64Audio : option string) (c : AudioContext) :
  audioContext st = Some c ->
  audioContext (snd (decode_response fresh base64Audio st)) = Some c.
Proof.
  intros Hc. unfold decode_response, getAudioContext. eff_unfold. rewrite Hc. cbn.
  rewrite Hc. cbn.
  destruct (base64Decode (default EmptyString base64Audio)) as [data0|e]; cbn; [|exact Hc].
  destruct (pcmToAudioBuffer data0 c 24000 1); cbn; exact Hc.
Qed.

Lemma start_playback_context (st : State) (my : nat) (audioBuffer : AudioBuffer) :
  audioContext (snd (start_playback my audioBuffer st)) = audioContext st.
Proof.
  unfold start_playback, createBufferSource, source_start, graph_create. eff_unfold. cbn.
  unfold graph_start. cbn. rewrite lookup_insert_eq. cbn. reflexivity.
Qed.

(** Every way the continuation of [playTTS] can go. *)
Lemma playTTS_resume_effect (st : State) (my : nat) (settled : result (option string))
    (fresh : result AudioContext) :
  exists p st',
    playTTS_resume my settled fresh st = (Ok p, st') /\
    currentPlaybackId st' = currentPlaybackId st /\
    requests st' = requests st /\
    (forall c, audioContext st = Some c -> audioContext st' = Some c) /\
    ((p = Resolved false /\ my <> currentPlaybackId st /\ st' = st) \/
     (p = Resolved true /\ my = currentPlaybackId st /\
      currentSource st' = currentSource st /\ graph st' = graph st) \/
     (p = Playing my (nextNode (graph st)) /\ my = currentPlaybackId st /\
      currentSource st' = Some (nextNode (graph st)) /\
      playing_in (graph st') (nextNode (graph st)))).
Proof.
  destruct (decide (my = currentPlaybackId st)) as [Hmy|Hne].
  2:{ exists (Resolved false), st. rewrite playTTS_resume_stale by exact Hne.
      repeat split; auto. }
  destruct settled as [b|e].
  - destruct (truthy b) eqn:Ht.
    + rewrite playTTS_resume_current by assumption.
      pose proof (fun c => decode_response_context st fresh b c) as Hctx.
      destruct (decode_response_cases st fresh b {| currentTime := 0 |})
        as (r & st1 & Hr & Hid & Hsrc & Hg & Hreq & _).
      rewrite Hr in *. cbn [snd] in Hctx. destruct r as [buf|e].
      * pose proof (start_playback_context st1 my buf) as Hc'.
        destruct (start_playback_ok st1 my buf) as (st' & H & Hid' & Hsrc' & Hreq' & Hnode).
        rewrite H in *. cbn [snd] in Hc'. rewrite Hg in *.
        exists (Playing my (nextNode (graph st))), st'.
        split; [reflexivity|]. split; [congruence|]. split; [congruence|].
        split; [intros c Hc; rewrite Hc'; apply Hctx; exact Hc|].
        right. right. repeat split; try assumption.
        eexists. split; [exact Hnode|]. split; reflexivity.
      * exists (Resolved true), st1.
        split; [reflexivity|]. split; [exact Hid|]. split; [exact Hreq|].
        split; [exact Hctx|]. right. left. repeat split; assumption.
    + rewrite playTTS_resume_empty by assumption.
      exists (Resolved true), st. repeat split; auto.
      right. left. repeat split; auto.
  - subst my. unfold playTTS_resume. eff_unfold. cbn. rewrite Nat.eqb_refl.
    exists (Resolved true), st. repeat split; auto.
    right. left. repeat split; auto.
Qed.

(** X11.  The promise of [playTTS] never rejects, whatever the response,
    the audio context constructor and the state are.  It resolves false
    exactly when its token is no longer the current one, and then nothing
    is touched; it resolves true at once, or starts a source that is then
    the current source and is playing, only when it holds the current
    token. *)
Theorem playTTS_resolves (st : State) (my : nat) (settled : result (option string))
    (fresh : result AudioContext) :
  exists p st',
    playTTS_resume my settled fresh st = (Ok p, st') /\
    currentPlaybackId st' = currentPlaybackId st /\
    match p with
    | Resolved false => my <> currentPlaybackId st /\ st' = st
    | Resolved true => my = currentPlaybackId st
    | Playing id source =>
        id = my /\ my = currentPlaybackId st /\
        currentSource st' = Some source /\ playing_in (graph st') source
    | Awaiting _ => False
    end.
Proof.
  destruct (playTTS_resume_effect st my settled fresh)
    as (p & st' & H & Hid & _ & _ & Hcases).
  exists p, st'. split; [exact H|]. split; [exact Hid|].
  destruct Hcases as [(-> & Hne & ->) | [(-> & Hmy & _) | (-> & Hmy & Hsrc & Hplay)]].
  - split; [exact Hne | reflexivity].
  - exact Hmy.
  - repeat split; assumption.
Qed.

(** What one turn of the event loop does to the playback state. *)
Lemma tts_step_effect (st : State) (e : Event) :
  let st' := step st e in
  currentPlaybackId st <= currentPlaybackId st' /\
  (forall c, audioContext st = Some c -> audioContext st' = Some c) /\
  (currentSource st' = None \/
   (currentSource st' = currentSource st /\ graph st' = graph st) \/
   (exists s, currentSource st' = Some s /\ playing_in (graph st') s)) /\
  (requests st' = requests st \/
   (exists text, text <> EmptyString /\
      currentPlaybackId st' = S (currentPlaybackId st) /\
      requests st' = requests st ++ [(S (currentPlaybackId st), text)])).
Proof.
  cbv zeta. split; [apply token_step|].
  destruct e as [stored env text| |my settled fresh|my]; unfold step, handle;
    unfold mbind, Eff_bind, eff_bind.
  - destruct (truthy (getApiKey stored env)) eqn:Hk.
    + destruct (decide (text = EmptyString)) as [Ht|Ht].
      * rewrite playTTS_begin_skip by (right; exact Ht). cbn.
        split; [auto|]. split; [right; left; split; reflexivity | left; reflexivity].
      * destruct (playTTS_begin_issue st stored env text Hk Ht)
          as (st' & H & Hid & Hsrc & Hctx & Hreq & _).
        rewrite H. cbn. split; [intros c Hc; congruence|]. split; [left; exact Hsrc|].
        right. exists text. repeat split; assumption.
    + rewrite playTTS_begin_skip by (left; exact Hk). cbn.
      split; [auto|]. split; [right; left; split; reflexivity | left; reflexivity].
  - destruct (stopTTS_spec st) as (st' & H & Hid & Hsrc & Hreq & Hctx & _).
    rewrite H. cbn. split; [intros c Hc; congruence|]. split; [left; exact Hsrc|].
    left. exact Hreq.
  - destruct (playTTS_resume_effect st my settled fresh)
      as (p & st' & H & Hid & Hreq & Hctx & Hcases).
    rewrite H. cbn. split; [exact Hctx|]. split; [|left; exact Hreq].
    destruct Hcases as [(_ & _ & ->) | [(_ & _ & Hsrc & Hg) | (_ & _ & Hsrc & Hplay)]].
    + right. left. split; reflexivity.
    + right. left. split; assumption.
    + right. right. eexists. split; eassumption.
  - rewrite onended_spec. destruct (currentPlaybackId st =? my); cbn.
    + split; [auto|]. split; [left; reflexivity | left; reflexivity].
    + split; [auto|]. split; [right; left; split; reflexivity | left; reflexivity].
Qed.

(** X12.  In every state the sequencer reaches, the current source, when
    there is one, is a node that was started and never stopped.  So the
    [stop()] of a new request or of [stopTTS] does not throw: it stops the
    audio that plays. *)
Theorem current_source_is_playing (es : list Event) (s : nat) :
  currentSource (run es initial) = Some s ->
  playing_in (graph (run es initial)) s /\
  exists g', graph_stop s (graph (run es initial)) = (Ok tt, g') /\ stopped_in g' s.
Proof.
  intros Hs.
  assert (Hplay : playing_in (graph (run es initial)) s).
  { revert s Hs. induction es as [|e es IH] using rev_ind; intros s Hs; [discriminate|].
    rewrite tts_run_snoc in *.
    destruct (tts_step_effect (run es initial) e) as (_ & _ & Hsrc & _). cbv zeta in Hsrc.
    destruct Hsrc as [Hn | [[Hsame Hg] | (s' & Hs' & Hp)]].
    - congruence.
    - rewrite Hg. apply IH. congruence.
    - assert (s' = s) by congruence. subst s'. exact Hp. }
  split; [exact Hplay | apply graph_stop_playing; exact Hplay].
Qed.

Lemma current_source_is_playing_witness :
  let es := [EvPlay scenario_key None "hello";
             EvResponse 1 (Ok (Some scenario_audio)) (Ok {| currentTime := 0 |})] in
  playing_in (graph (run es initial)) 0 /\
  exists g', graph_stop 0 (graph (run es initial)) = (Ok tt, g') /\ stopped_in g' 0.
Proof.
  apply (current_source_is_playing
           [EvPlay scenario_key None "hello";
            EvResponse 1 (Ok (Some scenario_audio)) (Ok {| currentTime := 0 |})] 0).
  vm_compute. reflexivity.
Defined.

(** X13.  Every synthesis request sent carries a token of its own: in
    every state the sequencer reaches, the tokens of the requests sent so
    far are pairwise different, none is zero or larger than the current
    token, and no request was sent for an empty text. *)
Theorem request_tokens_distinct (es : list Event) :
  let st := run es initial in
  NoDup (map fst (requests st)) /\
  Forall (fun r => 1 <= fst r <= currentPlaybackId st /\ snd r <> EmptyString) (requests st).
Proof.
  cbv zeta. induction es as [|e es [IHn IHf]] using rev_ind.
  - split; [constructor | constructor].
  - rewrite tts_run_snoc.
    destruct (tts_step_effect (run es initial) e) as (Hle & _ & _ & Hreq). cbv zeta in Hle, Hreq.
    destruct Hreq as [-> | (text & Ht & Hid & ->)].
    + split; [exact IHn|]. eapply Forall_impl; [exact IHf|].
      intros r [Hr Hne]. split; [lia | exact Hne].
    + rewrite Hid. split.
      * rewrite map_app. cbn [map fst]. apply NoDup_app. split; [exact IHn|]. split.
        -- intros x Hx Hin. apply list_elem_of_singleton in Hin. subst x.
           apply list_elem_of_fmap in Hx as (r & Hr & Hin).
           apply (proj1 (list.Forall_forall _ _) IHf) in Hin. cbn in Hr. lia.
        -- apply NoDup_singleton.
      * apply Forall_app. split.
        -- eapply Forall_impl; [exact IHf|]. intros r [Hr Hne]. split; [lia | exact Hne].
        -- constructor; [|constructor]. cbn [fst snd]. split; [lia | exact Ht].
Qed.

(** X14.  [stopTTS] does not throw; it takes the token, clears the current
    source and sends nothing.  From then on every call of [playTTS] that
    was pending resolves false and touches nothing, whenever its response
    arrives or its source ends, and whatever happens in between. *)
Theorem stopTTS_cancels_pending (st : State) (my : nat) (es : list Event)
    (settled : result (option string)) (fresh : result AudioContext) :
  my <= currentPlaybackId st ->
  exists st',
    stopTTS st = (Ok tt, st') /\
    currentPlaybackId st' = S (currentPlaybackId st) /\
    currentSource st' = None /\
    requests st' = requests st /\
    playTTS_resume my settled fresh (run es st') = (Ok (Resolved false), run es st') /\
    onended my (run es st') = (Ok (Resolved false), run es st').
Proof.
  intros Hmy.
  destruct (stopTTS_spec st) as (st' & H & Hid & Hsrc & Hreq & _).
  exists st'. split; [exact H|]. split; [exact Hid|]. split; [exact Hsrc|].
  split; [exact Hreq|].
  pose proof (token_run es st') as Hrun.
  split.
  - apply playTTS_resume_stale. lia.
  - rewrite onended_spec.
    destruct (Nat.eqb_spec (currentPlaybackId (run es st')) my) as [E|E]; [lia | reflexivity].
Qed.

Lemma stopTTS_cancels_pending_witness :
  let st := run [EvPlay scenario_key None "hello"] initial in
  exists st',
    stopTTS st = (Ok tt, st') /\
    currentPlaybackId st' = 2 /\
    currentSource st' = None /\
    requests st' = requests st /\
    playTTS_resume 1 (Ok (Some scenario_audio)) (Ok {| currentTime := 0 |}) (run [] st')
      = (Ok (Resolved false), run [] st') /\
    onended 1 (run [] st') = (Ok (Resolved false), run [] st').
Proof.
  apply (stopTTS_cancels_pending (run [EvPlay scenario_key None "hello"] initial) 1 []
           (Ok (Some scenario_audio)) (Ok {| currentTime := 0 |})).
  vm_compute. lia.
Defined.

(** X15.  The audio context of the narration is created once: after a
    call of [getAudioContext] that returned a context, every later call
    returns that same context without calling the constructor, and no
    event replaces or drops it. *)
Theorem audio_context_created_once (st st1 : State) (c : AudioContext)
    (fresh fresh' : result AudioContext) (es : list Event) :
  getAudioContext fresh st = (Ok c, st1) ->
  audioContext (run es st1) = Some c /\
  getAudioContext fresh' (run es st1) = (Ok c, run es st1).
Proof.
  intros H.
  assert (Hc : audioContext st1 = Some c).
  { revert H. unfold getAudioContext. eff_unfold.
    destruct (audioContext st) as [c0|] eqn:E0; cbn.
    - rewrite E0. cbn. intros [= <- <-]. exact E0.
    - destruct fresh as [c0|e]; cbn; [|discriminate]. intros [= <- <-]. reflexivity. }
  assert (Hrun : audioContext (run es st1) = Some c).
  { induction es as [|e es IH] using rev_ind; [exact Hc|].
    rewrite tts_run_snoc.
    destruct (tts_step_effect (run es st1) e) as (_ & Hctx & _). apply Hctx. exact IH. }
  split; [exact Hrun|].
  unfold getAudioContext. eff_unfold. rewrite Hrun. cbn. rewrite Hrun. reflexivity.
Qed.

Lemma audio_context_created_once_witness :
  let c := {| currentTime := 5 |} in
  let st1 := set_audioContext (Some c) initial in
  audioContext (run [EvStop] st1) = Some c /\
  getAudioContext (Throw NotSupportedError) (run [EvStop] st1) = (Ok c, run [EvStop] st1).
Proof.
  apply (audio_context_created_once initial _ {| currentTime := 5 |}
           (Ok {| currentTime := 5 |}) (Throw NotSupportedError) [EvStop]).
  reflexivity.
Defined.

End NarrationFacts.

(** ** The live tutor: what every event sequence keeps, late events, start and teardown *)
Section SessionFacts.
Import AudioUtils LiveTutor.

Lemma live_run_snoc (es : list Event) (e : Event) (st : State) :
  run (es ++ [e]) st = step (run es st) e.
Proof. unfold run. rewrite fold_left_app. reflexivity. Qed.

Lemma playing_started (g : AudioGraph) (s : nat) : playing_in g s -> started_in g s.
Proof. intros (n & Hn & Hs & _). exists n. split; assumption. Qed.

Lemma playing_step (st : State) (e : Event) :
  (forall s, s ∈ activeSourcesRef st -> playing_in (graph st) s) ->
  forall s, s ∈ activeSourcesRef (step st e) -> playing_in (graph (step st e)) s.
Proof.
  intros Hinv.
  assert (Hstarted : active_started st).
  { intros s Hs. apply playing_started, Hinv, Hs. }
  assert (Hsub : forall st', activeSourcesRef st' ⊆ activeSourcesRef st ->
                   graph st' = graph st ->
                   forall s, s ∈ activeSourcesRef st' -> playing_in (graph st') s).
  { intros st' Ha Hg s Hs. rewrite Hg. apply Hinv, Ha, Hs. }
  assert (Hframe : forall st', activeSourcesRef st' = activeSourcesRef st ->
                     graph st' = graph st ->
                     forall s, s ∈ activeSourcesRef st' -> playing_in (graph st') s).
  { intros st' Ha Hg. apply Hsub; [rewrite Ha; reflexivity | exact Hg]. }
  assert (Hempty : forall st', activeSourcesRef st' = ∅ ->
                     forall s, s ∈ activeSourcesRef st' -> playing_in (graph st') s).
  { intros st' Ha s Hs. rewrite Ha in Hs. apply not_elem_of_empty in Hs. contradiction. }
  assert (Hint : forall st1 message,
             (forall s, s ∈ activeSourcesRef st1 -> playing_in (graph st1) s) ->
             forall s, s ∈ activeSourcesRef (snd (handle_interruption message st1)) ->
                       playing_in (graph (snd (handle_interruption message st1))) s).
  { intros st1 message H1. destruct (interrupted message) eqn:Ei.
    - destruct (handle_interruption_ok st1 message) as (st' & H & Hact & _).
      + intros s Hs. apply playing_started, H1, Hs.
      + exact Ei.
      + rewrite H. cbn [snd]. intros s Hs. rewrite Hact in Hs.
        apply not_elem_of_empty in Hs. contradiction.
    - rewrite handle_interruption_skip by exact Ei. exact H1. }
  destruct e as [k|got ni no sess| | |m| | |s0|sup|got timer| |n d].
  - apply Hframe; apply (step_frame st (EvStartSession k) I).
  - destruct (step_userMedia st got ni no sess) as [(? & ? & ? & _ & _ & _ & Ha & Hg & _)|[Ha _]].
    + apply Hframe; assumption.
    + apply Hempty. exact Ha.
  - apply Hempty. apply (step_stop st EvStopSession I).
  - apply Hframe; apply (step_frame st EvOpen I).
  - unfold step, handle. rewrite onmessage_blocks.
    destruct (schedule_playback_cases st m)
      as [(ctx & data0 & buf & st1 & _ & _ & _ & _ & H1 & Hnode & Hother & Hact & _)|[r Hr]].
    + rewrite H1. apply Hint. intros s Hs.
      destruct (decide (s = nextNode (graph st))) as [-> | Hne].
      * eexists. split; [exact Hnode|]. split; reflexivity.
      * rewrite Hact in Hs. apply elem_of_union in Hs as [Hs | Hs];
          [apply elem_of_singleton in Hs; contradiction|].
        destruct (Hinv s Hs) as (n' & Hn' & Hp).
        exists n'. rewrite Hother by exact Hne. split; assumption.
    + rewrite Hr. destruct r; [apply Hint|]; exact Hinv.
  - apply Hempty. apply (step_stop st EvClose I).
  - apply Hempty. apply (step_stop st EvError I).
  - destruct (step_ended st s0) as (Ha & Hg & _).
    apply Hsub; [rewrite Ha; apply subseteq_difference_l; reflexivity | exact Hg].
  - apply Hframe; apply (step_frame st (EvStartScreenShare sup) I).
  - apply Hframe; apply (step_frame st (EvDisplayMedia got timer) I).
  - apply Hframe; apply (step_frame st EvStopScreenShare I).
  - apply Hframe; apply (step_frame st (EvTick n d) I).
Qed.

(** X16.  Whatever events the component has handled, every handle of the
    active set is a node that was started and on which [stop] was never
    called: the barge-in and the teardown stop a handle at most once, and
    nothing else stops one. *)
Theorem active_sources_playing (es : list Event) (s : nat) :
  s ∈ activeSourcesRef (run es initial) ->
  playing_in (graph (run es initial)) s.
Proof.
  revert s. induction es as [|e es IH] using rev_ind; intros s Hs.
  - apply not_elem_of_empty in Hs. contradiction.
  - rewrite live_run_snoc in *. apply playing_step; assumption.
Qed.

Lemma active_sources_playing_witness :
  playing_in
    (graph (run (scenario_started ++ [EvMessage scenario_chunk; EvMessage scenario_chunk])
                initial)) 1.
Proof.
  apply (active_sources_playing
           (scenario_started ++ [EvMessage scenario_chunk; EvMessage scenario_chunk]) 1).
  vm_compute. reflexivity.
Defined.

(** A component with no output context and nothing scheduled drops every
    message. *)
Lemma idle_onmessage (st : State) (message : LiveServerMessage) :
  outputContextRef st = None -> activeSourcesRef st = ∅ ->
  onmessage message st = (Ok tt, st).
Proof.
  intros Hout Hact. rewrite onmessage_blocks.
  destruct (schedule_playback_skip st message) as (r & Hr & Hthrow); [right; left; exact Hout|].
  rewrite Hr. destruct r as [[]|e].
  - destruct (interrupted message) eqn:Ei.
    + unfold handle_interruption. rewrite Ei. eff_unfold. rewrite Hact, elements_empty.
      cbn. rewrite Hout. cbn.
      destruct st; cbn in *; subst; reflexivity.
    + apply handle_interruption_skip. exact Ei.
  - destruct (Hthrow eq_refl) as (ctx & _ & Hc). congruence.
Qed.

(** X17.  After [stopSession], a message that still arrives is dropped,
    whatever it carries: nothing is decoded, scheduled or stopped, nothing
    is thrown, and the state stays as the teardown left it.  The same holds
    for the [onended] of a handle the teardown stopped. *)
Theorem late_events_after_stop (st : State) (messages : list LiveServerMessage) (s : nat) :
  exists st',
    stopSession st = (Ok tt, st') /\
    Forall (fun message => onmessage message st' = (Ok tt, st')) messages /\
    run (map EvMessage messages) st' = st' /\
    onended s st' = (Ok tt, st').
Proof.
  destruct (stopSession_ok st) as (st' & H & Hrel & Hact & _).
  destruct Hrel as (_ & Hout & _).
  exists st'. split; [exact H|].
  assert (Hm : forall message, onmessage message st' = (Ok tt, st'))
    by (intros message; apply idle_onmessage; assumption).
  split; [|split].
  - apply List.Forall_forall. intros message _. apply Hm.
  - induction messages as [|message messages IH]; [reflexivity|].
    cbn [map run fold_left]. unfold step at 2, handle. rewrite Hm. exact IH.
  - unfold onended. eff_unfold. rewrite Hact.
    assert (E : (∅ : gset nat) ∖ {[ s ]} = ∅).
    { apply set_eq. intros x. rewrite elem_of_difference. split; [intros [Hx _]; exact Hx|].
      intros Hx. apply not_elem_of_empty in Hx. contradiction. }
    rewrite E. destruct st'; cbn in *; subst; reflexivity.
Qed.

(** X18.  A message whose audio payload does not decode makes [onmessage]
    throw before anything is written: the state is unchanged, and the
    interruption flag of that message, if it is set, is not acted on. *)
Theorem malformed_chunk_rejected (st : State) (ctx : AudioContext)
    (message : LiveServerMessage) :
  outputContextRef st = Some ctx ->
  truthy (inlineData message) = true ->
  is_ok (decode_audio (default EmptyString (inlineData message)) ctx) = false ->
  exists e, onmessage message st = (Throw e, st).
Proof.
  intros Hout Ht Hbad. rewrite onmessage_blocks.
  unfold schedule_playback. eff_unfold. rewrite Hout, Ht. cbn [andb is_some].
  unfold decode_audio in Hbad.
  destruct (base64Decode (default EmptyString (inlineData message))) as [data0|e]; cbn in Hbad |- *.
  - destruct (pcmToAudioBuffer data0 ctx 24000 1) as [b|e]; [discriminate|].
    cbn. eexists. reflexivity.
  - eexists. reflexivity.
Qed.

Lemma malformed_chunk_rejected_witness :
  let st := run (scenario_started ++ [EvMessage scenario_chunk]) initial in
  exists e, onmessage {| inlineData := Some "AAD/"%string; interrupted := true |} st
            = (Throw e, st).
Proof.
  apply (malformed_chunk_rejected
           (run (scenario_started ++ [EvMessage scenario_chunk]) initial) scenario_ctx
           {| inlineData := Some "AAD/"%string; interrupted := true |}).
  - vm_compute. reflexivity.
  - reflexivity.
  - vm_compute. reflexivity.
Defined.


(** X20.  The button of the live tutor does not throw.  Pressed while the
    session is active or connecting it tears the session down; pressed on
    an idle component it only raises the connecting flag, and without an
    API key it changes nothing. *)
Theorem toggleSession_cases (st : State) (apiKey : bool) :
  exists r st',
    toggleSession apiKey st = (Ok r, st') /\
    if isActive st || isConnecting st
    then r = false /\ handles_released st' /\ isActive st' = false /\
         isConnecting st' = false /\ activeSourcesRef st' = ∅
    else if apiKey then r = true /\ st' = set_isConnecting true st
    else r = false /\ st' = st.
Proof.
  unfold toggleSession. eff_unfold.
  destruct (isActive st || isConnecting st) eqn:E.
  - destruct (stopSession_ok st) as (st' & H & Hrel & Hact & Ha & Hc & _).
    rewrite H. exists false, st'. split; [reflexivity|]. repeat split; try assumption; apply Hrel.
  - unfold startSession_begin. destruct apiKey; cbn.
    + eexists _, _. split; [reflexivity|]. split; reflexivity.
    + eexists _, _. split; [reflexivity|]. split; reflexivity.
Qed.

End SessionFacts.

(** ** Screen sharing, and a burst of audio chunks *)
Section ShareFacts.
Import AudioUtils LiveTutor.

(** The teardown of the session, on the screen side, is [stopScreenShare]. *)
Lemma stopSession_screen (st : State) :
  exists st1 st',
    stopScreenShare st = (Ok tt, st1) /\
    stopSession st = (Ok tt, st') /\
    liveTracks st' = liveTracks st1 /\ timers st' = timers st1 /\
    screenStreamRef st' = None /\ screenIntervalRef st' = None /\
    isScreenSharing st' = false /\ isSharingLoading st' = isSharingLoading st1.
Proof.
  destruct (stopScreenShare_ok st) as (st1 & H1 & Hs & Hi & Hsh & _).
  exists st1. unfold stopSession.
  rewrite (bind_ok _ _ _ _ _ H1).
  erewrite bind_ok;
    [| apply release_noop; [reflexivity | destruct st1; cbn; intros ->; reflexivity]].
  erewrite bind_ok;
    [| apply release_noop; [reflexivity | destruct st1; cbn; intros ->; reflexivity]].
  erewrite bind_ok;
    [| apply release_noop; [reflexivity | destruct st1; cbn; intros ->; reflexivity]].
  erewrite bind_ok;
    [| apply release_noop; [reflexivity | destruct st1; cbn; intros ->; reflexivity]].
  erewrite bind_ok; [| reflexivity].
  match goal with
  | |- context [forEach ?l ?f] =>
      match goal with
      | |- exists st', _ /\ (_ ≫= _) ?s = _ /\ _ => destruct (forEach_guarded_stop l s) as [g Hg]
      end
  end.
  erewrite bind_ok; [| exact Hg].
  eexists. split; [exact H1|]. split; [reflexivity|].
  cbn. repeat split; assumption.
Qed.

Lemma stopScreenShare_loading (st : State) :
  isSharingLoading (snd (stopScreenShare st)) = false.
Proof.
  destruct st as [? ? ? ? inC outC inS proc next act video scrS scrI sess g live tms].
  destruct scrI, scrS, video; reflexivity.
Qed.

(** X21.  A screen share that started is released by every way the
    component stops it: after the stop button of the share, the stop of the
    session, a remote close or a session error, the shared track has been
    stopped and the capture timer cleared, and the two refs are null. *)
Theorem screen_share_released (st : State) (stream : MediaStream) (timer : nat) (e : Event) :
  (e = EvStopScreenShare \/ e = EvStopSession \/ e = EvClose \/ e = EvError) ->
  let st1 := step st (EvDisplayMedia (Ok stream) timer) in
  let st2 := step st1 e in
  (screenStreamRef st1 = Some stream /\ screenIntervalRef st1 = Some timer /\
   stream ∈ liveTracks st1 /\ timer ∈ timers st1 /\
   isScreenSharing st1 = true /\ isSharingLoading st1 = false) /\
  (screenStreamRef st2 = None /\ screenIntervalRef st2 = None /\
   (stream ∉ liveTracks st2) /\ (timer ∉ timers st2) /\
   isScreenSharing st2 = false).
Proof.
  intros He. cbv zeta.
  assert (H1 : let st1 := step st (EvDisplayMedia (Ok stream) timer) in
               screenStreamRef st1 = Some stream /\ screenIntervalRef st1 = Some timer /\
               stream ∈ liveTracks st1 /\ timer ∈ timers st1 /\
               isScreenSharing st1 = true /\ isSharingLoading st1 = false).
  { unfold step, handle, getDisplayMedia_settled, getUserMedia_settled,
      startScreenShare_resume. eff_unfold.
    destruct (videoRef st) eqn:Ev; cbn; rewrite Ev; cbn; repeat split; try reflexivity;
      apply elem_of_union_l, elem_of_singleton; reflexivity. }
  cbv zeta in H1. split; [exact H1|].
  destruct H1 as (Hs & Ht & _).
  remember (step st (EvDisplayMedia (Ok stream) timer)) as st1 eqn:E1. clear E1.
  destruct (stopScreenShare_ok st1)
    as (st1' & Hstop & Hs' & Ht' & Hsh & Hlive & Htimer & _).
  destruct He as [-> | He].
  - unfold step, handle. rewrite Hstop. cbn [snd].
    repeat split; try assumption; [apply Hlive | apply Htimer]; assumption.
  - destruct (stopSession_screen st1) as (st1'' & st' & Hstop' & H & Hl & Htm & Hs2 & Ht2 & Hsh2 & _).
    assert (st1'' = st1') by congruence. subst st1''.
    assert (Hstep : step st1 e = st').
    { destruct He as [-> | [-> | ->]]; unfold step, handle, onclose, onerror;
        rewrite H; reflexivity. }
    rewrite Hstep. repeat split; try assumption.
    + rewrite Hl. apply Hlive. exact Hs.
    + rewrite Htm. apply Htimer. exact Ht.
Qed.

Lemma screen_share_released_witness :
  let st1 := step (run scenario_started initial) (EvDisplayMedia (Ok 9) 3) in
  let st2 := step st1 EvClose in
  (screenStreamRef st1 = Some 9 /\ screenIntervalRef st1 = Some 3 /\
   9 ∈ liveTracks st1 /\ 3 ∈ timers st1 /\
   isScreenSharing st1 = true /\ isSharingLoading st1 = false) /\
  (screenStreamRef st2 = None /\ screenIntervalRef st2 = None /\
   (9 ∉ liveTracks st2) /\ (3 ∉ timers st2) /\
   isScreenSharing st2 = false).
Proof.
  apply (screen_share_released (run scenario_started initial) 9 3 EvClose).
  right. right. left. reflexivity.
Defined.

(** X22.  [startScreenShare] does nothing unless the session is active and
    the browser can share a screen.  When the user or the browser refuses
    the share, nothing is thrown, the screen refs are null, and the
    component is neither sharing nor loading; the session itself is left
    as it was. *)
Theorem screen_share_refused (st : State) (supported : bool) (e : JsError) (timer : nat) :
  startScreenShare_begin supported st =
    (if isActive st && supported
     then (Ok true, set_isSharingLoading true st)
     else (Ok false, st)) /\
  exists st',
    startScreenShare_resume (Throw e) timer st = (Ok tt, st') /\
    step st (EvDisplayMedia (Throw e) timer) = st' /\
    screenStreamRef st' = None /\ screenIntervalRef st' = None /\
    isScreenSharing st' = false /\ isSharingLoading st' = false /\
    isActive st' = isActive st /\ sessionRef st' = sessionRef st /\
    outputContextRef st' = outputContextRef st /\
    activeSourcesRef st' = activeSourcesRef st /\
    nextStartTimeRef st' = nextStartTimeRef st /\
    liveTracks st' ⊆ liveTracks st.
Proof.
  split.
  - unfold startScreenShare_begin. eff_unfold.
    destruct (isActive st), supported; reflexivity.
  - destruct (stopScreenShare_ok st)
      as (st1 & H1 & Hs & Hi & Hsh & _ & _ & Hsub & _ & Ha & _ & _ & Hout & _ & _
          & Hnext & Hact & Hsess & _).
    unfold step, handle, getDisplayMedia_settled, getUserMedia_settled,
      startScreenShare_resume. eff_unfold. cbn. rewrite H1.
    eexists. split; [reflexivity|]. split; [reflexivity|]. cbn.
    repeat split; assumption.
Qed.

Lemma chunk_step (st : State) (ctx : AudioContext) (message : LiveServerMessage)
    (b : AudioBuffer) :
  outputContextRef st = Some ctx ->
  truthy (inlineData message) = true ->
  interrupted message = false ->
  decode_audio (default EmptyString (inlineData message)) ctx = Ok b ->
  let st1 := step st (EvMessage message) in
  let t := Qmax (nextStartTimeRef st) (currentTime ctx) in
  outputContextRef st1 = Some ctx /\
  nextStartTimeRef st1 = (t + duration b)%Q /\
  nextNode (graph st1) = S (nextNode (graph st)) /\
  nodes (graph st1) !! nextNode (graph st) =
    Some {| node_buffer := b; startedAt := Some t; stopped := false |} /\
  (forall s, s <> nextNode (graph st) -> nodes (graph st1) !! s = nodes (graph st) !! s) /\
  activeSourcesRef st1 = {[ nextNode (graph st) ]} ∪ activeSourcesRef st /\
  (0 < duration b)%Q.
Proof.
  intros Hout Ht Hi Hd. cbv zeta. unfold decode_audio in Hd.
  destruct (base64Decode (default EmptyString (inlineData message))) as [data0|e] eqn:Ed;
    cbn in Hd; [|discriminate].
  destruct (schedule_playback_ok st ctx message data0 b Hout Ht Ed Hd)
    as (st' & H & Hnode & Hother & Hnext & Hact & Htime & Hout').
  unfold step, handle. rewrite onmessage_blocks, H, handle_interruption_skip by exact Hi.
  cbn [snd]. repeat split; try assumption.
  eapply pcmToAudioBuffer_duration. exact Hd.
Qed.

Lemma Qmax_ahead (next now : Q) : (now <= next)%Q -> Qmax next now = next.
Proof.
  intros H. rewrite Qmax_code. unfold Qltb.
  destruct (next ?= now)%Q eqn:E; try reflexivity.
  change (next < now)%Q in E. lra.
Qed.

(** A burst of chunks, link by link. *)
Lemma burst_chain (ctx : AudioContext) (messages : list LiveServerMessage)
    (buffers : list AudioBuffer) :
  Forall2 (fun message b =>
             truthy (inlineData message) = true /\ interrupted message = false /\
             decode_audio (default EmptyString (inlineData message)) ctx = Ok b)
          messages buffers ->
  forall st,
  outputContextRef st = Some ctx ->
  let st' := run (map EvMessage messages) st in
  (buffers = [] -> st' = st) /\
  (forall s, (s < nextNode (graph st))%nat -> nodes (graph st') !! s = nodes (graph st) !! s) /\
  (forall s, s ∈ activeSourcesRef st -> s ∈ activeSourcesRef st') /\
  (forall i x, buffers !! i = Some x ->
     exists t,
       nodes (graph st') !! (nextNode (graph st) + i)%nat =
         Some {| node_buffer := x; startedAt := Some t; stopped := false |} /\
       (nextNode (graph st) + i)%nat ∈ activeSourcesRef st' /\
       (i = 0%nat -> t = Qmax (nextStartTimeRef st) (currentTime ctx)) /\
       match buffers !! Datatypes.S i with
       | Some y =>
           nodes (graph st') !! (nextNode (graph st) + Datatypes.S i)%nat =
             Some {| node_buffer := y; startedAt := Some (t + duration x)%Q; stopped := false |}
       | None => nextStartTimeRef st' = (t + duration x)%Q
       end).
Proof.
  induction 1 as [|message b messages buffers (Ht & Hi & Hd) Hrest IH]; intros st Hout.
  - cbv zeta. cbn. split; [reflexivity|]. split; [reflexivity|]. split; [auto|].
    intros i x Hx. rewrite lookup_nil in Hx. discriminate.
  - cbv zeta. cbn [map run fold_left].
    destruct (chunk_step st ctx message b Hout Ht Hi Hd)
      as (Hout1 & Hnext1 & Hnn1 & Hnode1 & Hother1 & Hact1 & Hdur).
    cbv zeta in Hout1, Hnext1, Hnn1, Hnode1, Hother1, Hact1.
    remember (step st (EvMessage message)) as st1 eqn:E1. clear E1.
    pose proof (Q.le_max_r (nextStartTimeRef st) (currentTime ctx)) as Hmax.
    remember (Qmax (nextStartTimeRef st) (currentTime ctx)) as t0 eqn:Et0. clear Et0.
    assert (Hahead1 : Qmax (nextStartTimeRef st1) (currentTime ctx) = (t0 + duration b)%Q).
    { rewrite Hnext1. apply Qmax_ahead. lra. }
    destruct (IH st1 Hout1) as (Hnil & Hpre & Hsub & Hmain). cbv zeta in Hnil, Hpre, Hsub, Hmain.
    fold (run (map EvMessage messages) st1).
    split; [discriminate|]. split; [|split].
    + intros s Hs. rewrite Hpre by lia. apply Hother1. lia.
    + intros s Hs. apply Hsub. rewrite Hact1. apply elem_of_union_r. exact Hs.
    + intros i x Hx. destruct i as [|j]; cbn in Hx.
      * injection Hx as <-. exists t0. rewrite Nat.add_0_r.
        split; [rewrite Hpre by lia; exact Hnode1|].
        split; [apply Hsub; rewrite Hact1; apply elem_of_union_l, elem_of_singleton;
                reflexivity|].
        split; [reflexivity|].
        change ((b :: buffers) !! 1%nat) with (buffers !! 0%nat).
        destruct buffers as [|y buffers'].
        -- cbn. rewrite (Hnil eq_refl). exact Hnext1.
        -- cbn. destruct (Hmain 0%nat y eq_refl) as (t' & Hnode' & _ & Ht' & _).
           rewrite (Ht' eq_refl), Hahead1 in Hnode'.
           replace (nextNode (graph st) + 1)%nat with (nextNode (graph st1) + 0)%nat by lia.
           exact Hnode'.
      * destruct (Hmain j x Hx) as (t & Hnode & Hin & _ & Hlink).
        exists t.
        replace (nextNode (graph st) + Datatypes.S j)%nat
          with (nextNode (graph st1) + j)%nat by lia.
        split; [exact Hnode|]. split; [exact Hin|]. split; [discriminate|].
        change ((b :: buffers) !! Datatypes.S (Datatypes.S j))
          with (buffers !! Datatypes.S j).
        replace (nextNode (graph st) + Datatypes.S (Datatypes.S j))%nat
          with (nextNode (graph st1) + Datatypes.S j)%nat by lia.
        exact Hlink.
Qed.

(** X23.  A burst of audio messages, none with the interruption flag,
    each with a payload that decodes, handled one after the other on the
    same reading of the clock: every buffer gets a handle of its own that
    is started, not stopped, and in the active set; the first buffer
    starts at [max(nextStart, now)]; every other buffer starts at the
    start of the one before it plus the duration of that one; and
    [nextStartTimeRef] is left at the start of the last buffer plus its
    duration. *)
Theorem burst_gapless (st : State) (ctx : AudioContext)
    (messages : list LiveServerMessage) (buffers : list AudioBuffer)
    (i : nat) (x : AudioBuffer) :
  outputContextRef st = Some ctx ->
  Forall2 (fun message b =>
             truthy (inlineData message) = true /\ interrupted message = false /\
             decode_audio (default EmptyString (inlineData message)) ctx = Ok b)
          messages buffers ->
  buffers !! i = Some x ->
  let st' := run (map EvMessage messages) st in
  exists t,
    nodes (graph st') !! (nextNode (graph st) + i)%nat =
      Some {| node_buffer := x; startedAt := Some t; stopped := false |} /\
    (nextNode (graph st) + i)%nat ∈ activeSourcesRef st' /\
    (i = 0%nat -> t = Qmax (nextStartTimeRef st) (currentTime ctx)) /\
    match buffers !! Datatypes.S i with
    | Some y =>
        nodes (graph st') !! (nextNode (graph st) + Datatypes.S i)%nat =
          Some {| node_buffer := y; startedAt := Some (t + duration x)%Q; stopped := false |}
    | None => nextStartTimeRef st' = (t + duration x)%Q
    end.
Proof.
  intros Hout HF Hx.
  destruct (burst_chain ctx messages buffers HF st Hout) as (_ & _ & _ & Hmain).
  apply Hmain. exact Hx.
Qed.

Lemma burst_gapless_witness :
  let st := run scenario_started initial in
  let st' := run (map EvMessage [scenario_chunk; scenario_chunk; scenario_chunk]) st in
  exists t,
    nodes (graph st') !! (nextNode (graph st) + 1)%nat =
      Some {| node_buffer := scenario_buffer; startedAt := Some t; stopped := false |} /\
    (nextNode (graph st) + 1)%nat ∈ activeSourcesRef st' /\
    (1%nat = 0%nat -> t = Qmax (nextStartTimeRef st) (currentTime scenario_ctx)) /\
    nodes (graph st') !! (nextNode (graph st) + 2)%nat =
      Some {| node_buffer := scenario_buffer;
              startedAt := Some (t + duration scenario_buffer)%Q; stopped := false |}.
Proof.
  apply (burst_gapless (run scenario_started initial) scenario_ctx
           [scenario_chunk; scenario_chunk; scenario_chunk]
           [scenario_buffer; scenario_buffer; scenario_buffer] 1 scenario_buffer).
  - reflexivity.
  - repeat constructor; vm_compute; reflexivity.
  - reflexivity.
Defined.

End ShareFacts.

(** ** App.tsx: breakpoints, step buttons, the playback loop *)
Section AppFacts.
Import App.
Local Open Scope Z_scope.

Lemma includes_filter (prev : list Z) (l l' : Z) :
  includes (List.filter (fun y => negb (y =? l)) prev) l' = includes prev l' && negb (l' =? l).
Proof.
  unfold includes. induction prev as [|y prev IH]; [reflexivity|].
  cbn [List.filter existsb].
  destruct (y =? l) eqn:Ey; cbn [negb existsb]; rewrite IH.
  - apply Z.eqb_eq in Ey. subst y.
    destruct (l' =? l); cbn; [rewrite andb_false_r | rewrite andb_true_r]; reflexivity.
  - destruct (l' =? y) eqn:El; cbn; [|reflexivity].
    apply Z.eqb_eq in El. subst l'. rewrite Ey. reflexivity.
Qed.

Lemma includes_snoc (prev : list Z) (l l' : Z) :
  includes (prev ++ [l]) l' = includes prev l' || (l' =? l).
Proof. unfold includes. rewrite existsb_app. cbn. rewrite orb_false_r. reflexivity. Qed.

Lemma filter_absent (prev : list Z) (l : Z) :
  includes prev l = false -> List.filter (fun y => negb (y =? l)) prev = prev.
Proof.
  unfold includes. induction prev as [|y prev IH]; [reflexivity|].
  cbn [existsb List.filter]. intros H. apply orb_false_elim in H as [Hy Hrest].
  rewrite Z.eqb_sym in Hy. rewrite Hy. cbn [negb]. rewrite IH by exact Hrest. reflexivity.
Qed.

(** X24.  [handleToggleBreakpoint] flips the breakpoint of its line and of
    no other line, also when the list holds the line more than once.  It
    keeps a list without repetition free of repetition, and toggling a line
    that has no breakpoint twice gives the list back. *)
Theorem toggle_breakpoint (st : State) (l l' : Z) :
  includes (breakpoints (handleToggleBreakpoint l st)) l' =
    (if l' =? l then negb (includes (breakpoints st) l) else includes (breakpoints st) l') /\
  (NoDup (breakpoints st) -> NoDup (breakpoints (handleToggleBreakpoint l st))) /\
  (includes (breakpoints st) l = false ->
   breakpoints (handleToggleBreakpoint l (handleToggleBreakpoint l st)) = breakpoints st).
Proof.
  unfold handleToggleBreakpoint. cbn [breakpoints set_breakpoints].
  split; [|split].
  - destruct (includes (breakpoints st) l) eqn:E.
    + rewrite includes_filter. destruct (Z.eqb_spec l' l) as [-> | Hne]; cbn.
      * apply andb_false_r.
      * apply andb_true_r.
    + rewrite includes_snoc. destruct (Z.eqb_spec l' l) as [-> | Hne]; cbn.
      * apply orb_true_r.
      * apply orb_false_r.
  - intros Hnd. destruct (includes (breakpoints st) l) eqn:E.
    + apply NoDup_ListNoDup. apply List.NoDup_filter. apply NoDup_ListNoDup. exact Hnd.
    + apply NoDup_app. split; [exact Hnd|]. split; [|apply NoDup_singleton].
      intros x Hx Hin. apply list_elem_of_singleton in Hin. subst x.
      apply list_elem_of_In in Hx.
      assert (Hc : includes (breakpoints st) l = true).
      { unfold includes. apply existsb_exists. exists l. split; [exact Hx | apply Z.eqb_refl]. }
      congruence.
  - intros E. rewrite E. rewrite includes_snoc, Z.eqb_refl, orb_true_r.
    rewrite List.filter_app. cbn [List.filter]. rewrite Z.eqb_refl. cbn [negb].
    rewrite app_nil_r. apply filter_absent. exact E.
Qed.

Lemma toggle_breakpoint_witness :
  let st := {| trace := None; currentStepIndex := 0; isPlaying := false;
               breakpoints := [3; 5; 3]; playbackTrigger := 0 |} in
  includes (breakpoints (handleToggleBreakpoint 3 st)) 3 = false /\
  includes (breakpoints (handleToggleBreakpoint 3 st)) 5 = true /\
  breakpoints (handleToggleBreakpoint 7 (handleToggleBreakpoint 7 st)) = [3; 5; 3].
Proof.
  cbv zeta.
  split; [|split].
  - apply (toggle_breakpoint {| trace := None; currentStepIndex := 0; isPlaying := false;
                                breakpoints := [3; 5; 3]; playbackTrigger := 0 |} 3 3).
  - apply (toggle_breakpoint {| trace := None; currentStepIndex := 0; isPlaying := false;
                                breakpoints := [3; 5; 3]; playbackTrigger := 0 |} 3 5).
  - apply (toggle_breakpoint {| trace := None; currentStepIndex := 0; isPlaying := false;
                                breakpoints := [3; 5; 3]; playbackTrigger := 0 |} 7 7).
    reflexivity.
Defined.

(** X25.  The step buttons keep the index inside the trace: from an index
    between 0 and the last step, forward and back stay in that range,
    forward does nothing at the last step and back nothing at the first,
    and elsewhere each undoes the other.  With no trace or an empty one the
    index stays 0. *)
Theorem step_buttons_clamp (st : State) :
  let last := Z.max 0 (steps_length st - 1) in
  0 <= currentStepIndex st <= last ->
  0 <= currentStepIndex (onStepForward st) <= last /\
  0 <= currentStepIndex (onStepBack st) <= last /\
  currentStepIndex (onStepForward st) = Z.min last (currentStepIndex st + 1) /\
  currentStepIndex (onStepBack st) = Z.max 0 (currentStepIndex st - 1) /\
  (if currentStepIndex st <? last then onStepBack (onStepForward st) = st
   else onStepForward st = st) /\
  (if 0 <? currentStepIndex st then onStepForward (onStepBack st) = st
   else onStepBack st = st).
Proof.
  cbv zeta. intros Hi.
  assert (Hlen : 0 <= steps_length st).
  { unfold steps_length. destruct (trace st); lia. }
  assert (Hf : currentStepIndex (onStepForward st)
               = Z.min (Z.max 0 (steps_length st - 1)) (currentStepIndex st + 1)).
  { unfold onStepForward. cbn [currentStepIndex set_currentStepIndex].
    destruct (Z.eqb_spec (steps_length st) 0) as [E | E]; [rewrite E|]; lia. }
  assert (Hb : currentStepIndex (onStepBack st) = Z.max 0 (currentStepIndex st - 1))
    by reflexivity.
  assert (Hsl : forall v, steps_length (set_currentStepIndex v st) = steps_length st)
    by reflexivity.
  assert (Hset : forall st0 : State, set_currentStepIndex (currentStepIndex st0) st0 = st0)
    by (intros []; reflexivity).
  assert (Hsetset : forall v w, set_currentStepIndex v (set_currentStepIndex w st)
                                = set_currentStepIndex v st) by reflexivity.
  split; [rewrite Hf; lia|]. split; [rewrite Hb; lia|].
  split; [exact Hf|]. split; [exact Hb|]. split.
  - destruct (Z.ltb_spec (currentStepIndex st) (Z.max 0 (steps_length st - 1))) as [Hlt | Hge].
    + unfold onStepBack. rewrite Hf. unfold onStepForward. rewrite Hsetset.
      replace (Z.max 0 (Z.min (Z.max 0 (steps_length st - 1)) (currentStepIndex st + 1) - 1))
        with (currentStepIndex st) by lia.
      apply Hset.
    + unfold onStepForward.
      replace (Z.min _ (currentStepIndex st + 1)) with (currentStepIndex st).
      * apply Hset.
      * destruct (Z.eqb_spec (steps_length st) 0) as [E | E]; [rewrite E in *|]; lia.
  - destruct (Z.ltb_spec 0 (currentStepIndex st)) as [Hlt | Hge].
    + unfold onStepForward, onStepBack. rewrite !Hsl.
      cbn [currentStepIndex set_currentStepIndex]. rewrite Hsetset.
      replace (Z.min _ (Z.max 0 (currentStepIndex st - 1) + 1)) with (currentStepIndex st).
      * apply Hset.
      * destruct (Z.eqb_spec (steps_length st) 0) as [E | E]; [rewrite E in *|]; lia.
    + unfold onStepBack.
      replace (Z.max 0 (currentStepIndex st - 1)) with (currentStepIndex st) by lia.
      apply Hset.
Qed.

Lemma step_buttons_clamp_witness :
  let st := {| trace := Some [ {| line := 1; explanation := None |};
                               {| line := 2; explanation := None |};
                               {| line := 3; explanation := None |} ];
               currentStepIndex := 2; isPlaying := false;
               breakpoints := []; playbackTrigger := 0 |} in
  currentStepIndex (onStepForward st) = 2 /\ currentStepIndex (onStepBack st) = 1.
Proof.
  cbv zeta.
  destruct (step_buttons_clamp
              {| trace := Some [ {| line := 1; explanation := None |};
                                 {| line := 2; explanation := None |};
                                 {| line := 3; explanation := None |} ];
                 currentStepIndex := 2; isPlaying := false;
                 breakpoints := []; playbackTrigger := 0 |})
    as (_ & _ & Hf & Hb & _).
  - vm_compute. split; discriminate.
  - split; [exact Hf | exact Hb].
Defined.

Lemma at_index_in_range {A} (l : list A) (i : Z) :
  0 <= i < Z.of_nat (List.length l) -> exists x, at_index l i = Some x.
Proof.
  intros Hi. unfold at_index.
  destruct (Z.ltb_spec i 0) as [Hneg | _]; [lia|].
  destruct (lookup_lt_is_Some_2 l (Z.to_nat i)) as [x Hx]; [lia|].
  exists x. exact Hx.
Qed.

Lemma executing_line_nonempty (n : Z) : executing_line n <> EmptyString.
Proof. unfold executing_line. cbn. discriminate. Qed.

(** X26.  The two copies of the playback step, the timer callback of the
    standard mode and [run] of the narrator mode, agree: they throw on the
    same states and otherwise set the same index and the same playing
    flag; the standard mode triggers the next round exactly when the
    narrator mode reaches a narration.  The text of a narration is never
    empty. *)
Theorem narrator_matches_standard (st : State) :
  match standard_tick st, narrator_run st with
  | Ok s1, Ok (s2, text) =>
      currentStepIndex s1 = currentStepIndex s2 /\
      isPlaying s1 = isPlaying s2 /\
      trace s1 = trace s2 /\ breakpoints s1 = breakpoints s2 /\
      playbackTrigger s2 = playbackTrigger st /\
      playbackTrigger s1 =
        (if is_some text then S (playbackTrigger st) else playbackTrigger st) /\
      truthy text = is_some text
  | Throw e1, Throw e2 => e1 = e2
  | _, _ => False
  end.
Proof.
  unfold standard_tick, narrator_run.
  destruct (trace st) as [steps|]; [|cbn; repeat split; reflexivity].
  destruct (Z.of_nat (List.length steps) - 1 <=? currentStepIndex st);
    [cbn; repeat split; reflexivity|].
  destruct (at_index steps (currentStepIndex st + 1)) as [nextStep|]; [|reflexivity].
  destruct (includes (breakpoints st) (line nextStep)); [cbn; repeat split; reflexivity|].
  cbn [currentStepIndex isPlaying trace breakpoints playbackTrigger set_currentStepIndex
       set_playbackTrigger is_some].
  repeat split.
  destruct (truthy (explanation nextStep)) eqn:Et.
  - destruct (explanation nextStep) as [[|c r]|]; try discriminate. reflexivity.
  - unfold truthy. pose proof (executing_line_nonempty (line nextStep)) as Hne.
    destruct (executing_line (line nextStep)); [congruence | reflexivity].
Qed.

(** X27.  A playback step from an index of the trace never throws: the
    step it reads is there.  The index moves forward by at most one and
    stays inside the trace, and the trace and the breakpoints are left
    alone.  The step stops the playback at the last step and on a
    breakpoint, and nowhere else. *)
Theorem standard_tick_in_range (st : State) (steps : list TraceStep) :
  trace st = Some steps ->
  0 <= currentStepIndex st < Z.of_nat (List.length steps) ->
  exists st',
    standard_tick st = Ok st' /\
    trace st' = trace st /\ breakpoints st' = breakpoints st /\
    currentStepIndex st <= currentStepIndex st' <= currentStepIndex st + 1 /\
    currentStepIndex st' < Z.of_nat (List.length steps) /\
    (if currentStepIndex st =? Z.of_nat (List.length steps) - 1
     then st' = set_isPlaying false st
     else currentStepIndex st' = currentStepIndex st + 1 /\
          exists nextStep,
            at_index steps (currentStepIndex st') = Some nextStep /\
            if includes (breakpoints st) (line nextStep)
            then isPlaying st' = false /\ playbackTrigger st' = playbackTrigger st
            else isPlaying st' = isPlaying st /\
                 playbackTrigger st' = S (playbackTrigger st)).
Proof.
  intros Htr Hi. unfold standard_tick. rewrite Htr.
  destruct (Z.leb_spec (Z.of_nat (List.length steps) - 1) (currentStepIndex st)) as [Hlast | Hmid].
  - eexists. split; [reflexivity|]. cbn.
    replace (currentStepIndex st =? Z.of_nat (List.length steps) - 1) with true
      by (symmetry; apply Z.eqb_eq; lia).
    repeat split; try reflexivity; try exact Htr; lia.
  - destruct (at_index_in_range steps (currentStepIndex st + 1)) as [nextStep Hn]; [lia|].
    rewrite Hn.
    replace (currentStepIndex st =? Z.of_nat (List.length steps) - 1) with false
      by (symmetry; apply Z.eqb_neq; lia).
    destruct (includes (breakpoints st) (line nextStep)) eqn:Eb;
      (eexists; split; [reflexivity|]); cbn;
      (repeat split; try reflexivity; try exact Htr; try lia);
      exists nextStep; rewrite Eb; (split; [exact Hn|]); split; reflexivity.
Qed.

Lemma standard_tick_in_range_witness :
  let steps := [ {| line := 1; explanation := None |};
                 {| line := 2; explanation := Some "swap"%string |} ] in
  let st := {| trace := Some steps; currentStepIndex := 0; isPlaying := true;
               breakpoints := [2]; playbackTrigger := 0 |} in
  exists st',
    standard_tick st = Ok st' /\
    trace st' = trace st /\ breakpoints st' = breakpoints st /\
    currentStepIndex st <= currentStepIndex st' <= currentStepIndex st + 1 /\
    currentStepIndex st' < Z.of_nat (List.length steps) /\
    (if currentStepIndex st =? Z.of_nat (List.length steps) - 1
     then st' = set_isPlaying false st
     else currentStepIndex st' = currentStepIndex st + 1 /\
          exists nextStep,
            at_index steps (currentStepIndex st') = Some nextStep /\
            if includes (breakpoints st) (line nextStep)
            then isPlaying st' = false /\ playbackTrigger st' = playbackTrigger st
            else isPlaying st' = isPlaying st /\
                 playbackTrigger st' = S (playbackTrigger st)).
Proof.
  apply (standard_tick_in_range
           {| trace := Some [ {| line := 1; explanation := None |};
                              {| line := 2; explanation := Some "swap"%string |} ];
              currentStepIndex := 0; isPlaying := true;
              breakpoints := [2]; playbackTrigger := 0 |}).
  - reflexivity.
  - vm_compute. split; [discriminate | reflexivity].
Defined.

End AppFacts.

(** ** The playback loop left to itself, and the narration it asks for *)
Section PlaybackFacts.
Import App.
Local Open Scope Z_scope.

Lemma play_off (rounds : nat) (st : State) :
  isPlaying st = false -> play rounds st = Ok st.
Proof. intros H. destruct rounds; cbn; [|rewrite H]; reflexivity. Qed.

Lemma play_reaches_stop (steps : list TraceStep) (bps : list Z) (rounds : nat) :
  forall st,
  trace st = Some steps -> breakpoints st = bps ->
  0 <= currentStepIndex st < Z.of_nat (List.length steps) ->
  isPlaying st = true ->
  Z.of_nat (List.length steps) - currentStepIndex st <= Z.of_nat rounds ->
  exists st',
    play rounds st = Ok st' /\
    isPlaying st' = false /\
    currentStepIndex st <= currentStepIndex st' < Z.of_nat (List.length steps) /\
    (forall j s, currentStepIndex st < j < currentStepIndex st' ->
                 at_index steps j = Some s -> includes bps (line s) = false) /\
    (currentStepIndex st' = Z.of_nat (List.length steps) - 1 \/
     exists s, currentStepIndex st < currentStepIndex st' /\
               at_index steps (currentStepIndex st') = Some s /\
               includes bps (line s) = true).
Proof.
  induction rounds as [|rounds IH]; intros st Htr Hbp Hi Hplay Hfuel; [lia|].
  cbn [play]. rewrite Hplay. unfold standard_tick. rewrite Htr.
  destruct (Z.leb_spec (Z.of_nat (List.length steps) - 1) (currentStepIndex st)) as [Hlast | Hmid].
  - cbn [mbind result_bind bind_result]. rewrite play_off by reflexivity.
    eexists. split; [reflexivity|]. cbn.
    split; [reflexivity|]. split; [lia|]. split; [intros j s Hj; lia|]. left. lia.
  - destruct (at_index_in_range steps (currentStepIndex st + 1)) as [nextStep Hn]; [lia|].
    rewrite Hn. rewrite Hbp.
    destruct (includes bps (line nextStep)) eqn:Eb; cbn [mbind result_bind bind_result].
    + rewrite play_off by reflexivity.
      eexists. split; [reflexivity|]. cbn.
      split; [reflexivity|]. split; [lia|]. split; [intros j s Hj; lia|].
      right. exists nextStep. split; [lia|]. split; assumption.
    + destruct (IH (set_playbackTrigger (S (playbackTrigger st))
                      (set_currentStepIndex (currentStepIndex st + 1) st)))
        as (st' & Hrun & Hoff & Hrange & Hfree & Hend);
        try (cbn; assumption); try (cbn; lia).
      cbn [currentStepIndex set_playbackTrigger set_currentStepIndex] in Hrange, Hfree, Hend.
      exists st'. split; [exact Hrun|]. split; [exact Hoff|]. split; [lia|]. split.
      * intros j s Hj Hs.
        destruct (Z.eq_dec j (currentStepIndex st + 1)) as [-> | Hne].
        -- rewrite Hn in Hs. injection Hs as <-. exact Eb.
        -- apply (Hfree j s); [lia | exact Hs].
      * destruct Hend as [Hend | (s & Hlt & Hs & Hb)]; [left; exact Hend|].
        right. exists s. split; [lia|]. split; assumption.
Qed.

(** X28.  The standard playback left to itself stops, and does not throw:
    started on a step of the trace, within as many rounds as the trace has
    steps the playing flag is off.  The index then is on the first later
    step whose line has a breakpoint, or on the last step when there is no
    such step; no step in between has a breakpoint. *)
Theorem play_stops (st : State) (steps : list TraceStep) :
  trace st = Some steps ->
  0 <= currentStepIndex st < Z.of_nat (List.length steps) ->
  isPlaying st = true ->
  exists st',
    play (List.length steps) st = Ok st' /\
    isPlaying st' = false /\
    currentStepIndex st <= currentStepIndex st' < Z.of_nat (List.length steps) /\
    (forall j s, currentStepIndex st < j < currentStepIndex st' ->
                 at_index steps j = Some s ->
                 includes (breakpoints st) (line s) = false) /\
    (currentStepIndex st' = Z.of_nat (List.length steps) - 1 \/
     exists s, currentStepIndex st < currentStepIndex st' /\
               at_index steps (currentStepIndex st') = Some s /\
               includes (breakpoints st) (line s) = true).
Proof.
  intros Htr Hi Hplay.
  apply (play_reaches_stop steps (breakpoints st) (List.length steps) st);
    try assumption; try reflexivity; lia.
Qed.

Lemma play_stops_witness :
  let steps := [ {| line := 1; explanation := None |};
                 {| line := 2; explanation := None |};
                 {| line := 4; explanation := None |};
                 {| line := 2; explanation := None |} ] in
  let st := {| trace := Some steps; currentStepIndex := 0; isPlaying := true;
               breakpoints := [4]; playbackTrigger := 0 |} in
  exists st',
    play (List.length steps) st = Ok st' /\
    isPlaying st' = false /\
    currentStepIndex st <= currentStepIndex st' < Z.of_nat (List.length steps) /\
    (forall j s, currentStepIndex st < j < currentStepIndex st' ->
                 at_index steps j = Some s ->
                 includes (breakpoints st) (line s) = false) /\
    (currentStepIndex st' = Z.of_nat (List.length steps) - 1 \/
     exists s, currentStepIndex st < currentStepIndex st' /\
               at_index steps (currentStepIndex st') = Some s /\
               includes (breakpoints st) (line s) = true).
Proof.
  apply (play_stops
           {| trace := Some [ {| line := 1; explanation := None |};
                              {| line := 2; explanation := None |};
                              {| line := 4; explanation := None |};
                              {| line := 2; explanation := None |} ];
              currentStepIndex := 0; isPlaying := true;
              breakpoints := [4]; playbackTrigger := 0 |}).
  - reflexivity.
  - vm_compute. split; [discriminate | reflexivity].
  - reflexivity.
Defined.

(** X29.  Every narration the playback reaches is asked for: when [run]
    of the narrator mode hands a text to [playTTS] and an API key is
    available, the text is not empty, so [playTTS] takes a new token and
    sends the request for exactly that text; the index has moved to the
    step that is narrated. *)
Theorem narration_is_requested (st st' : State) (text : string)
    (tts : TtsService.State) (stored env : option string) :
  narrator_run st = Ok (st', Some text) ->
  truthy (TtsService.getApiKey stored env) = true ->
  st' = set_currentStepIndex (currentStepIndex st + 1) st /\
  text <> EmptyString /\
  exists tts',
    TtsService.playTTS_begin stored env text tts
      = (Ok (TtsService.Awaiting (S (TtsService.currentPlaybackId tts))), tts') /\
    TtsService.requests tts'
      = TtsService.requests tts ++ [(S (TtsService.currentPlaybackId tts), text)].
Proof.
  intros Hrun Hkey.
  assert (H : st' = set_currentStepIndex (currentStepIndex st + 1) st /\ text <> EmptyString).
  { revert Hrun. unfold narrator_run.
    destruct (trace st) as [steps|]; [|discriminate].
    destruct (Z.of_nat (List.length steps) - 1 <=? currentStepIndex st); [discriminate|].
    destruct (at_index steps (currentStepIndex st + 1)) as [nextStep|]; [|discriminate].
    destruct (includes (breakpoints st) (line nextStep)); [discriminate|].
    intros [= <- <-]. split; [reflexivity|].
    destruct (truthy (explanation nextStep)) eqn:Et.
    - destruct (explanation nextStep) as [[|c r]|]; discriminate.
    - apply executing_line_nonempty. }
  destruct H as [Hst Htext]. split; [exact Hst|]. split; [exact Htext|].
  destruct (playTTS_begin_issue tts stored env text Hkey Htext)
    as (tts' & Hb & _ & _ & _ & Hreq & _).
  exists tts'. split; assumption.
Qed.

Lemma narration_is_requested_witness :
  let st := {| trace := Some [ {| line := 1; explanation := None |};
                               {| line := 7; explanation := Some EmptyString |} ];
               currentStepIndex := 0; isPlaying := true;
               breakpoints := []; playbackTrigger := 0 |} in
  set_currentStepIndex 1 st = set_currentStepIndex (currentStepIndex st + 1) st /\
  "Executing Line 7"%string <> EmptyString /\
  exists tts',
    TtsService.playTTS_begin TtsService.scenario_key None "Executing Line 7" TtsService.initial
      = (Ok (TtsService.Awaiting 1), tts') /\
    TtsService.requests tts' = [(1%nat, "Executing Line 7"%string)].
Proof.
  apply (narration_is_requested
           {| trace := Some [ {| line := 1; explanation := None |};
                              {| line := 7; explanation := Some EmptyString |} ];
              currentStepIndex := 0; isPlaying := true;
              breakpoints := []; playbackTrigger := 0 |}
           _ "Executing Line 7" TtsService.initial TtsService.scenario_key None).
  - vm_compute. reflexivity.
  - reflexivity.
Defined.

End PlaybackFacts.
